(** * Recipe designer: discovery, extraction, corpus and wildcard engine

    A shallow embedding of [recipe_designer/main.py].

    Texts are Rocq strings: a character is a code point below 256, and the
    character classes of Python ([str.isspace], the [\s], [\w] and [\b] of
    [re] on [str] patterns, [str.lower]) are the ones Python uses on that
    range.  The operating system ([os.path], [os.walk], [open],
    [os.environ]) is a record of functions the program is run against. *)

From Stdlib Require Import Ascii String NArith ZArith Bool Lia.
From stdpp Require Import base tactics option list gmap strings pretty sorting.

#[local] Arguments Ascii.eqb : simpl never.

(* ================================================================== *)
(** ** Characters *)

Module Chars.
Local Open Scope N_scope.

Definition code (c : ascii) : N := N_of_ascii c.

Definition between (lo hi : N) (c : ascii) : bool :=
  (lo <=? code c) && (code c <=? hi).

(** [str.isspace] and the [\s] of [re]: TAB..CR, FS..US, SPACE, NEL, NBSP. *)
Definition is_space (c : ascii) : bool :=
  between 9 13 c || between 28 32 c || (code c =? 133) || (code c =? 160).

Definition is_digit (c : ascii) : bool := between 48 57 c.
Definition is_upper_az (c : ascii) : bool := between 65 90 c.
Definition is_lower_az (c : ascii) : bool := between 97 122 c.

(** The alphanumeric characters of Latin-1 ([str.isalnum]). *)
Definition is_alnum (c : ascii) : bool :=
  is_digit c || is_upper_az c || is_lower_az c
  || (code c =? 170) || between 178 179 c || (code c =? 181)
  || between 185 186 c || between 188 190 c
  || between 192 214 c || between 216 246 c || between 248 255 c.

(** [str.isalpha]: the letters of Latin-1. *)
Definition is_alpha (c : ascii) : bool :=
  is_upper_az c || is_lower_az c
  || (code c =? 170) || (code c =? 181) || (code c =? 186)
  || between 192 214 c || between 216 246 c || between 248 255 c.

(** The [\w] of [re]: alphanumeric or underscore. *)
Definition is_word (c : ascii) : bool := is_alnum c || (code c =? 95).

(** [str.lower] on one character. *)
Definition lower (c : ascii) : ascii :=
  if is_upper_az c || (between 192 222 c && negb (code c =? 215))
  then ascii_of_N (code c + 32) else c.

(** The class [[a-z0-9_]] as written in the patterns. *)
Definition is_ident (c : ascii) : bool :=
  is_lower_az c || is_digit c || (code c =? 95).

(** A class under [re.I]: the character is lowered, then tested. *)
Definition icase (p : ascii -> bool) (c : ascii) : bool := p (lower c).

Definition is_char (a c : ascii) : bool := Ascii.eqb a c.
Definition not_char (a c : ascii) : bool := negb (Ascii.eqb a c).

End Chars.

(* ================================================================== *)
(** ** Strings: the [str] methods the program uses *)

Module Str.

Fixpoint starts_with (p s : string) : bool :=
  match p, s with
  | EmptyString, _ => true
  | String a p', String b s' => Ascii.eqb a b && starts_with p' s'
  | String _ _, EmptyString => false
  end.

(** [sub in s] *)
Fixpoint contains (sub s : string) : bool :=
  starts_with sub s ||
  match s with
  | EmptyString => false
  | String _ s' => contains sub s'
  end.

(** [s.endswith(suf)] *)
Fixpoint ends_with (suf s : string) : bool :=
  String.eqb suf s ||
  match s with
  | EmptyString => false
  | String _ s' => ends_with suf s'
  end.

(** [s[:-1]] *)
Fixpoint drop_last (s : string) : string :=
  match s with
  | EmptyString => EmptyString
  | String c s' =>
      match s' with
      | EmptyString => EmptyString
      | String _ _ => String c (drop_last s')
      end
  end.

Fixpoint lstrip (p : ascii -> bool) (s : string) : string :=
  match s with
  | EmptyString => EmptyString
  | String c s' => if p c then lstrip p s' else s
  end.

Fixpoint rstrip (p : ascii -> bool) (s : string) : string :=
  match s with
  | EmptyString => EmptyString
  | String c s' =>
      match rstrip p s' with
      | EmptyString => if p c then EmptyString else String c EmptyString
      | r => String c r
      end
  end.

(** [s.strip()] *)
Definition strip (s : string) : string :=
  rstrip Chars.is_space (lstrip Chars.is_space s).

Definition head (s : string) : option ascii :=
  match s with
  | EmptyString => None
  | String c _ => Some c
  end.

(** [s[-1]], if any *)
Fixpoint last (s : string) : option ascii :=
  match s with
  | EmptyString => None
  | String c s' =>
      match s' with
      | EmptyString => Some c
      | String _ _ => last s'
      end
  end.

Fixpoint take (n : nat) (s : string) : string :=
  match n, s with
  | S n', String c s' => String c (take n' s')
  | _, _ => EmptyString
  end.

Fixpoint map (f : ascii -> ascii) (s : string) : string :=
  match s with
  | EmptyString => EmptyString
  | String c s' => String (f c) (map f s')
  end.

Fixpoint all (p : ascii -> bool) (s : string) : bool :=
  match s with
  | EmptyString => true
  | String c s' => p c && all p s'
  end.

(** [s.lower()] *)
Definition lower (s : string) : string := map Chars.lower s.

(** [sep.join(l)] *)
Fixpoint join (sep : string) (l : list string) : string :=
  match l with
  | [] => EmptyString
  | [x] => x
  | x :: l' => x +:+ sep +:+ join sep l'
  end.

(** Truthiness of a [str]: [if s] *)
Definition truthy (s : string) : bool :=
  match s with
  | EmptyString => false
  | String _ _ => true
  end.

End Str.

(* ================================================================== *)
(** ** The [re] module: a backtracking matcher

    The patterns of the program only repeat single-character classes
    (whitespace runs, runs of non-quote characters, runs of stars, any
    characters up to a bracket), so repetition is over a class.
    Matching is by continuation: a continuation that fails makes the
    matcher try its next alternative, in the order Python's [re] does
    (greedy repetition longest first, lazy shortest first, alternation
    left to right). *)

Module Re.

Inductive regex : Type :=
| Eps
| Chr (c : ascii)
| WordB
| Rep (p : ascii -> bool) (min : nat) (greedy : bool)
| Grp (i : nat) (r : regex)
| Alt (r1 r2 : regex)
| Seq (r1 r2 : regex).

(** A literal word. *)
Fixpoint lit (w : string) : regex :=
  match w with
  | EmptyString => Eps
  | String c w' => Seq (Chr c) (lit w')
  end.

Fixpoint cat (l : list regex) : regex :=
  match l with
  | [] => Eps
  | r :: l' => Seq r (cat l')
  end.

Definition captures := list (nat * string).

(** A match: what follows it, the character before its end, its groups. *)
Record rmatch := Match {
  m_prev : option ascii;
  m_rest : string;
  m_groups : captures
}.

Definition cont := option ascii -> string -> captures -> option rmatch.

Definition word_at (o : option ascii) : bool :=
  match o with
  | Some c => Chars.is_word c
  | None => false
  end.

Fixpoint rep_greedy (p : ascii -> bool) (min : nat) (prev : option ascii)
    (s : string) (k : option ascii -> string -> option rmatch) : option rmatch :=
  match s with
  | String c s' =>
      if p c then
        match rep_greedy p (Nat.pred min) (Some c) s' k with
        | Some m => Some m
        | None => match min with O => k prev s | S _ => None end
        end
      else match min with O => k prev s | S _ => None end
  | EmptyString => match min with O => k prev s | S _ => None end
  end.

Fixpoint rep_lazy (p : ascii -> bool) (min : nat) (prev : option ascii)
    (s : string) (k : option ascii -> string -> option rmatch) : option rmatch :=
  match (match min with O => k prev s | S _ => None end) with
  | Some m => Some m
  | None =>
      match s with
      | String c s' =>
          if p c then rep_lazy p (Nat.pred min) (Some c) s' k else None
      | EmptyString => None
      end
  end.

(** The text between the start [s] of a group and its end [s']. *)
Definition consumed (s s' : string) : string :=
  Str.take (String.length s - String.length s') s.

Fixpoint run (r : regex) (prev : option ascii) (s : string)
    (caps : captures) (k : cont) : option rmatch :=
  match r with
  | Eps => k prev s caps
  | Chr c =>
      match s with
      | String c' s' => if Ascii.eqb c c' then k (Some c') s' caps else None
      | EmptyString => None
      end
  | WordB =>
      if xorb (word_at prev) (word_at (Str.head s)) then k prev s caps else None
  | Rep p min true => rep_greedy p min prev s (fun prev' s' => k prev' s' caps)
  | Rep p min false => rep_lazy p min prev s (fun prev' s' => k prev' s' caps)
  | Grp i r' =>
      run r' prev s caps
        (fun prev' s' caps' => k prev' s' ((i, consumed s s') :: caps'))
  | Alt r1 r2 =>
      match run r1 prev s caps k with
      | Some m => Some m
      | None => run r2 prev s caps k
      end
  | Seq r1 r2 =>
      run r1 prev s caps (fun prev' s' caps' => run r2 prev' s' caps' k)
  end.

(** [pattern.match] at a position whose previous character is [prev]. *)
Definition match_at (r : regex) (prev : option ascii) (s : string) : option rmatch :=
  run r prev s [] (fun prev' s' caps => Some (Match prev' s' caps)).

(** [m.group(i)]: [None] when the group took no part in the match. *)
Fixpoint group (m : captures) (i : nat) : option string :=
  match m with
  | [] => None
  | (j, v) :: m' => if Nat.eqb i j then Some v else group m' i
  end.

(** [re.finditer]: leftmost matches, each search resuming where the last
    match ended.  No pattern of the program matches the empty string; an
    empty match would make the scan move on by one character.  Every
    search but the last uses up a character, so one unit of [fuel] more
    than the length of the text is enough (lemma [finditer_from_fuel]). *)
Fixpoint finditer_from (fuel : nat) (r : regex) (prev : option ascii)
    (s : string) : list rmatch :=
  match fuel with
  | O => []
  | S fuel' =>
      match match_at r prev s with
      | Some m =>
          if Nat.ltb (String.length (m_rest m)) (String.length s)
          then m :: finditer_from fuel' r (m_prev m) (m_rest m)
          else
            match s with
            | String c s' => m :: finditer_from fuel' r (Some c) s'
            | EmptyString => [m]
            end
      | None =>
          match s with
          | String c s' => finditer_from fuel' r (Some c) s'
          | EmptyString => []
          end
      end
  end.

Definition finditer (r : regex) (s : string) : list rmatch :=
  finditer_from (S (String.length s)) r None s.

(** [re.sub] with a literal replacement (fuel as for [finditer]: lemma
    [sub_from_fuel]). *)
Fixpoint sub_from (fuel : nat) (r : regex) (repl : string)
    (prev : option ascii) (s : string) : string :=
  match fuel with
  | O => s
  | S fuel' =>
      match match_at r prev s with
      | Some m =>
          if Nat.ltb (String.length (m_rest m)) (String.length s)
          then repl +:+ sub_from fuel' r repl (m_prev m) (m_rest m)
          else
            match s with
            | String c s' => repl +:+ String c (sub_from fuel' r repl (Some c) s')
            | EmptyString => repl
            end
      | None =>
          match s with
          | String c s' => String c (sub_from fuel' r repl (Some c) s')
          | EmptyString => EmptyString
          end
      end
  end.

Definition sub (r : regex) (repl : string) (s : string) : string :=
  sub_from (S (String.length s)) r repl None s.

(** The scan of [finditer] as a relation: started at [s] after [prev], it
    comes to search at the suffix [t] after [prev'].  It moves on by one
    character where the pattern does not match, and to the end of the
    match where it does. *)
Inductive arrives (r : regex)
    : option ascii -> string -> option ascii -> string -> Prop :=
| arrives_here prev s : arrives r prev s prev s
| arrives_skip prev c s prev' t :
    match_at r prev (String c s) = None ->
    arrives r (Some c) s prev' t ->
    arrives r prev (String c s) prev' t
| arrives_match prev s m prev' t :
    match_at r prev s = Some m ->
    String.length (m_rest m) < String.length s ->
    arrives r (m_prev m) (m_rest m) prev' t ->
    arrives r prev s prev' t.

End Re.

(* ================================================================== *)
(** ** JSON5-ish text scanning *)

(** Double and single quote. *)
Definition dquote : ascii := ascii_of_N 34%N.
Definition squote : ascii := "'"%char.

Import Re.

(** [_STR_RE]: a double-quoted string (group 1) or a single-quoted one
    (group 2), neither empty. *)
Definition _STR_RE : regex :=
  Alt (cat [Chr dquote; Grp 1 (Rep (Chars.not_char dquote) 1 true); Chr dquote])
      (cat [Chr squote; Grp 2 (Rep (Chars.not_char squote) 1 true); Chr squote]).

(** [\s*] *)
Definition spaces : regex := Rep Chars.is_space 0 true.

(** Braces, brackets, star, colon and dash. *)
Definition lbrace : ascii := "{"%char.
Definition rbrace : ascii := "}"%char.
Definition lbracket : ascii := "["%char.
Definition rbracket : ascii := "]"%char.
Definition star : ascii := "*"%char.
Definition colon : ascii := ":"%char.
Definition dash : ascii := "-"%char.

(** The placeholder pattern of [_norm_pattern]: an opening brace, one or
    more characters other than a closing brace, a closing brace. *)
Definition re_placeholder : regex :=
  cat [Chr lbrace; Rep (Chars.not_char rbrace) 1 true; Chr rbrace].

(** Two or more stars. *)
Definition re_stars : regex := Rep (Chars.is_char star) 2 true.

Definition _norm_pattern (s : string) : string :=
  let s := Re.sub re_placeholder "*" s in
  let s := Re.sub re_stars "*" s in
  Str.strip s.

Definition _with_domain (code : string) : string :=
  if Str.contains ":" code then code else "game:" +:+ code.

(** [a or b] on two groups: the first that is present and not empty. *)
Definition py_or (a b : option string) : option string :=
  match a with
  | Some (String _ _) => a
  | _ => b
  end.

(** [\bcode\s*:\s*] *)
Definition code_colon : regex :=
  cat [WordB; lit "code"; spaces; Chr colon; spaces].

(** Rule 1: [code: <string>] *)
Definition re_code : regex := Seq code_colon _STR_RE.

(** Rule 2: [code: { ... path: <string>], nothing braced in between. *)
Definition not_brace (c : ascii) : bool :=
  Chars.not_char lbrace c && Chars.not_char rbrace c.

Definition re_code_path : regex :=
  cat [code_colon; Chr lbrace; Rep not_brace 0 false;
       WordB; lit "path"; spaces; Chr colon; spaces; _STR_RE].

(** Rules 3 and 4: [keyword: [ body ]], the body as short as possible;
    under [re.S] the dot is any character. *)
Definition any_char (c : ascii) : bool := true.

Definition re_list (keyword : string) : regex :=
  cat [WordB; lit keyword; spaces; Chr colon; spaces;
       Chr lbracket; Grp 1 (Rep any_char 0 false); Chr rbracket].

Definition re_allowedVariants : regex := re_list "allowedVariants".
Definition re_groupBy : regex := re_list "groupBy".

(** [val = m.group(1) or m.group(2)]; [if not val: continue] *)
Definition quoted_value (m : rmatch) : option string :=
  match py_or (group (m_groups m) 1) (group (m_groups m) 2) with
  | Some (String c v) => Some (String c v)
  | _ => None
  end.

Definition add_code (codes : gset string) (m : rmatch) : gset string :=
  match quoted_value m with
  | Some val => {[ _with_domain (_norm_pattern val) ]} ∪ codes
  | None => codes
  end.

Definition add_code_and_sibling (codes : gset string) (m : rmatch) : gset string :=
  match quoted_value m with
  | Some val =>
      let base := _with_domain (_norm_pattern val) in
      let codes := {[ base ]} ∪ codes in
      if negb (Str.ends_with "*" base) && negb (Str.contains "-*" base)
      then {[ base +:+ "-*" ]} ∪ codes
      else codes
  | None => codes
  end.

(** The inner loop of rules 3 and 4 over the strings of one list body. *)
Definition add_list_body (codes : gset string) (m : rmatch) : gset string :=
  let body := default EmptyString (group (m_groups m) 1) in
  foldl add_code codes (finditer _STR_RE body).

Definition _discover_codes_in_text (text : string) : gset string :=
  let codes : gset string := ∅ in
  let codes := foldl add_code_and_sibling codes (finditer re_code text) in
  let codes := foldl add_code codes (finditer re_code_path text) in
  let codes := foldl add_list_body codes (finditer re_allowedVariants text) in
  let codes := foldl add_list_body codes (finditer re_groupBy text) in
  codes.

(* ================================================================== *)
(** ** The host: file system, environment and builtins *)

Record Host := {
  os_path_abspath : string -> string;
  os_path_expanduser : string -> string;
  os_path_expandvars : string -> string;
  os_path_isabs : string -> bool;
  os_path_join : string -> string -> string;
  os_path_dirname : string -> string;
  os_path_isdir : string -> bool;
  (** [os.walk]: the triples (dirpath, dirnames, filenames) it yields *)
  os_walk : string -> list (string * list string * list string);
  (** [open(path).read()] in UTF-8; [None] when it raises *)
  read_text : string -> option string;
  os_environ_get : string -> option string;
  (** [repr] of a string *)
  repr : string -> string;
  (** [int] of a string; [None] when it raises [ValueError] *)
  int_of : string -> option Z;
  (** [str.upper] of one character *)
  upper : ascii -> string
}.

Section Discovery.
Context (h : Host).

Definition join3 (a b c : string) : string :=
  os_path_join h (os_path_join h a b) c.
Definition join4 (a b c d : string) : string :=
  os_path_join h (join3 a b c) d.

Definition expand (p : string) : string :=
  os_path_abspath h (os_path_expanduser h (os_path_expandvars h p)).

Definition _candidate_list_from_root (root : string) : list string :=
  let root := expand root in
  [ join3 root "assets" "survival";
    join4 root "Vintagestory" "assets" "survival";
    join4 (os_path_dirname h root) "Vintagestory" "assets" "survival";
    root ].

Definition _validate_survival_dir (path : string) : bool :=
  os_path_isdir h path && os_path_isdir h (os_path_join h path "itemtypes").

Definition try_line (cand : string) (ok : bool) : string :=
  "  Try: " +:+ cand +:+ "  -> " +:+ (if ok then "OK" else "nope").
Definition found_line (cand : string) : string := "[FOUND] Using: " +:+ cand.

(** The candidate loop: log each try, stop at the first that validates. *)
Fixpoint try_candidates (cands : list string) (logs : list string)
    : option string * list string :=
  match cands with
  | [] => (None, logs)
  | cand :: cands' =>
      let ok := _validate_survival_dir cand in
      let logs := logs ++ [try_line cand ok] in
      if ok then (Some cand, logs ++ [found_line cand])
      else try_candidates cands' logs
  end.

(** The last log line; its arrow and ellipsis are kept as UTF-8 bytes. *)
Definition failed_line : string :=
  "[FAILED] Could not locate 'assets/survival'. Use Discovery → Direct Search… or set your env var.".

(** [env_key] and [direct_root] are [None] or a string; an empty string is
    as good as [None] to the tests of the source.  Each line of the log
    is also printed by [_print]; the list returned is what is kept. *)
Definition resolve_survival_dir (env_key direct_root : option string)
    : option string * list string :=
  let logs := ["---- Starting discovery ----"] in
  let '(found, logs) :=
    match direct_root with
    | Some (String c d) =>
        let direct_root := String c d in
        let expanded := expand direct_root in
        let logs :=
          if negb (os_path_isabs h direct_root)
          then logs ++ ["Direct Search path is not absolute: " +:+ repr h direct_root]
          else logs in
        let logs := logs ++ ["Direct Search path provided: " +:+ repr h direct_root
                             +:+ " (expanded: " +:+ repr h expanded +:+ ")"] in
        try_candidates (_candidate_list_from_root expanded) logs
    | _ => (None, logs)
    end in
  match found with
  | Some cand => (Some cand, logs)
  | None =>
      let '(found, logs) :=
        match env_key with
        | Some (String c k) =>
            let env_key := String c k in
            match os_environ_get h env_key with
            | Some (String c' v) =>
                let val := String c' v in
                try_candidates (_candidate_list_from_root val)
                  (logs ++ ["Env " +:+ env_key +:+ ": " +:+ repr h val])
            | _ => (None, logs ++ ["Env " +:+ env_key +:+ ": not set"])
            end
        | _ => (None, logs)
        end in
      match found with
      | Some cand => (Some cand, logs)
      | None => (None, logs ++ [failed_line])
      end
  end.

Definition _discover_codes_in_file (path : string) : gset string :=
  match read_text h path with
  | Some txt => _discover_codes_in_text txt
  | None => ∅
  end.

(** The walk shared by [discover_game_codes] and
    [_collect_corpus_variants]: under [itemtypes] then [blocktypes], when
    they are directories, every [.json] or [.json5] file, in walk order. *)
Definition is_definition_file (fn : string) : bool :=
  Str.ends_with ".json" fn || Str.ends_with ".json5" fn.

Definition definition_files (survival : string) : list string :=
  flat_map (fun kind =>
    let root := os_path_join h survival kind in
    if os_path_isdir h root then
      flat_map (fun '(dirpath, _dirnames, filenames) =>
        List.map (os_path_join h dirpath) (List.filter is_definition_file filenames))
        (os_walk h root)
    else [])
    ["itemtypes"; "blocktypes"].

(** [sorted] on strings: by code points. *)
Definition sorted (l : list string) : list string := merge_sort String.le l.

Definition discover_game_codes (env_key direct_root : option string)
    : list string * option string :=
  let '(survival, _logs) := resolve_survival_dir env_key direct_root in
  match survival with
  | Some (String c p) =>
      let survival := String c p in
      let codes : gset string :=
        foldl (fun codes full => _discover_codes_in_file full ∪ codes) ∅
              (definition_files survival) in
      (sorted (elements codes), Some survival)
  | _ => ([], None)
  end.

(** *** The variant corpus *)

(** [\b([a-z0-9_]+):([a-z0-9_]+)-([a-z0-9_]+)\b] under [re.I] *)
Definition ident : regex := Rep (Chars.icase Chars.is_ident) 1 true.

Definition rex_dom : regex :=
  cat [WordB; Grp 1 ident; Chr colon; Grp 2 ident; Chr dash; Grp 3 ident; WordB].

Definition rex_nodom : regex :=
  cat [WordB; Grp 1 ident; Chr dash; Grp 2 ident; WordB].

Definition add (variants : gmap string (gset string)) (dom base token : string)
    : gmap string (gset string) :=
  if negb (Str.truthy base) || negb (Str.truthy token) then variants
  else
    let key := dom +:+ ":" +:+ base +:+ "-" in
    <[ key := {[ token ]} ∪ default ∅ (variants !! key) ]> variants.

(** The groups of both patterns take part in every match (lemmas
    [rex_dom_groups] and [rex_nodom_groups]). *)
Definition add_dom (variants : gmap string (gset string)) (m : rmatch) :=
  match group (m_groups m) 1, group (m_groups m) 2, group (m_groups m) 3 with
  | Some g1, Some base, Some token => add variants (Str.lower g1) base token
  | _, _, _ => variants
  end.

Definition add_nodom (variants : gmap string (gset string)) (m : rmatch) :=
  match group (m_groups m) 1, group (m_groups m) 2 with
  | Some base, Some token =>
      if Str.contains "*" base || Str.contains "*" token then variants
      else add variants "game" base token
  | _, _ => variants
  end.

Definition scan_text (variants : gmap string (gset string)) (txt : string) :=
  let variants := foldl add_dom variants (finditer rex_dom txt) in
  foldl add_nodom variants (finditer rex_nodom txt).

Definition _collect_corpus_variants (survival_path : string)
    : gmap string (gset string) :=
  foldl (fun variants full =>
           match read_text h full with
           | Some txt => scan_text variants txt
           | None => variants
           end)
        ∅ (definition_files survival_path).

End Discovery.

(* ================================================================== *)
(** ** Data *)

Record Ingredient := mkIngredient {
  code : string;
  quantity : Z;
  is_tool : bool;
  tool_cost : Z;
  symbol : option string;
  name : string;
  allowed_variants : list string
}.

(** [Ingredient()] *)
Definition new_ingredient : Ingredient :=
  mkIngredient EmptyString 1%Z false 0%Z None EmptyString [].

Definition set_code (v : string) (i : Ingredient) : Ingredient :=
  mkIngredient v (quantity i) (is_tool i) (tool_cost i) (symbol i) (name i)
    (allowed_variants i).
Definition set_symbol (v : option string) (i : Ingredient) : Ingredient :=
  mkIngredient (code i) (quantity i) (is_tool i) (tool_cost i) v (name i)
    (allowed_variants i).
Definition set_allowed_variants (v : list string) (i : Ingredient) : Ingredient :=
  mkIngredient (code i) (quantity i) (is_tool i) (tool_cost i) (symbol i) (name i) v.
Definition set_tool_fields (t : bool) (cost qty : Z) (i : Ingredient) : Ingredient :=
  mkIngredient (code i) qty t cost (symbol i) (name i) (allowed_variants i).

Definition GRID_SIZE : nat := 3.

Abbreviation grid := (list (list (option Ingredient))).

(** [[[None for _ in range(GRID_SIZE)] for _ in range(GRID_SIZE)]] *)
Definition empty_grid : grid := replicate GRID_SIZE (replicate GRID_SIZE None).

(** [grid_items[r][c]]; the program only indexes inside the grid. *)
Definition grid_get (g : grid) (pos : nat * nat) : option Ingredient :=
  match g !! pos.1 with
  | Some row => match row !! pos.2 with Some x => x | None => None end
  | None => None
  end.

(** Each cell holds an object of its own, so a change to the ingredient of
    a cell is a change at that cell. *)
Definition grid_set (g : grid) (pos : nat * nat) (x : option Ingredient) : grid :=
  match g !! pos.1 with
  | Some row => <[ pos.1 := <[ pos.2 := x ]> row ]> g
  | None => g
  end.

(** The cells in the order of the nested [range(GRID_SIZE)] loops. *)
Definition cells : list (nat * nat) :=
  r ← seq 0 GRID_SIZE; c ← seq 0 GRID_SIZE; [(r, c)].

(** The state of [RecipeBuilderApp] the engine reads or writes; the
    canvas of the cells and the menus are left out. *)
Record App := mkApp {
  discovered_items : list string;
  used_survival_path : option string;
  variant_index : gmap string (gset string);
  grid_items : grid;
  selected : nat * nat;
  code_to_symbol : gmap string string;
  shapeless_var : bool;
  output_code_var : string;
  output_qty_var : string;
  is_tool_var : bool;
  tool_cost_var : string;
  qty_var : string;
  wildcard_var : bool;
  symbol_var : string;
  slot_code_val : string;
  variants_summary : string;
  variants_row_shown : bool;
  (** the calls of [messagebox.showerror]: title and message *)
  errors : list (string * string)
}.

Definition with_grid (g : grid) (a : App) : App :=
  mkApp (discovered_items a) (used_survival_path a) (variant_index a) g
    (selected a) (code_to_symbol a) (shapeless_var a) (output_code_var a)
    (output_qty_var a) (is_tool_var a) (tool_cost_var a) (qty_var a)
    (wildcard_var a) (symbol_var a) (slot_code_val a) (variants_summary a)
    (variants_row_shown a) (errors a).
Definition with_code_to_symbol (m : gmap string string) (a : App) : App :=
  mkApp (discovered_items a) (used_survival_path a) (variant_index a)
    (grid_items a) (selected a) m (shapeless_var a) (output_code_var a)
    (output_qty_var a) (is_tool_var a) (tool_cost_var a) (qty_var a)
    (wildcard_var a) (symbol_var a) (slot_code_val a) (variants_summary a)
    (variants_row_shown a) (errors a).
Definition with_wildcard_var (b : bool) (a : App) : App :=
  mkApp (discovered_items a) (used_survival_path a) (variant_index a)
    (grid_items a) (selected a) (code_to_symbol a) (shapeless_var a)
    (output_code_var a) (output_qty_var a) (is_tool_var a) (tool_cost_var a)
    (qty_var a) b (symbol_var a) (slot_code_val a) (variants_summary a)
    (variants_row_shown a) (errors a).
Definition with_symbol_var (v : string) (a : App) : App :=
  mkApp (discovered_items a) (used_survival_path a) (variant_index a)
    (grid_items a) (selected a) (code_to_symbol a) (shapeless_var a)
    (output_code_var a) (output_qty_var a) (is_tool_var a) (tool_cost_var a)
    (qty_var a) (wildcard_var a) v (slot_code_val a) (variants_summary a)
    (variants_row_shown a) (errors a).
Definition with_slot_code_val (v : string) (a : App) : App :=
  mkApp (discovered_items a) (used_survival_path a) (variant_index a)
    (grid_items a) (selected a) (code_to_symbol a) (shapeless_var a)
    (output_code_var a) (output_qty_var a) (is_tool_var a) (tool_cost_var a)
    (qty_var a) (wildcard_var a) (symbol_var a) v (variants_summary a)
    (variants_row_shown a) (errors a).
Definition with_variants_summary (v : string) (a : App) : App :=
  mkApp (discovered_items a) (used_survival_path a) (variant_index a)
    (grid_items a) (selected a) (code_to_symbol a) (shapeless_var a)
    (output_code_var a) (output_qty_var a) (is_tool_var a) (tool_cost_var a)
    (qty_var a) (wildcard_var a) (symbol_var a) (slot_code_val a) v
    (variants_row_shown a) (errors a).
Definition with_variants_row (b : bool) (a : App) : App :=
  mkApp (discovered_items a) (used_survival_path a) (variant_index a)
    (grid_items a) (selected a) (code_to_symbol a) (shapeless_var a)
    (output_code_var a) (output_qty_var a) (is_tool_var a) (tool_cost_var a)
    (qty_var a) (wildcard_var a) (symbol_var a) (slot_code_val a)
    (variants_summary a) b (errors a).
Definition showerror (title message : string) (a : App) : App :=
  mkApp (discovered_items a) (used_survival_path a) (variant_index a)
    (grid_items a) (selected a) (code_to_symbol a) (shapeless_var a)
    (output_code_var a) (output_qty_var a) (is_tool_var a) (tool_cost_var a)
    (qty_var a) (wildcard_var a) (symbol_var a) (slot_code_val a)
    (variants_summary a) (variants_row_shown a) (errors a ++ [(title, message)]).

(** [s or d] on a string. *)
Definition str_or (s d : string) : string :=
  match s with
  | EmptyString => d
  | String _ _ => s
  end.

(** [ing.symbol or d] *)
Definition symbol_or (i : Ingredient) (d : string) : string :=
  match symbol i with
  | Some s => str_or s d
  | None => d
  end.

(* ================================================================== *)
(** ** The wildcard normalizer *)

Definition _normalize_wildcard_code (ing : Ingredient) : Ingredient :=
  if negb (Str.truthy (code ing)) || negb (Str.ends_with "*" (code ing)) then ing
  else
    let base := Str.drop_last (code ing) in
    let base := Str.rstrip (Chars.is_char dash) base in
    match allowed_variants ing with
    | _ :: _ => set_code (base +:+ "-*") ing
    | [] => set_code (base +:+ "*") ing
    end.

(** The wildcard branch of [_side_apply] on the ingredient. *)
Definition apply_wildcard (wildcard : bool) (ing : Ingredient) : Ingredient :=
  if Str.truthy (code ing) then
    if wildcard then
      let ing :=
        if negb (Str.ends_with "*" (code ing))
        then set_code (code ing +:+ "*") ing else ing in
      _normalize_wildcard_code ing
    else
      let ing :=
        if Str.ends_with "*" (code ing)
        then set_code (Str.drop_last (code ing)) ing else ing in
      set_allowed_variants [] ing
  else ing.

Definition _update_variants_summary (pos : nat * nat) (options : list string)
    (a : App) : App :=
  match grid_get (grid_items a) pos with
  | None => a
  | Some ing =>
      match allowed_variants ing with
      | [] => with_variants_summary "(none selected)" a
      | _ :: _ =>
          let sel := List.filter (fun v => bool_decide (v ∈ options)) (allowed_variants ing) in
          match sel with
          | [] =>
              let a := with_variants_summary "(none selected)" a in
              let ing := set_allowed_variants [] ing in
              let ing := _normalize_wildcard_code ing in
              let a := with_grid (grid_set (grid_items a) pos (Some ing)) a in
              with_slot_code_val (str_or (code ing) "-") a
          | _ :: _ =>
              if Nat.leb (length sel) 5
              then with_variants_summary (Str.join ", " sel) a
              else with_variants_summary (pretty (length sel) +:+ " selected") a
          end
      end
  end.

(** The key of the variant index for a wildcarded code. *)
Definition variant_key (code : string) : string :=
  let prefix := Str.drop_last code in
  if negb (Str.contains ":" prefix) then
    if negb (Str.ends_with "-" prefix) then "game:" +:+ prefix +:+ "-"
    else "game:" +:+ prefix
  else
    if Str.ends_with "-" prefix then prefix else prefix +:+ "-".

Definition _update_variant_ui (a : App) : App :=
  let a := with_variants_row false a in
  match grid_get (grid_items a) (selected a) with
  | None => a
  | Some ing =>
      if negb (Str.truthy (code ing)) then a
      else if negb (wildcard_var a) || negb (Str.ends_with "*" (code ing)) then a
      else
        let key := variant_key (code ing) in
        let options := sorted (elements (default ∅ (variant_index a !! key))) in
        match options with
        | [] => a
        | _ :: _ =>
            let a := _update_variants_summary (selected a) options a in
            with_variants_row true a
        end
  end.

Section Editing.
Context (h : Host).

(** [max(lo, int(text))], or [d] on [ValueError]. *)
Definition int_at_least (lo d : Z) (text : string) : Z :=
  match int_of h text with
  | Some n => Z.max lo n
  | None => d
  end.

Definition _side_apply (a : App) : App :=
  match grid_get (grid_items a) (selected a) with
  | None => a
  | Some ing =>
      let ing := set_tool_fields (is_tool_var a)
                   (int_at_least 0%Z 0%Z (tool_cost_var a))
                   (int_at_least 1%Z 1%Z (qty_var a)) ing in
      let ing := apply_wildcard (wildcard_var a) ing in
      let a := with_grid (grid_set (grid_items a) (selected a) (Some ing)) a in
      let a := with_slot_code_val (str_or (code ing) "-") a in
      _update_variant_ui a
  end.

(** The [ok] of the variants dialog opened for the ingredient at [pos]
    with [options]; [checked] is the state of its check boxes. *)
Definition variants_dialog_ok (pos : nat * nat) (options : list string)
    (checked : string -> bool) (a : App) : App :=
  match grid_get (grid_items a) pos with
  | None => a
  | Some ing =>
      let ing := set_allowed_variants (List.filter checked options) ing in
      let '(ing, a) :=
        if wildcard_var a then
          let ing :=
            if negb (Str.ends_with "*" (code ing))
            then set_code (code ing +:+ "*") ing else ing in
          let ing := _normalize_wildcard_code ing in
          (ing, with_slot_code_val (str_or (code ing) "-") a)
        else (ing, a) in
      let a := with_grid (grid_set (grid_items a) pos (Some ing)) a in
      _update_variants_summary pos options a
  end.

(** *** Symbol editing *)

(** The first alphabetic character of the entry, in upper case. *)
Fixpoint first_letter (raw : string) : string :=
  match raw with
  | EmptyString => EmptyString
  | String ch raw' => if Chars.is_alpha ch then upper h ch else first_letter raw'
  end.

(** The test of the duplicate loop at cell [p]; [other is ing] is
    [p = pos], the cell of [ing]. *)
Definition collides (g : grid) (pos : nat * nat) (ing : Ingredient)
    (first : string) (p : nat * nat) : bool :=
  match grid_get g p with
  | None => false
  | Some other =>
      if bool_decide (p = pos) then false
      else negb (String.eqb (code other) (code ing))
           && bool_decide (symbol other = Some first)
  end.

Definition _propagate_symbol_for_code (c letter : string) (g : grid) : grid :=
  foldl (fun g p =>
           match grid_get g p with
           | Some x =>
               if String.eqb (code x) c
               then grid_set g p (Some (set_symbol (Some letter) x)) else g
           | None => g
           end)
        g cells.

Definition _apply_symbol_live (a : App) : App :=
  match grid_get (grid_items a) (selected a) with
  | None => with_symbol_var EmptyString a
  | Some ing =>
      let first := first_letter (symbol_var a) in
      if negb (Str.truthy first)
      then with_symbol_var (symbol_or ing EmptyString) a
      else if existsb (collides (grid_items a) (selected a) ing first) cells
      then
        let a := with_symbol_var (symbol_or ing EmptyString) a in
        showerror "Duplicate symbol"
          ("Symbol '" +:+ first +:+ "' is already used by another ingredient.") a
      else
        let ing := set_symbol (Some first) ing in
        let a := with_grid (grid_set (grid_items a) (selected a) (Some ing)) a in
        let a :=
          if Str.truthy (code ing) then
            let a := with_code_to_symbol (<[ code ing := first ]> (code_to_symbol a)) a in
            with_grid (_propagate_symbol_for_code (code ing) first (grid_items a)) a
          else a in
        if bool_decide (symbol_var a = first) then a else with_symbol_var first a
  end.

End Editing.

(* ================================================================== *)
(** ** Symbol assignment for new items *)

(** The ingredients of the grid that have a symbol, with it. *)
Definition symbols_in_grid (g : grid) : list (string * string) :=
  omap (fun x : option Ingredient =>
          match x with
          | Some i =>
              match symbol i with
              | Some (String c s) => Some (code i, String c s)
              | _ => None
              end
          | None => None
          end)
       (concat g).

(** [chr(ord('A') + i)] *)
Definition letter (i : nat) : string :=
  String (ascii_of_nat (65 + i)) EmptyString.

Definition _symbol_for_code (c : string) (a : App) : string * App :=
  let used_letters : gset string := list_to_set ((symbols_in_grid (grid_items a)).*2) in
  let letters_by_code : gmap string (gset string) :=
    foldl (fun m '(k, v) => <[ k := {[ v ]} ∪ default ∅ (m !! k) ]> m) ∅
          (symbols_in_grid (grid_items a)) in
  let known :=
    match code_to_symbol a !! c with
    | Some l =>
        if bool_decide (l ∈ used_letters)
           && (bool_decide (letters_by_code !! c = None)
               || bool_decide (l ∉ default ∅ (letters_by_code !! c)))
        then None else Some l
    | None => None
    end in
  match known with
  | Some l => (l, a)
  | None =>
      match List.find (fun cand => bool_decide (cand ∉ used_letters))
                      (List.map letter (seq 0 26)) with
      | Some cand => (cand, with_code_to_symbol (<[ c := cand ]> (code_to_symbol a)) a)
      | None => ("X", with_code_to_symbol (<[ c := "X" ]> (code_to_symbol a)) a)
      end
  end.

(** [ing.symbol or self._symbol_for_code(ing.code)] *)
Definition symbol_of (i : Ingredient) (a : App) : string * App :=
  match symbol i with
  | Some (String c s) => (String c s, a)
  | _ => _symbol_for_code (code i) a
  end.

(* ================================================================== *)
(** ** JSON5 generation *)

Definition dq : string := String dquote EmptyString.
Definition tab : string := String (ascii_of_N 9%N) EmptyString.
Definition newline : string := String (ascii_of_N 10%N) EmptyString.

Definition _build_ingredient_pattern (a : App) : string * App :=
  let '(rows, a) :=
    foldl (fun '(rows, a) r =>
             let '(row, a) :=
               foldl (fun '(row, a) c =>
                        match grid_get (grid_items a) (r, c) with
                        | Some ing =>
                            if Str.truthy (code ing)
                            then let '(sym, a) := symbol_of ing a in (row ++ [sym], a)
                            else (row ++ ["_"], a)
                        | None => (row ++ ["_"], a)
                        end)
                     ([], a) (seq 0 GRID_SIZE) in
             (rows ++ [Str.join EmptyString row], a))
          ([], a) (seq 0 GRID_SIZE) in
  (Str.join "," rows, a).

Definition _collect_ingredients_dict (a : App) : gmap string Ingredient * App :=
  foldl (fun '(ing_map, a) p =>
           match grid_get (grid_items a) p with
           | Some ing =>
               if Str.truthy (code ing) then
                 let '(sym, a) := symbol_of ing a in
                 match ing_map !! sym with
                 | None => (<[ sym := ing ]> ing_map, a)
                 | Some _ => (ing_map, a)
                 end
               else (ing_map, a)
           | None => (ing_map, a)
           end)
        (∅, a) cells.

(** One line of the [ingredients] object.  Only the first piece of the
    line is an f-string: its [{{] is one brace, and the plain string that
    ends the line, [ }},], is appended as it is written, both braces. *)
Definition ingredient_line (sym : string) (ing : Ingredient) : string :=
  let inner := ["type: " +:+ dq +:+ "item" +:+ dq;
                "code: " +:+ dq +:+ code ing +:+ dq] in
  let inner :=
    if Str.truthy (name ing)
    then inner ++ ["name: " +:+ dq +:+ name ing +:+ dq] else inner in
  let inner :=
    match allowed_variants ing with
    | _ :: _ =>
        let av := Str.join ", " (List.map (fun v => dq +:+ v +:+ dq) (allowed_variants ing)) in
        inner ++ ["allowedVariants: [ " +:+ av +:+ " ]"]
    | [] => inner
    end in
  let inner :=
    if is_tool ing then
      let inner := inner ++ ["isTool: true"] in
      if Z.ltb 0 (tool_cost ing)
      then inner ++ ["toolDurabilityCost: " +:+ pretty (tool_cost ing)] else inner
    else inner in
  let inner :=
    if negb (Z.eqb (quantity ing) 0) && negb (Z.eqb (quantity ing) 1)
    then inner ++ ["quantity: " +:+ pretty (quantity ing)] else inner in
  tab +:+ tab +:+ tab +:+ dq +:+ sym +:+ dq +:+ ": { " +:+ Str.join ", " inner +:+ " }},".

(** [if lines[-1].endswith(','): lines[-1] = lines[-1][:-1]] *)
Fixpoint drop_last_comma (lines : list string) : list string :=
  match lines with
  | [] => []
  | [l] => if Str.ends_with "," l then [Str.drop_last l] else [l]
  | l :: lines' => l :: drop_last_comma lines'
  end.

Section Json5.
Context (h : Host).

Definition build_json5_text (a : App) : string * App :=
  let '(ing_pattern, a) := _build_ingredient_pattern a in
  let '(ing_map, a) := _collect_ingredients_dict a in
  let lines :=
    [ "[";
      tab +:+ "{";
      tab +:+ tab +:+ "ingredientPattern: " +:+ dq +:+ ing_pattern +:+ dq +:+ ",";
      tab +:+ tab +:+ "shapeless: " +:+ (if shapeless_var a then "true" else "false") +:+ ",";
      tab +:+ tab +:+ "ingredients: {" ] in
  let lines :=
    foldl (fun lines sym =>
             match ing_map !! sym with
             | Some ing => lines ++ [ingredient_line sym ing]
             | None => lines
             end)
          lines (sorted (elements (dom ing_map))) in
  let lines := drop_last_comma lines in
  let lines := lines ++
    [ tab +:+ tab +:+ "},";
      tab +:+ tab +:+ "width: " +:+ pretty GRID_SIZE +:+ ",";
      tab +:+ tab +:+ "height: " +:+ pretty GRID_SIZE +:+ "," ] in
  let out_code := str_or (Str.strip (output_code_var a)) "game:__set_output__" in
  let out_inner := ["type: " +:+ dq +:+ "item" +:+ dq;
                    "code: " +:+ dq +:+ out_code +:+ dq] in
  let q := int_at_least h 1%Z 1%Z (output_qty_var a) in
  let out_inner :=
    if negb (Z.eqb q 1) then out_inner ++ ["quantity: " +:+ pretty q] else out_inner in
  let lines := lines ++
    [ tab +:+ tab +:+ "output: { " +:+ Str.join ", " out_inner +:+ " }";
      tab +:+ "},";
      "]" ] in
  (Str.join newline lines, a).

(** [RecipeBuilderApp.__init__]: discovery, corpus, empty grid. *)
Definition init_app : App :=
  let '(items, path) := discover_game_codes h (Some "VINTAGE_STORY") None in
  let index :=
    match path with
    | Some (String c p) => _collect_corpus_variants h (String c p)
    | _ => ∅
    end in
  mkApp items path index empty_grid (0, 0) ∅ false EmptyString "1"
        false "0" "1" false EmptyString "-" EmptyString false [].

End Json5.

(* ================================================================== *)
(** ** The user at the side panel *)

(** What the user does to the selected slot: set the check box
    [Allow variants] (its command is [_side_apply]), or confirm the
    variants dialog with some boxes checked. *)
Inductive op :=
| Toggle (b : bool)
| ChooseVariants (options : list string) (checked : string -> bool).

Definition step (h : Host) (a : App) (o : op) : App :=
  match o with
  | Toggle b => _side_apply h (with_wildcard_var b a)
  | ChooseVariants options checked =>
      variants_dialog_ok (selected a) options checked a
  end.

(* ================================================================== *)
(** ** Notions of the statements *)

(** A string between double quotes, and the text [code: "foo"]. *)
Definition quoted (s : string) : string := dq +:+ s +:+ dq.
Definition code_foo : string := "code: " +:+ quoted "foo".

(** *** Wildcarded codes *)

Definition strip_star (s : string) : string :=
  if Str.ends_with "*" s then Str.drop_last s else s.

(** What normalization keeps of a code: no trailing star, no trailing dash. *)
Definition stripped_base (s : string) : string :=
  Str.rstrip (Chars.is_char dash) (strip_star s).

Definition suffix_for (scoped : bool) : string := if scoped then "-*" else "*".

(** The ingredient has variants pinned. *)
Definition scoped (ing : Ingredient) : bool :=
  match allowed_variants ing with
  | [] => false
  | _ :: _ => true
  end.

Definition clean (s : string) : Prop :=
  Str.contains "--" s = false /\ Str.contains "**" s = false.

(** The invariant of the code of an ingredient under editing. *)
Definition tidy (s : string) : Prop :=
  clean s /\ Str.ends_with "*" (stripped_base s) = false.

Definition tidy_at (pos : nat * nat) (a : App) : Prop :=
  forall ing, grid_get (grid_items a) pos = Some ing -> tidy (code ing).

(** *** Runs and rewriting *)

(** The length of the leading run of a class, and the character before
    the position reached after it. *)
Fixpoint run_length (p : ascii -> bool) (s : string) : nat :=
  match s with
  | String c s' => if p c then S (run_length p s') else 0
  | EmptyString => 0
  end.

Fixpoint run_prev (p : ascii -> bool) (prev : option ascii) (s : string)
    : option ascii :=
  match s with
  | String c s' => if p c then run_prev p (Some c) s' else prev
  | EmptyString => prev
  end.

(** [re.sub] once the pattern is known by what follows its match at the
    start of a string ([hit]). *)
Fixpoint rewrite_from (hit : string -> option string) (repl : string)
    (fuel : nat) (s : string) : string :=
  match fuel with
  | O => s
  | S fuel' =>
      match hit s with
      | Some rest => repl +:+ rewrite_from hit repl fuel' rest
      | None =>
          match s with
          | String c s' => String c (rewrite_from hit repl fuel' s')
          | EmptyString => EmptyString
          end
      end
  end.

(** No hit at any position of the string. *)
Fixpoint quiet (hit : string -> option string) (s : string) : bool :=
  match hit s with
  | Some _ => false
  | None =>
      match s with
      | String _ s' => quiet hit s'
      | EmptyString => true
      end
  end.

Definition is_star : ascii -> bool := Chars.is_char star.
Definition not_rbrace : ascii -> bool := Chars.not_char rbrace.

(** What follows a run of two or more stars at the start of [s]. *)
Definition star_hit (s : string) : option string :=
  if Nat.leb 2 (run_length is_star s) then Some (Str.lstrip is_star s) else None.

(** What follows a placeholder at the start of [s]. *)
Definition ph_hit (s : string) : option string :=
  match s with
  | String c s' =>
      if Ascii.eqb lbrace c then
        if Nat.leb 1 (run_length not_rbrace s') then
          match Str.lstrip not_rbrace s' with
          | String c' r => if Ascii.eqb rbrace c' then Some r else None
          | EmptyString => None
          end
        else None
      else None
  | EmptyString => None
  end.

(** The two substitutions of [_norm_pattern]. *)
Definition fill (s : string) : string :=
  rewrite_from ph_hit "*" (S (String.length s)) s.
Definition collapse (s : string) : string :=
  rewrite_from star_hit "*" (S (String.length s)) s.

(** The last character of [s], or [prev] when [s] is empty. *)
Definition last_or (prev : option ascii) (s : string) : option ascii :=
  match Str.last s with
  | Some c => Some c
  | None => prev
  end.

Definition starless (x : string) : Prop := Str.contains "**" x = false.

(** *** Occurrences of the corpus rules *)

(** A triple of the corpus rules in a text: by the domain-qualified
    pattern, the domain lowered, or by the bare pattern, in domain [game]. *)
Definition occurs_in_text (txt d b t : string) : Prop :=
  (exists m g, In m (Re.finditer rex_dom txt)
     /\ Re.group (Re.m_groups m) 1 = Some g /\ Re.group (Re.m_groups m) 2 = Some b
     /\ Re.group (Re.m_groups m) 3 = Some t /\ d = Str.lower g)
  \/ (exists m, In m (Re.finditer rex_nodom txt)
     /\ Re.group (Re.m_groups m) 1 = Some b /\ Re.group (Re.m_groups m) 2 = Some t
     /\ d = "game").

(** The same in a definition file under the asset root that can be read. *)
Definition occurs (h : Host) (survival d b t : string) : Prop :=
  exists full txt, In full (definition_files h survival)
    /\ read_text h full = Some txt /\ occurs_in_text txt d b t.

(** A definition file that can be read holds the literal [word], and what
    follows it is the end of the text or no character of a word. *)
Definition file_has_word (h : Host) (survival word : string) : Prop :=
  exists full pre post, In full (definition_files h survival)
    /\ read_text h full = Some (pre +:+ word +:+ post)
    /\ Re.word_at (Str.head post) = false.

(** A word of the class [[a-z0-9_]] under [re.I], not empty. *)
Definition ident_ic : ascii -> bool := Chars.icase Chars.is_ident.

Definition ident_word (x : string) : Prop :=
  Str.all ident_ic x = true /\ Str.truthy x = true.

Definition ident_or_dash (c : ascii) : bool := ident_ic c || Ascii.eqb dash c.

Definition no_colon : ascii -> bool := Chars.not_char colon.

Definition make_key (d b : string) : string := d +:+ ":" +:+ b +:+ "-".

Definition good_key (key : string) : Prop :=
  exists d b, key = make_key d b
    /\ Str.all Chars.is_ident d = true /\ Str.truthy d = true
    /\ ident_word b
    /\ Str.ends_with "-" key = true /\ Str.ends_with "--" key = false.

Definition good_entry (key : string) (tokens : gset string) : Prop :=
  good_key key /\ tokens <> ∅ /\ forall t, t ∈ tokens -> Str.truthy t = true.

Definition good (v : gmap string (gset string)) : Prop := map_Forall good_entry v.

Definition tokens_at (v : gmap string (gset string)) (key : string) : gset string :=
  default ∅ (v !! key).

(** The arguments of [add] a match leads to, if any. *)
Definition entry := option (string * string * string).

Definition add_entry (v : gmap string (gset string)) (e : entry) :=
  match e with
  | Some (d, b, t) => add v d b t
  | None => v
  end.

Definition dom_entry (m : Re.rmatch) : entry :=
  match Re.group (Re.m_groups m) 1, Re.group (Re.m_groups m) 2,
        Re.group (Re.m_groups m) 3 with
  | Some g, Some b, Some t => Some (Str.lower g, b, t)
  | _, _, _ => None
  end.

Definition nodom_entry (m : Re.rmatch) : entry :=
  match Re.group (Re.m_groups m) 1, Re.group (Re.m_groups m) 2 with
  | Some b, Some t =>
      if Str.contains "*" b || Str.contains "*" t then None else Some ("game", b, t)
  | _, _ => None
  end.

(* ================================================================== *)
(** ** A host and states to run the program on *)

Module Sample.

(** [str.upper] on the letters a to z. *)
Definition upper_az (c : ascii) : string :=
  String (if Chars.is_lower_az c then ascii_of_N (Chars.code c - 32) else c)
         EmptyString.

(** [int] on a string of decimal digits. *)
Fixpoint digits (acc : Z) (s : string) : option Z :=
  match s with
  | EmptyString => Some acc
  | String c s' =>
      if Chars.is_digit c
      then digits (10 * acc + Z.of_N (Chars.code c - 48)) s'
      else None
  end.

Definition int_of_digits (s : string) : option Z :=
  match s with
  | EmptyString => None
  | String _ _ => digits 0 s
  end.

(** The directory of a path: what precedes its last slash. *)
Fixpoint dirname (s : string) : string :=
  match s with
  | EmptyString => EmptyString
  | String c s' =>
      if Str.contains "/" s' then String c (dirname s')
      else if Ascii.eqb c "/" then "/" else EmptyString
  end.

(** [posixpath.join] of two parts. *)
Definition join (a b : string) : string :=
  if Str.starts_with "/" b then b
  else if negb (Str.truthy a) || Str.ends_with "/" a then a +:+ b
  else a +:+ "/" +:+ b.

(** The text of the one definition file of the sample tree. *)
Definition ingot_text : string :=
  "{ code: " +:+ quoted "ingot" +:+ ", variants: [ "
  +:+ quoted "game:ingot-copper" +:+ ", " +:+ quoted "game:ingot-iron" +:+ " ] }".

(** A game installed under [/vs], which is also laid out like an asset
    root itself; the environment variable points to it. *)
Definition host_with (text : string) : Host := {|
  os_path_abspath := fun p => p;
  os_path_expanduser := fun p => p;
  os_path_expandvars := fun p => p;
  os_path_isabs := Str.starts_with "/";
  os_path_join := join;
  os_path_dirname := dirname;
  os_path_isdir := fun p =>
    bool_decide (p ∈ ["/vs/assets/survival"; "/vs/assets/survival/itemtypes";
                      "/vs"; "/vs/itemtypes"]);
  os_walk := fun root =>
    if String.eqb root "/vs/assets/survival/itemtypes"
    then [(root, [], ["ingot.json"; "notes.txt"])] else [];
  read_text := fun p =>
    if String.eqb p "/vs/assets/survival/itemtypes/ingot.json"
    then Some text else None;
  os_environ_get := fun k =>
    if String.eqb k "VINTAGE_STORY" then Some "/vs" else None;
  repr := fun s => "'" +:+ s +:+ "'";
  int_of := int_of_digits;
  upper := upper_az
|}.

Definition host : Host := host_with ingot_text.


(** The application once started, with ingredients put in its grid. *)
Definition app_with (g : grid) (sel : nat * nat) (entry : string) : App :=
  mkApp [] None ∅ g sel ∅ false EmptyString "1" false "0" "1" false entry "-"
        EmptyString false [].

Definition ingredient (c : string) (sym : option string) : Ingredient :=
  mkIngredient c 1%Z false 0%Z sym EmptyString [].

(** Slot A holds [game:plank] with symbol A, slot B [game:log] with B; slot
    B is selected and the user types the letter a. *)
Definition plank_and_log : App :=
  app_with [[Some (ingredient "game:plank" (Some "A"));
             Some (ingredient "game:log" (Some "B")); None];
            [None; None; None]; [None; None; None]]
           (0, 1) "a".

(** One slot, selected, with the given code. *)
Definition one_slot (c : string) : App :=
  app_with [[Some (ingredient c (Some "A")); None; None];
            [None; None; None]; [None; None; None]]
           (0, 0) "A".

(** The letter e with an acute accent, a word character. *)
Definition e_acute : ascii := ascii_of_N 233%N.

Definition accent_text : string :=
  "game:ingot-copper" +:+ String e_acute " game:ingot-iron".

End Sample.

(* ================================================================== *)
(** ** The autocomplete widgets *)

(** [AutocompleteList]: the items it was made with, the lines of its list
    box, and the selected line if there is one (the program selects one
    line at a time). *)
Record AutocompleteList := mkAutocompleteList {
  items_all : list string;
  listbox : list string;
  curselection : option nat
}.

(** [update_list]: the list box is emptied, which also takes the
    selection away, and filled with the items that hold the text typed,
    both lowered; the first line is selected when there is one. *)
Definition update_list (typed : string) (l : AutocompleteList) : AutocompleteList :=
  let typed := Str.lower typed in
  let shown := List.filter (fun it => Str.contains typed (Str.lower it)) (items_all l) in
  mkAutocompleteList (items_all l) shown
    (match shown with [] => None | _ :: _ => Some 0 end).

(** [AutocompleteList.__init__]: [items_all = sorted(set(items))], then
    [update_list] on the empty text. *)
Definition new_list (items : list string) : AutocompleteList :=
  update_list EmptyString
    (mkAutocompleteList (merge_sort String.le (elements (list_to_set items : gset string)))
       [] None).

(** [move_selection]: [idx = max(0, min(size - 1, idx + delta))]. *)
Definition move_selection (delta : Z) (l : AutocompleteList) : AutocompleteList :=
  match listbox l with
  | [] => l
  | _ :: _ =>
      let idx := match curselection l with Some i => Z.of_nat i | None => 0%Z end in
      let idx := Z.max 0 (Z.min (Z.of_nat (length (listbox l)) - 1) (idx + delta)) in
      mkAutocompleteList (items_all l) (listbox l) (Some (Z.to_nat idx))
  end.

(** [_commit]: the value handed to [on_select], if a line is selected;
    the list is destroyed then.  [Listbox.get] past the last line gives
    the empty string. *)
Definition _commit (l : AutocompleteList) : option string :=
  match curselection l with
  | Some i => Some (default EmptyString (listbox l !! i))
  | None => None
  end.

(** [AutocompleteEntry]: its text and its popup; a popup that was
    destroyed counts as none, as every use tests [winfo_exists]. *)
Record AutocompleteEntry := mkAutocompleteEntry {
  entry_text : string;
  popup : option AutocompleteList
}.

Definition _close_popup (e : AutocompleteEntry) : AutocompleteEntry :=
  mkAutocompleteEntry (entry_text e) None.

(** [items] is what [self.items_provider()] returns at this call. *)
Definition _open_or_update (items : list string) (query : string)
    (e : AutocompleteEntry) : AutocompleteEntry :=
  match items with
  | [] => _close_popup e
  | _ :: _ =>
      let p := match popup e with Some p => p | None => new_list items end in
      mkAutocompleteEntry (entry_text e) (Some (update_list query p))
  end.

Definition _on_key_release (keysym : string) (items : list string)
    (e : AutocompleteEntry) : AutocompleteEntry :=
  if bool_decide (keysym ∈ ["Up"; "Down"; "Return"; "Escape"]) then e
  else _open_or_update items (entry_text e) e.

Definition _on_down (items : list string) (e : AutocompleteEntry) : AutocompleteEntry :=
  match popup e with
  | Some p => mkAutocompleteEntry (entry_text e) (Some (move_selection 1 p))
  | None => _open_or_update items (entry_text e) e
  end.

Definition _on_up (items : list string) (e : AutocompleteEntry) : AutocompleteEntry :=
  match popup e with
  | Some p => mkAutocompleteEntry (entry_text e) (Some (move_selection (-1) p))
  | None => _open_or_update items (entry_text e) e
  end.

(** [_set_value]: the text is replaced and the popup closed. *)
Definition _set_value (value : string) (e : AutocompleteEntry) : AutocompleteEntry :=
  _close_popup (mkAutocompleteEntry value (popup e)).

Definition _on_return (e : AutocompleteEntry) : AutocompleteEntry :=
  match popup e with
  | Some p =>
      match listbox p with
      | [] => e
      | _ :: _ =>
          match _commit p with
          | Some value => _set_value value e
          | None => e
          end
      end
  | None => e
  end.

(* ================================================================== *)
(** ** The window: menus, dialogs and the grid handlers *)

(** [re.split] for a pattern without groups: the pieces of the text
    between its matches; [piece] is what was read since the last match.
    An empty match splits where it is and the scan moves on by one
    character.  Fuel as for [finditer]. *)
Fixpoint split_from (fuel : nat) (r : regex) (prev : option ascii)
    (s : string) (piece : string) : list string :=
  match fuel with
  | O => [piece +:+ s]
  | S fuel' =>
      match match_at r prev s with
      | Some m =>
          if Nat.ltb (String.length (m_rest m)) (String.length s)
          then piece :: split_from fuel' r (m_prev m) (m_rest m) EmptyString
          else
            match s with
            | String c s' =>
                piece :: split_from fuel' r (Some c) s' (String c EmptyString)
            | EmptyString => [piece; EmptyString]
            end
      | None =>
          match s with
          | String c s' =>
              split_from fuel' r (Some c) s' (piece +:+ String c EmptyString)
          | EmptyString => [piece]
          end
      end
  end.

Definition re_split (r : regex) (s : string) : list string :=
  split_from (S (String.length s)) r None s EmptyString.

(** [[,\s]+] *)
Definition is_separator (c : ascii) : bool :=
  Chars.is_char ","%char c || Chars.is_space c.

Definition re_separators : regex := Rep is_separator 1 true.

(** [[p.strip() for p in re.split(r"[,\s]+", txt) if p.strip()]] *)
Definition custom_parts (txt : string) : list string :=
  List.map Str.strip
    (List.filter (fun p => Str.truthy (Str.strip p)) (re_split re_separators txt)).

(** The state of [RecipeBuilderApp] beside that of the engine: what the
    menus and dialogs read or write.  The canvas of the cells is left
    out here too: [_refresh_cell] only draws. *)
Record Window := mkWindow {
  engine : App;
  env_key : string;
  direct_root : option string;
  custom_items : list string;
  items_cache : option (list string);
  slot_name_var : string;
  tool_row_shown : bool;
  slot_pos_lbl : string;
  discovery_status : string;
  discovery_menu_label : string;
  (** the calls of [messagebox.showinfo]: title and message *)
  infos : list (string * string);
  clipboard : string
}.

Definition with_engine (a : App) (w : Window) : Window :=
  mkWindow a (env_key w) (direct_root w) (custom_items w) (items_cache w)
    (slot_name_var w) (tool_row_shown w) (slot_pos_lbl w) (discovery_status w)
    (discovery_menu_label w) (infos w) (clipboard w).
Definition with_env_key (v : string) (w : Window) : Window :=
  mkWindow (engine w) v (direct_root w) (custom_items w) (items_cache w)
    (slot_name_var w) (tool_row_shown w) (slot_pos_lbl w) (discovery_status w)
    (discovery_menu_label w) (infos w) (clipboard w).
Definition with_direct_root (v : option string) (w : Window) : Window :=
  mkWindow (engine w) (env_key w) v (custom_items w) (items_cache w)
    (slot_name_var w) (tool_row_shown w) (slot_pos_lbl w) (discovery_status w)
    (discovery_menu_label w) (infos w) (clipboard w).
Definition with_custom_items (v : list string) (w : Window) : Window :=
  mkWindow (engine w) (env_key w) (direct_root w) v (items_cache w)
    (slot_name_var w) (tool_row_shown w) (slot_pos_lbl w) (discovery_status w)
    (discovery_menu_label w) (infos w) (clipboard w).
Definition with_items_cache (v : option (list string)) (w : Window) : Window :=
  mkWindow (engine w) (env_key w) (direct_root w) (custom_items w) v
    (slot_name_var w) (tool_row_shown w) (slot_pos_lbl w) (discovery_status w)
    (discovery_menu_label w) (infos w) (clipboard w).
Definition with_slot_name_var (v : string) (w : Window) : Window :=
  mkWindow (engine w) (env_key w) (direct_root w) (custom_items w) (items_cache w)
    v (tool_row_shown w) (slot_pos_lbl w) (discovery_status w)
    (discovery_menu_label w) (infos w) (clipboard w).
Definition with_tool_row (v : bool) (w : Window) : Window :=
  mkWindow (engine w) (env_key w) (direct_root w) (custom_items w) (items_cache w)
    (slot_name_var w) v (slot_pos_lbl w) (discovery_status w)
    (discovery_menu_label w) (infos w) (clipboard w).
Definition with_slot_pos_lbl (v : string) (w : Window) : Window :=
  mkWindow (engine w) (env_key w) (direct_root w) (custom_items w) (items_cache w)
    (slot_name_var w) (tool_row_shown w) v (discovery_status w)
    (discovery_menu_label w) (infos w) (clipboard w).
Definition with_discovery_status (v : string) (w : Window) : Window :=
  mkWindow (engine w) (env_key w) (direct_root w) (custom_items w) (items_cache w)
    (slot_name_var w) (tool_row_shown w) (slot_pos_lbl w) v
    (discovery_menu_label w) (infos w) (clipboard w).
Definition with_discovery_menu_label (v : string) (w : Window) : Window :=
  mkWindow (engine w) (env_key w) (direct_root w) (custom_items w) (items_cache w)
    (slot_name_var w) (tool_row_shown w) (slot_pos_lbl w) (discovery_status w)
    v (infos w) (clipboard w).
Definition showinfo (title message : string) (w : Window) : Window :=
  mkWindow (engine w) (env_key w) (direct_root w) (custom_items w) (items_cache w)
    (slot_name_var w) (tool_row_shown w) (slot_pos_lbl w) (discovery_status w)
    (discovery_menu_label w) (infos w ++ [(title, message)]) (clipboard w).
Definition with_clipboard (v : string) (w : Window) : Window :=
  mkWindow (engine w) (env_key w) (direct_root w) (custom_items w) (items_cache w)
    (slot_name_var w) (tool_row_shown w) (slot_pos_lbl w) (discovery_status w)
    (discovery_menu_label w) (infos w) v.

(** The fields of the engine the handlers below write. *)
Definition with_discovery (items : list string) (path : option string) (a : App) : App :=
  mkApp items path (variant_index a) (grid_items a) (selected a)
    (code_to_symbol a) (shapeless_var a) (output_code_var a) (output_qty_var a)
    (is_tool_var a) (tool_cost_var a) (qty_var a) (wildcard_var a) (symbol_var a)
    (slot_code_val a) (variants_summary a) (variants_row_shown a) (errors a).
Definition with_variant_index (v : gmap string (gset string)) (a : App) : App :=
  mkApp (discovered_items a) (used_survival_path a) v (grid_items a) (selected a)
    (code_to_symbol a) (shapeless_var a) (output_code_var a) (output_qty_var a)
    (is_tool_var a) (tool_cost_var a) (qty_var a) (wildcard_var a) (symbol_var a)
    (slot_code_val a) (variants_summary a) (variants_row_shown a) (errors a).
Definition with_selected (pos : nat * nat) (a : App) : App :=
  mkApp (discovered_items a) (used_survival_path a) (variant_index a)
    (grid_items a) pos (code_to_symbol a) (shapeless_var a) (output_code_var a)
    (output_qty_var a) (is_tool_var a) (tool_cost_var a) (qty_var a)
    (wildcard_var a) (symbol_var a) (slot_code_val a) (variants_summary a)
    (variants_row_shown a) (errors a).
Definition with_output (shapeless : bool) (out_code out_qty : string) (a : App) : App :=
  mkApp (discovered_items a) (used_survival_path a) (variant_index a)
    (grid_items a) (selected a) (code_to_symbol a) shapeless out_code out_qty
    (is_tool_var a) (tool_cost_var a) (qty_var a) (wildcard_var a) (symbol_var a)
    (slot_code_val a) (variants_summary a) (variants_row_shown a) (errors a).
Definition with_tool_vars (t : bool) (cost qty : string) (a : App) : App :=
  mkApp (discovered_items a) (used_survival_path a) (variant_index a)
    (grid_items a) (selected a) (code_to_symbol a) (shapeless_var a)
    (output_code_var a) (output_qty_var a) t cost qty (wildcard_var a)
    (symbol_var a) (slot_code_val a) (variants_summary a) (variants_row_shown a)
    (errors a).

Definition set_is_tool (v : bool) (i : Ingredient) : Ingredient :=
  mkIngredient (code i) (quantity i) v (tool_cost i) (symbol i) (name i)
    (allowed_variants i).
Definition set_name (v : string) (i : Ingredient) : Ingredient :=
  mkIngredient (code i) (quantity i) (is_tool i) (tool_cost i) (symbol i) v
    (allowed_variants i).

(** Truthiness of [str | None]. *)
Definition path_or (p : option string) (d : string) : string :=
  match p with
  | Some s => str_or s d
  | None => d
  end.

(** *** The items pool *)

Definition _get_items (w : Window) : list string * Window :=
  match items_cache w with
  | None =>
      let pool := discovered_items (engine w) ++ custom_items w in
      let cache := merge_sort String.le (elements (list_to_set pool : gset string)) in
      (cache, with_items_cache (Some cache) w)
  | Some cache => (cache, w)
  end.

(** [txt] is what the dialog returns: [None] when it is cancelled. *)
Definition add_custom_items (txt : option string) (w : Window) : Window :=
  match txt with
  | Some (String c t) =>
      let parts := custom_parts (String c t) in
      match parts with
      | [] => w
      | _ :: _ =>
          let w := with_custom_items (custom_items w ++ parts) w in
          let w := with_items_cache None w in
          showinfo "Items added"
            ("Added " +:+ pretty (length parts) +:+ " item(s) to autocomplete.") w
      end
  | _ => w
  end.

(** *** Side panel and grid *)

(** The multiplication sign of the slot label. *)
Definition times_sign : string := String (ascii_of_N 215%N) EmptyString.

Definition _update_side_for_selected (w : Window) : Window :=
  let a := engine w in
  match grid_get (grid_items a) (selected a) with
  | None =>
      let a := with_slot_code_val "-" a in
      let a := with_tool_vars false "0" "1" a in
      let a := with_wildcard_var false a in
      let a := with_symbol_var EmptyString a in
      let w := with_slot_name_var EmptyString (with_engine a w) in
      let w := with_engine (with_variants_row false (engine w)) w in
      with_tool_row false w
  | Some ing =>
      let a := with_slot_code_val (str_or (code ing) "-") a in
      let a := with_tool_vars (is_tool ing) (pretty (tool_cost ing))
                 (pretty (if Z.eqb (quantity ing) 0 then 1%Z else quantity ing)) a in
      let a := with_wildcard_var
                 (if Str.truthy (code ing) then Str.ends_with "*" (code ing) else false) a in
      let a := with_symbol_var (symbol_or ing EmptyString) a in
      let w := with_slot_name_var (name ing) (with_engine a w) in
      let w := with_tool_row (is_tool ing) w in
      with_engine (_update_variant_ui (engine w)) w
  end.

Definition _select_cell (pos : nat * nat) (w : Window) : Window :=
  let w := with_engine (with_selected pos (engine w)) w in
  let w := _update_side_for_selected w in
  with_slot_pos_lbl ("Selected slot: " +:+ pretty (pos.2 + 1) +:+ times_sign
                     +:+ pretty (pos.1 + 1)) w.

Definition _delete_selected (w : Window) : Window :=
  let a := engine w in
  let a := with_grid (grid_set (grid_items a) (selected a) None) a in
  _update_side_for_selected (with_engine a w).

(** [ing = self.grid_items[r][c] or Ingredient()]: the ingredient of the
    cell, whose code changes at once in the grid, or a new one, not in the
    grid until it is stored. *)
Definition _set_cell_item (pos : nat * nat) (c : string) (w : Window) : Window :=
  let a := engine w in
  let '(ing, a) :=
    match grid_get (grid_items a) pos with
    | Some ing =>
        let ing := set_code c ing in
        (ing, with_grid (grid_set (grid_items a) pos (Some ing)) a)
    | None => (set_code c new_ingredient, a)
    end in
  let '(ing, a) :=
    match symbol ing with
    | None => let '(sym, a) := _symbol_for_code c a in (set_symbol (Some sym) ing, a)
    | Some _ => (ing, a)
    end in
  let a := with_grid (grid_set (grid_items a) pos (Some ing)) a in
  _update_side_for_selected (with_engine a w).

(** The [ok] of the popup opened on the cell [pos]; [text] is its entry. *)
Definition cell_popup_ok (pos : nat * nat) (text : string) (w : Window) : Window :=
  let c := Str.strip text in
  if Str.truthy c then _set_cell_item pos c w else w.

Definition _on_is_tool_toggle (w : Window) : Window :=
  let a := engine w in
  match grid_get (grid_items a) (selected a) with
  | None => w
  | Some ing =>
      let ing := set_is_tool (is_tool_var a) ing in
      let a := with_grid (grid_set (grid_items a) (selected a) (Some ing)) a in
      with_tool_row (is_tool ing) (with_engine a w)
  end.

Definition _apply_slot_name (w : Window) : Window :=
  let a := engine w in
  match grid_get (grid_items a) (selected a) with
  | None => with_slot_name_var EmptyString w
  | Some ing =>
      let ing := set_name (Str.strip (slot_name_var w)) ing in
      with_engine (with_grid (grid_set (grid_items a) (selected a) (Some ing)) a) w
  end.

(** [yes] is the answer to [messagebox.askyesno]. *)
Definition reset_all (yes : bool) (w : Window) : Window :=
  if negb yes then w
  else
    let a := engine w in
    let a := with_grid empty_grid a in
    let a := with_code_to_symbol ∅ a in
    let a := with_output false EmptyString "1" a in
    _select_cell (0, 0) (with_engine a w).

Section Menus.
Context (h : Host).

(** *** Discovery menu *)

Definition _update_discovery_menu_label (w : Window) : Window :=
  with_discovery_menu_label
    (if Str.truthy (path_or (used_survival_path (engine w)) EmptyString)
     then "Discovery" else "Discovery (!!!)") w.

Definition _update_discovery_status (w : Window) : Window :=
  with_discovery_status
    ("Discovery: " +:+ path_or (used_survival_path (engine w)) "not found") w.

Definition _build_variant_index (w : Window) : Window :=
  let a := with_variant_index ∅ (engine w) in
  match used_survival_path a with
  | Some (String c p) =>
      with_engine (with_variant_index (_collect_corpus_variants h (String c p)) a) w
  | _ => with_engine a w
  end.

(** The dash of the message is kept as UTF-8 bytes. *)
Definition _refresh_discovery (w : Window) : Window :=
  let '(items, path) := discover_game_codes h (Some (env_key w)) (direct_root w) in
  let w := with_engine (with_discovery items path (engine w)) w in
  let w := _build_variant_index w in
  let w := with_items_cache None w in
  let w := _update_discovery_status w in
  let w := _update_discovery_menu_label w in
  showinfo "Discovery updated"
    ("Found " +:+ pretty (length (discovered_items (engine w))) +:+ " codes."
     +:+ newline +:+ "Source: "
     +:+ path_or (used_survival_path (engine w)) "— (none)") w.

(** [val] is what the dialog returns: [None] when it is cancelled. *)
Definition _change_env_key (val : option string) (w : Window) : Window :=
  match val with
  | None => w
  | Some v => _refresh_discovery (with_env_key (str_or (Str.strip v) (env_key w)) w)
  end.

Definition _direct_search (val : option string) (w : Window) : Window :=
  match val with
  | None => w
  | Some v =>
      let v := os_path_expanduser h (os_path_expandvars h (Str.strip v)) in
      if negb (os_path_isabs h v) then
        with_engine
          (showerror "Path must be absolute"
             "Please provide an absolute path (e.g., C:\Games\Vintagestory or /home/user/Vintagestory)."
             (engine w)) w
      else _refresh_discovery (with_direct_root (Some v) w)
  end.

(** *** Export to the clipboard *)

Definition copy_json5 (w : Window) : Window :=
  let '(text, a) := build_json5_text h (engine w) in
  let w := with_clipboard text (with_engine a w) in
  showinfo "Copied"
    ("Recipe JSON5 copied to clipboard." +:+ newline +:+ "Paste it into your file!") w.

(** [RecipeBuilderApp.__init__], whole: the engine, the widgets with
    their first values, the first cell selected, the discovery labels. *)
Definition init_window : Window :=
  let w := mkWindow (init_app h) "VINTAGE_STORY" None [] None EmptyString false
             ("Selected slot: 1" +:+ times_sign +:+ "1") "Discovery: (none)"
             "Discovery" [] EmptyString in
  let w := _select_cell (0, 0) w in
  let w := _update_discovery_status w in
  _update_discovery_menu_label w.

End Menus.

(* ================================================================== *)
(** ** Notions of the statements on the grid and the window *)

(** The position is a cell of the grid. *)
Definition in_grid (g : grid) (pos : nat * nat) : Prop :=
  exists row, g !! pos.1 = Some row /\ pos.2 < length row.

(** The ingredient has a symbol that is not empty. *)
Definition has_symbol (ing : Ingredient) : Prop :=
  exists c s, symbol ing = Some (String c s).

(** The ingredients the export writes: those with a code. *)
Definition placed (g : grid) (pos : nat * nat) (ing : Ingredient) : Prop :=
  grid_get g pos = Some ing /\ Str.truthy (code ing) = true.

(** Every ingredient the export writes has a symbol. *)
Definition all_symbols (g : grid) : Prop :=
  forall pos ing, In pos cells -> placed g pos ing -> has_symbol ing.

(** No two ingredients with different codes share a symbol. *)
Definition symbols_distinct (g : grid) : Prop :=
  forall p q x y c s,
    grid_get g p = Some x -> grid_get g q = Some y ->
    symbol x = Some (String c s) -> symbol y = Some (String c s) ->
    code x = code y.

(** The letters A to Z. *)
Definition letters : list string := List.map letter (seq 0 26).

(** The items pool is up to date: the cache is empty or holds the codes
    discovered and the custom ones, sorted, each once. *)
Definition cache_fresh (w : Window) : Prop :=
  match items_cache w with
  | None => True
  | Some cache =>
      cache = merge_sort String.le
                (elements (list_to_set (discovered_items (engine w) ++ custom_items w)
                           : gset string))
  end.

(** What the pattern of the export shows for a cell: the symbol of its
    ingredient, or an underscore for a cell without ingredient or an
    ingredient without code. *)
Definition shows (g : grid) (p : nat * nat) (ch : ascii) : Prop :=
  match grid_get g p with
  | Some ing =>
      if Str.truthy (code ing) then symbol ing = Some (String ch EmptyString)
      else ch = "_"%char
  | None => ch = "_"%char
  end.

(** The ingredient, with a code, of the first of the cells [ps] that has
    the symbol [s]. *)
Fixpoint first_with_symbol (g : grid) (ps : list (nat * nat)) (s : string)
    : option Ingredient :=
  match ps with
  | [] => None
  | p :: ps' =>
      match grid_get g p with
      | Some ing =>
          if Str.truthy (code ing) && bool_decide (symbol ing = Some s)
          then Some ing else first_with_symbol g ps' s
      | None => first_with_symbol g ps' s
      end
  end.

(** The groups of a match are pieces of the text [T]. *)
Definition in_text (T : string) (caps : Re.captures) : Prop :=
  Forall (fun iv : nat * string => Str.contains iv.2 T = true) caps.

(** A pattern without group. *)
Fixpoint no_group (r : Re.regex) : bool :=
  match r with
  | Re.Grp _ _ => false
  | Re.Alt r1 r2 | Re.Seq r1 r2 => no_group r1 && no_group r2
  | _ => true
  end.

(** The value [val] stands in the text between two double quotes or
    between two single quotes. *)
Definition between (q : ascii) (val : string) : string :=
  String q (val +:+ String q EmptyString).

Definition in_quotes (val text : string) : Prop :=
  Str.contains (between dquote val) text = true
  \/ Str.contains (between squote val) text = true.

(** A match that ends in [_STR_RE] after a part without group has one
    group, the value, which stands between quotes where the match is. *)
Definition one_value (s : string) (m : Re.rmatch) : Prop :=
  exists q i v pre rest,
    ((q = dquote /\ i = 1) \/ (q = squote /\ i = 2))
    /\ Str.truthy v = true
    /\ s = pre +:+ between q v +:+ rest
    /\ Re.m_groups m = [(i, v)].

(** What the set holds was made from a quoted value of the text: its
    form, or the sibling of its form, the form being in the set too. *)
Definition from_values (text : string) (a : gset string) : Prop :=
  forall x, x ∈ a ->
    exists val, in_quotes val text
      /\ (x = _with_domain (_norm_pattern val)
          \/ (x = _with_domain (_norm_pattern val) +:+ "-*"
              /\ _with_domain (_norm_pattern val) ∈ a)).

(* ================================================================== *)
(** * Facts *)

Module StrFacts.
Import Str.

Lemma app_nil_l (s : string) : EmptyString +:+ s = s.
Proof. reflexivity. Qed.

Lemma app_cons (c : ascii) (s t : string) : String c s +:+ t = String c (s +:+ t).
Proof. reflexivity. Qed.

Lemma app_nil_r (s : string) : s +:+ EmptyString = s.
Proof. induction s as [|c s IH]; [reflexivity|]. rewrite app_cons, IH. reflexivity. Qed.

Lemma app_assoc (s t u : string) : (s +:+ t) +:+ u = s +:+ (t +:+ u).
Proof.
  induction s as [|c s IH]; [reflexivity|].
  rewrite !app_cons, IH. reflexivity.
Qed.

Lemma length_app (s t : string) :
  String.length (s +:+ t) = String.length s + String.length t.
Proof.
  induction s as [|c s IH]; [reflexivity|].
  rewrite app_cons. simpl. rewrite IH. reflexivity.
Qed.

Lemma truthy_iff (s : string) : truthy s = true <-> s <> EmptyString.
Proof. destruct s; simpl; split; congruence. Qed.

Lemma ends_with_refl (s : string) : ends_with s s = true.
Proof. destruct s; simpl; rewrite ?Ascii.eqb_refl, ?String.eqb_refl; reflexivity. Qed.

Lemma ends_with_app (suf b : string) : ends_with suf (b +:+ suf) = true.
Proof.
  induction b as [|c b IH]; [apply ends_with_refl|].
  rewrite app_cons. simpl. rewrite IH. apply orb_true_r.
Qed.

Lemma ends_with_nonempty (a : ascii) (suf s : string) :
  ends_with (String a suf) s = true -> truthy s = true.
Proof. destruct s; simpl; [discriminate | reflexivity]. Qed.

Lemma drop_last_app1 (b : string) (c : ascii) :
  drop_last (b +:+ String c EmptyString) = b.
Proof.
  induction b as [|a b IH]; [reflexivity|].
  rewrite app_cons. simpl. rewrite IH.
  destruct b; reflexivity.
Qed.

Lemma ends_with_cons (suf : string) (c : ascii) (s : string) :
  ends_with suf (String c s) = String.eqb suf (String c s) || ends_with suf s.
Proof. reflexivity. Qed.

Lemma ends_with1_split (c : ascii) (s : string) :
  ends_with (String c EmptyString) s = true ->
  s = drop_last s +:+ String c EmptyString.
Proof.
  induction s as [|a s IH]; [discriminate|].
  rewrite ends_with_cons. destruct s as [|b s].
  - simpl. destruct (Ascii.eqb_spec c a); [subst; reflexivity | discriminate].
  - replace (String.eqb (String c EmptyString) (String a (String b s))) with false
      by (simpl; destruct (Ascii.eqb c a); reflexivity).
    intros H. change (drop_last (String a (String b s)))
      with (String a (drop_last (String b s))).
    rewrite app_cons, <- IH; auto.
Qed.

(** [rstrip] leaves a prefix and removes only characters of the class. *)
Lemma rstrip_split (p : ascii -> bool) (s : string) :
  exists t, s = rstrip p s +:+ t /\ all p t = true.
Proof.
  induction s as [|c s (t & Hs & Ht)].
  - exists EmptyString. split; reflexivity.
  - simpl. destruct (rstrip p s) as [|b r] eqn:Hr.
    + destruct (p c) eqn:Hc.
      * exists (String c t). simpl in Hs. rewrite Hs at 1. simpl. rewrite Hc, Ht. split; reflexivity.
      * exists t. rewrite Hs at 1. split; [reflexivity | assumption].
    + exists t. rewrite Hs at 1. split; [reflexivity | assumption].
Qed.

Lemma rstrip_last (p : ascii -> bool) (s : string) (c : ascii) :
  ends_with (String c EmptyString) (rstrip p s) = true -> p c = false.
Proof.
  induction s as [|a s IH]; [discriminate|].
  simpl. destruct (rstrip p s) as [|b r] eqn:Hr.
  - destruct (p a) eqn:Ha; [discriminate|].
    simpl. destruct (Ascii.eqb_spec c a); [subst; auto | discriminate].
  - rewrite ends_with_cons.
    replace (String.eqb (String c EmptyString) (String a (String b r))) with false
      by (simpl; destruct (Ascii.eqb c a); reflexivity).
    exact IH.
Qed.

Lemma rstrip_id (p : ascii -> bool) (s : string) :
  (forall c, ends_with (String c EmptyString) s = true -> p c = false) ->
  rstrip p s = s.
Proof.
  induction s as [|a s IH]; [reflexivity|].
  intros H. simpl. rewrite IH.
  - destruct s; [|reflexivity]. rewrite (H a); [reflexivity|].
    simpl. rewrite Ascii.eqb_refl. reflexivity.
  - intros c Hc. apply H. rewrite ends_with_cons, Hc. apply orb_true_r.
Qed.

Lemma rstrip_idem (p : ascii -> bool) (s : string) :
  rstrip p (rstrip p s) = rstrip p s.
Proof. apply rstrip_id. intros c. apply rstrip_last. Qed.

Lemma rstrip_app1 (p : ascii -> bool) (s : string) (c : ascii) :
  p c = true -> rstrip p (s +:+ String c EmptyString) = rstrip p s.
Proof.
  intros Hc. induction s as [|a s IH].
  - simpl. rewrite Hc. reflexivity.
  - rewrite app_cons. simpl. rewrite IH. reflexivity.
Qed.

Lemma starts_with_app (pat s t : string) :
  starts_with pat s = true -> starts_with pat (s +:+ t) = true.
Proof.
  revert s. induction pat as [|a pat IH]; intros s; [reflexivity|].
  destruct s as [|b s]; [discriminate|]. rewrite app_cons. simpl.
  destruct (Ascii.eqb a b); [apply IH | discriminate].
Qed.

Lemma contains_app_l (pat s t : string) :
  contains pat s = true -> contains pat (s +:+ t) = true.
Proof.
  induction s as [|c s IH].
  - destruct pat; [destruct t; reflexivity | discriminate].
  - rewrite app_cons. simpl. intros [H|H]%orb_true_iff.
    + change (String c (s +:+ t)) with (String c s +:+ t).
      rewrite (starts_with_app _ _ _ H). reflexivity.
    + rewrite IH by assumption. apply orb_true_r.
Qed.

Lemma contains_app_l_false (pat s t : string) :
  contains pat (s +:+ t) = false -> contains pat s = false.
Proof.
  intros H. destruct (contains pat s) eqn:E; [|reflexivity].
  rewrite (contains_app_l _ _ t E) in H. discriminate.
Qed.

(** A two-character pattern in a concatenation: in the left part, across
    the seam, or in the right part. *)
Lemma contains2_app (a b : ascii) (s t : string) :
  contains (String a (String b EmptyString)) (s +:+ t) =
  contains (String a (String b EmptyString)) s
  || (ends_with (String a EmptyString) s && starts_with (String b EmptyString) t)
  || contains (String a (String b EmptyString)) t.
Proof.
  induction s as [|c s IH].
  - rewrite app_nil_l. destruct t; reflexivity.
  - rewrite app_cons.
    change (contains (String a (String b EmptyString)) (String c (s +:+ t)))
      with (starts_with (String a (String b EmptyString)) (String c (s +:+ t))
            || contains (String a (String b EmptyString)) (s +:+ t)).
    rewrite IH. rewrite ends_with_cons.
    change (contains (String a (String b EmptyString)) (String c s))
      with (starts_with (String a (String b EmptyString)) (String c s)
            || contains (String a (String b EmptyString)) s).
    destruct s as [|d s].
    + rewrite app_nil_l. simpl. destruct (Ascii.eqb a c); simpl;
        destruct t; simpl; try reflexivity.
    + rewrite app_cons.
      replace (String.eqb (String a EmptyString) (String c (String d s))) with false
        by (simpl; destruct (Ascii.eqb a c); reflexivity).
      simpl starts_with.
      destruct (Ascii.eqb a c), (Ascii.eqb b d); simpl;
        repeat match goal with |- context [?x || true] => rewrite (orb_true_r x) end;
        try reflexivity.
Qed.

Lemma drop_last_split (s : string) : exists t, s = drop_last s +:+ t.
Proof.
  induction s as [|c s [t Ht]].
  - exists EmptyString. reflexivity.
  - destruct s as [|b s].
    + exists (String c EmptyString). reflexivity.
    + exists t. change (drop_last (String c (String b s)))
        with (String c (drop_last (String b s))).
      rewrite app_cons, <- Ht. reflexivity.
Qed.

Lemma app2 (b : string) (x y : ascii) :
  b +:+ String x (String y EmptyString)
  = (b +:+ String x EmptyString) +:+ String y EmptyString.
Proof. rewrite app_assoc. reflexivity. Qed.

Lemma ends_with1_app1 (a c : ascii) (s : string) :
  ends_with (String a EmptyString) (s +:+ String c EmptyString) = Ascii.eqb a c.
Proof.
  induction s as [|b s IH].
  - simpl. destruct (Ascii.eqb a c); reflexivity.
  - rewrite app_cons, ends_with_cons, IH.
    replace (String.eqb (String a EmptyString) (String b (s +:+ String c EmptyString)))
      with false; [reflexivity|].
    simpl. destruct (Ascii.eqb a b); [|reflexivity]. destruct s; reflexivity.
Qed.

Lemma ends_with2_app1 (a b c : ascii) (s : string) :
  ends_with (String a (String b EmptyString)) (s +:+ String c EmptyString)
  = ends_with (String a EmptyString) s && Ascii.eqb b c.
Proof.
  induction s as [|d s IH].
  - simpl. destruct (Ascii.eqb a c); reflexivity.
  - rewrite app_cons, !ends_with_cons, IH. destruct s as [|e s].
    + simpl. destruct (Ascii.eqb a d), (Ascii.eqb b c); reflexivity.
    + replace (String.eqb (String a EmptyString) (String d (String e s))) with false
        by (simpl; destruct (Ascii.eqb a d); reflexivity).
      replace (String.eqb (String a (String b EmptyString))
                 (String d (String e s +:+ String c EmptyString))) with false;
        [reflexivity|].
      rewrite app_cons. simpl. destruct (Ascii.eqb a d), (Ascii.eqb b e); try reflexivity.
      destruct s; reflexivity.
Qed.

End StrFacts.

Module Wildcard.
Import Str StrFacts.

Lemma rstrip_dash_no_dash (s : string) :
  ends_with "-" (rstrip (Chars.is_char dash) s) = false.
Proof.
  destruct (ends_with "-" (rstrip (Chars.is_char dash) s)) eqn:E; [|reflexivity].
  apply rstrip_last in E. discriminate E.
Qed.

Lemma rstrip_dash_id (s : string) :
  ends_with "-" s = false -> rstrip (Chars.is_char dash) s = s.
Proof.
  intros H. apply rstrip_id. intros c Hc.
  destruct (Chars.is_char dash c) eqn:E; [|reflexivity].
  apply Ascii.eqb_eq in E. subst c. change (String dash EmptyString) with "-" in Hc.
  congruence.
Qed.

Lemma clean_prefix (s t : string) : clean (s +:+ t) -> clean s.
Proof. intros [H1 H2]. split; eapply contains_app_l_false; eassumption. Qed.

Lemma clean_drop_last (s : string) : clean s -> clean (drop_last s).
Proof.
  destruct (drop_last_split s) as [t Ht]. intros H. rewrite Ht in H.
  eapply clean_prefix, H.
Qed.

Lemma clean_rstrip (p : ascii -> bool) (s : string) : clean s -> clean (rstrip p s).
Proof.
  destruct (rstrip_split p s) as (t & Ht & _). intros H. rewrite Ht in H.
  eapply clean_prefix, H.
Qed.

Lemma clean_strip_star (s : string) : clean s -> clean (strip_star s).
Proof. unfold strip_star. destruct (ends_with "*" s); auto using clean_drop_last. Qed.

Lemma clean_stripped_base (s : string) : clean s -> clean (stripped_base s).
Proof. intros H. apply clean_rstrip, clean_strip_star, H. Qed.

Lemma stripped_base_no_dash (s : string) : ends_with "-" (stripped_base s) = false.
Proof. apply rstrip_dash_no_dash. Qed.

(** A clean base that ends neither in a star nor in a dash stays tidy
    under either suffix. *)
Lemma tidy_build (b : string) (sc : bool) :
  clean b -> ends_with "*" b = false -> ends_with "-" b = false ->
  tidy (b +:+ suffix_for sc) /\ stripped_base (b +:+ suffix_for sc) = b.
Proof.
  intros [Hd Hs] Hstar Hdash.
  assert (Hbase : stripped_base (b +:+ suffix_for sc) = b).
  { unfold stripped_base, strip_star. destruct sc; simpl suffix_for.
    - rewrite app2, ends_with_app, drop_last_app1.
      rewrite rstrip_app1 by reflexivity. apply rstrip_dash_id, Hdash.
    - rewrite ends_with_app, drop_last_app1. apply rstrip_dash_id, Hdash. }
  split; [|exact Hbase]. split; [|rewrite Hbase; exact Hstar].
  split; rewrite contains2_app; destruct sc; simpl suffix_for;
    rewrite ?Hd, ?Hs, ?Hstar, ?Hdash; reflexivity.
Qed.

Lemma tidy_build_base (b : string) (sc : bool) :
  ends_with "-" b = false -> stripped_base (b +:+ suffix_for sc) = b.
Proof.
  intros Hdash. unfold stripped_base, strip_star.
  destruct sc; simpl suffix_for.
  - rewrite app2, ends_with_app, drop_last_app1.
    rewrite rstrip_app1 by reflexivity. apply rstrip_dash_id, Hdash.
  - rewrite ends_with_app, drop_last_app1. apply rstrip_dash_id, Hdash.
Qed.

Lemma tidy_rebuild (s : string) (sc : bool) :
  tidy s -> tidy (stripped_base s +:+ suffix_for sc).
Proof.
  intros [Hc Hb]. apply tidy_build; auto using clean_stripped_base, stripped_base_no_dash.
Qed.

Lemma strip_star_idem (s : string) :
  contains "**" s = false -> strip_star (strip_star s) = strip_star s.
Proof.
  intros H. unfold strip_star at 2 3. destruct (ends_with "*" s) eqn:E.
  - unfold strip_star. apply ends_with1_split in E. rewrite E in H.
    rewrite contains2_app in H. apply orb_false_iff in H as [H _].
    apply orb_false_iff in H as [_ H]. rewrite andb_true_r in H. rewrite H. reflexivity.
  - unfold strip_star. rewrite E. reflexivity.
Qed.

Lemma tidy_strip_star (s : string) : tidy s -> tidy (strip_star s).
Proof.
  intros [Hc Hb]. split; [apply clean_strip_star, Hc|].
  unfold stripped_base. rewrite strip_star_idem by apply Hc. exact Hb.
Qed.

(** *** The normalizer on the code *)

Lemma normalize_code (ing : Ingredient) :
  ends_with "*" (code ing) = true ->
  code (_normalize_wildcard_code ing)
  = rstrip (Chars.is_char dash) (drop_last (code ing)) +:+ suffix_for (scoped ing).
Proof.
  intros H. unfold _normalize_wildcard_code, scoped.
  rewrite H, (ends_with_nonempty _ _ _ H). simpl.
  destruct (allowed_variants ing); reflexivity.
Qed.

Lemma normalize_not_wild (ing : Ingredient) :
  ends_with "*" (code ing) = false -> _normalize_wildcard_code ing = ing.
Proof.
  intros H. unfold _normalize_wildcard_code. rewrite H, orb_true_r. reflexivity.
Qed.

Lemma normalize_variants (ing : Ingredient) :
  allowed_variants (_normalize_wildcard_code ing) = allowed_variants ing.
Proof.
  unfold _normalize_wildcard_code.
  destruct (negb _ || negb _); [reflexivity|].
  destruct (allowed_variants ing) eqn:E; simpl; congruence.
Qed.

Lemma normalize_wild_base (ing : Ingredient) :
  ends_with "*" (code ing) = true ->
  code (_normalize_wildcard_code ing)
  = stripped_base (code ing) +:+ suffix_for (scoped ing).
Proof.
  intros H. rewrite normalize_code by assumption.
  unfold stripped_base, strip_star. rewrite H. reflexivity.
Qed.

Lemma tidy_normalize (ing : Ingredient) :
  tidy (code ing) -> tidy (code (_normalize_wildcard_code ing)).
Proof.
  intros H. destruct (ends_with "*" (code ing)) eqn:E.
  - rewrite normalize_wild_base by assumption. apply tidy_rebuild, H.
  - rewrite normalize_not_wild; assumption.
Qed.

Lemma tidy_variants (l : list string) (ing : Ingredient) :
  tidy (code ing) -> tidy (code (set_allowed_variants l ing)).
Proof. auto. Qed.

Lemma tidy_star (ing : Ingredient) :
  tidy (code ing) ->
  tidy (code (_normalize_wildcard_code
    (if negb (ends_with "*" (code ing)) then set_code (code ing +:+ "*") ing else ing))).
Proof.
  intros H. destruct (ends_with "*" (code ing)) eqn:E; simpl negb; cbv iota.
  - apply tidy_normalize, H.
  - rewrite normalize_code by apply ends_with_app. simpl code.
    rewrite drop_last_app1.
    replace (rstrip (Chars.is_char dash) (code ing)) with (stripped_base (code ing))
      by (unfold stripped_base, strip_star; rewrite E; reflexivity).
    apply tidy_rebuild, H.
Qed.

Lemma tidy_apply_wildcard (w : bool) (ing : Ingredient) :
  tidy (code ing) -> tidy (code (apply_wildcard w ing)).
Proof.
  intros H. unfold apply_wildcard. destruct (truthy (code ing)); [|exact H].
  destruct w.
  - apply tidy_star, H.
  - simpl. destruct (ends_with "*" (code ing)) eqn:E; [|exact H].
    simpl. pose proof (tidy_strip_star _ H) as H'. unfold strip_star in H'.
    rewrite E in H'. exact H'.
Qed.

Lemma grid_get_set (g : grid) (pos : nat * nat) (x : option Ingredient) (ing : Ingredient) :
  grid_get g pos = Some ing -> grid_get (grid_set g pos x) pos = x.
Proof.
  unfold grid_get, grid_set. destruct (g !! pos.1) as [row|] eqn:Hr; [|discriminate].
  destruct (row !! pos.2) as [y|] eqn:Hc; [|discriminate]. intros _.
  rewrite list_lookup_insert_eq by (eapply lookup_lt_Some; eassumption).
  rewrite list_lookup_insert_eq by (eapply lookup_lt_Some; eassumption).
  reflexivity.
Qed.

Lemma uvs_selected pos options a :
  selected (_update_variants_summary pos options a) = selected a.
Proof.
  unfold _update_variants_summary.
  repeat (case_match; try reflexivity).
Qed.

Lemma uvs_tidy pos options a :
  tidy_at pos a -> tidy_at pos (_update_variants_summary pos options a).
Proof.
  intros H. unfold _update_variants_summary.
  destruct (grid_get (grid_items a) pos) as [ing|] eqn:Hg; [|exact H].
  destruct (allowed_variants ing); [exact H|].
  destruct (List.filter _ _).
  - intros ing'. simpl. rewrite (grid_get_set _ _ _ _ Hg). intros [= <-].
    apply tidy_normalize. simpl. apply H, Hg.
  - destruct (Nat.leb _ _); exact H.
Qed.

Lemma uvui_selected a : selected (_update_variant_ui a) = selected a.
Proof.
  unfold _update_variant_ui. simpl.
  repeat (case_match; try reflexivity).
  simpl. rewrite uvs_selected. reflexivity.
Qed.

Lemma uvui_tidy a :
  tidy_at (selected a) a -> tidy_at (selected a) (_update_variant_ui a).
Proof.
  intros H. unfold _update_variant_ui. simpl.
  repeat (case_match; try exact H).
  intros ing. simpl. apply (uvs_tidy (selected a) _ (with_variants_row false a)). exact H.
Qed.

Lemma side_apply_selected h a : selected (_side_apply h a) = selected a.
Proof.
  unfold _side_apply. case_match; [|reflexivity]. rewrite uvui_selected. reflexivity.
Qed.

Lemma side_apply_tidy h a :
  tidy_at (selected a) a -> tidy_at (selected a) (_side_apply h a).
Proof.
  intros H. unfold _side_apply.
  destruct (grid_get (grid_items a) (selected a)) as [ing|] eqn:Hg; [|exact H].
  match goal with |- tidy_at _ (_update_variant_ui ?b) =>
    change (selected a) with (selected b); apply uvui_tidy end.
  intros ing'. simpl. rewrite (grid_get_set _ _ _ _ Hg). intros [= <-].
  apply tidy_apply_wildcard. simpl. apply H, Hg.
Qed.

Lemma dialog_selected pos options checked a :
  selected (variants_dialog_ok pos options checked a) = selected a.
Proof.
  unfold variants_dialog_ok. case_match; [|reflexivity].
  destruct (wildcard_var a); rewrite uvs_selected; reflexivity.
Qed.

Lemma dialog_tidy pos options checked a :
  tidy_at pos a -> tidy_at pos (variants_dialog_ok pos options checked a).
Proof.
  intros H. unfold variants_dialog_ok.
  destruct (grid_get (grid_items a) pos) as [ing|] eqn:Hg; [|exact H].
  destruct (wildcard_var a); apply uvs_tidy; intros ing'; simpl;
    rewrite (grid_get_set _ _ _ _ Hg); intros [= <-].
  - apply (tidy_star (set_allowed_variants _ ing)). simpl. apply H, Hg.
  - simpl. apply H, Hg.
Qed.

Lemma step_selected h a o : selected (step h a o) = selected a.
Proof.
  destruct o; simpl; [rewrite side_apply_selected | rewrite dialog_selected]; reflexivity.
Qed.

Lemma step_tidy h a o :
  tidy_at (selected a) a -> tidy_at (selected a) (step h a o).
Proof.
  intros H. destruct o; simpl.
  - apply (side_apply_tidy h (with_wildcard_var b a)). exact H.
  - apply dialog_tidy, H.
Qed.

Lemma steps_tidy h ops a :
  tidy_at (selected a) a ->
  selected (foldl (step h) a ops) = selected a
  /\ tidy_at (selected a) (foldl (step h) a ops).
Proof.
  revert a. induction ops as [|o ops IH]; intros a H; [split; [reflexivity|exact H]|].
  simpl. destruct (IH (step h a o)) as [Hs Ht].
  - rewrite step_selected. apply step_tidy, H.
  - rewrite step_selected in Hs, Ht. split; assumption.
Qed.

(** A bare code without doubled dashes or stars that does not end in a
    star followed by a dash is tidy. *)
Lemma bare_tidy (s : string) :
  contains "--" s = false -> contains "**" s = false ->
  ends_with "*" s = false -> ends_with "*-" s = false -> tidy s.
Proof.
  intros Hd Hs He Hsd. split; [split; assumption|].
  unfold stripped_base, strip_star. rewrite He.
  destruct (ends_with "-" s) eqn:E.
  - apply ends_with1_split in E. revert Hd Hsd. rewrite E.
    rewrite contains2_app, ends_with2_app1, rstrip_app1 by reflexivity.
    intros Hd Hsd. apply orb_false_iff in Hd as [Hd _].
    apply orb_false_iff in Hd as [_ Hd]. rewrite andb_true_r in Hd, Hsd.
    rewrite rstrip_dash_id; assumption.
  - rewrite rstrip_dash_id; assumption.
Qed.

End Wildcard.

Module ReFacts.
Import Str StrFacts Re.

Section Rep.
Context (p : ascii -> bool) (k : option ascii -> string -> option rmatch).

(** Greedy repetition tries the whole run first. *)
Lemma rep_greedy_longest min prev s m :
  min <= run_length p s ->
  k (run_prev p prev s) (lstrip p s) = Some m ->
  rep_greedy p min prev s k = Some m.
Proof.
  revert min prev. induction s as [|c s IH]; intros min prev Hmin Hk; simpl in *.
  - destruct min; [exact Hk | lia].
  - destruct (p c).
    + rewrite (IH (Nat.pred min) (Some c)); [reflexivity | lia | exact Hk].
    + destruct min; [exact Hk | lia].
Qed.

Lemma rep_greedy_short min prev s :
  run_length p s < min -> rep_greedy p min prev s k = None.
Proof.
  revert min prev. induction s as [|c s IH]; intros min prev Hmin; simpl in *.
  - destruct min; [lia | reflexivity].
  - destruct (p c).
    + rewrite IH by lia. destruct min; [lia | reflexivity].
    + destruct min; [lia | reflexivity].
Qed.

(** When what follows cannot start with a character of the class, only
    the whole run can match. *)
Lemma rep_greedy_commit min prev s :
  (forall pr c s', p c = true -> k pr (String c s') = None) ->
  rep_greedy p min prev s k =
  if Nat.leb min (run_length p s) then k (run_prev p prev s) (lstrip p s) else None.
Proof.
  intros Hk. revert min prev. induction s as [|c s IH]; intros min prev; simpl.
  - destruct min; reflexivity.
  - destruct (p c) eqn:Hc.
    + rewrite IH. destruct min as [|min]; simpl.
      * destruct (k _ _) eqn:E; [reflexivity|]. apply Hk, Hc.
      * destruct (Nat.leb min (run_length p s)); [|reflexivity].
        destruct (k _ _); reflexivity.
    + destruct min; reflexivity.
Qed.

(** A greedy repetition that matches has consumed characters of the class. *)
Lemma rep_greedy_sound min prev s m :
  rep_greedy p min prev s k = Some m ->
  exists run rest prev',
    s = run +:+ rest /\ all p run = true /\ min <= String.length run
    /\ k prev' rest = Some m.
Proof.
  revert min prev. induction s as [|c s IH]; intros min prev; simpl.
  - destruct min; [|discriminate]. intros H.
    exists EmptyString, EmptyString, prev. auto.
  - assert (Hstop : match min with 0 => k prev (String c s) | S _ => None end = Some m ->
      exists run rest prev', String c s = run +:+ rest /\ all p run = true
        /\ min <= String.length run /\ k prev' rest = Some m).
    { destruct min; [|discriminate]. intros H.
      exists EmptyString, (String c s), prev. auto. }
    destruct (p c) eqn:Hc; [|exact Hstop].
    destruct (rep_greedy p (Nat.pred min) (Some c) s k) eqn:E; [|exact Hstop].
    intros [= ->]. apply IH in E as (run & rest & prev' & -> & Hall & Hlen & Hk).
    exists (String c run), rest, prev'. simpl. rewrite Hc, Hall.
    repeat split; auto. lia.
Qed.

End Rep.

Lemma lstrip_head (p : ascii -> bool) (s : string) (c : ascii) (r : string) :
  lstrip p s = String c r -> p c = false.
Proof.
  induction s as [|a s IH]; simpl; [discriminate|].
  destruct (p a) eqn:Ha; [exact IH|]. intros [= -> ->]. exact Ha.
Qed.

Lemma lstrip_length (p : ascii -> bool) (s : string) :
  String.length (lstrip p s) + run_length p s = String.length s.
Proof.
  induction s as [|a s IH]; simpl; [reflexivity|].
  destruct (p a); simpl; lia.
Qed.

(** *** Scanning *)

Lemma finditer_from_In fuel r prev s m :
  In m (finditer_from fuel r prev s) ->
  exists prev' s', match_at r prev' s' = Some m.
Proof.
  revert prev s. induction fuel as [|fuel IH]; intros prev s; simpl; [intros []|].
  destruct (match_at r prev s) as [m'|] eqn:E.
  - destruct (Nat.ltb _ _).
    + intros [<-|H]; [eauto | eapply IH, H].
    + destruct s; (intros [<-|H]; [eauto|]); [destruct H | eapply IH, H].
  - destruct s; [intros [] | apply IH].
Qed.

Lemma finditer_In r s m :
  In m (finditer r s) -> exists prev' s', match_at r prev' s' = Some m.
Proof. apply finditer_from_In. Qed.

(** One unit of fuel more than the length of the text is enough for the
    substitution: more changes nothing. *)
Lemma sub_from_fuel fuel1 fuel2 r repl prev s :
  String.length s < fuel1 -> String.length s < fuel2 ->
  sub_from fuel1 r repl prev s = sub_from fuel2 r repl prev s.
Proof.
  revert fuel2 prev s. induction fuel1 as [|fuel1 IH]; intros fuel2 prev s H1 H2; [lia|].
  destruct fuel2 as [|fuel2]; [lia|].
  cbn [sub_from]. destruct (match_at r prev s) as [m|].
  - destruct (Nat.ltb (String.length (m_rest m)) (String.length s)) eqn:E.
    + apply Nat.ltb_lt in E. f_equal. apply IH; lia.
    + destruct s as [|c s]; [reflexivity|]. simpl in H1, H2.
      do 2 f_equal. apply IH; lia.
  - destruct s as [|c s]; [reflexivity|]. simpl in H1, H2. f_equal. apply IH; lia.
Qed.

(** *** Substitution seen as rewriting by a hit function

    [hit s] is what follows the match of the pattern at the start of [s]. *)
Section Rewrite.
Context (hit : string -> option string) (repl : string).

Hypothesis hit_suffix : forall s rest,
  hit s = Some rest -> exists c pre, s = String c pre +:+ rest.

Lemma hit_shorter s rest :
  hit s = Some rest -> String.length rest < String.length s.
Proof.
  intros (c & pre & ->)%hit_suffix. rewrite app_cons. simpl.
  rewrite length_app. lia.
Qed.

Lemma sub_from_hit (r : regex) :
  (forall prev s, m_rest <$> match_at r prev s = hit s) ->
  forall fuel prev s, sub_from fuel r repl prev s = rewrite_from hit repl fuel s.
Proof.
  intros Hr. induction fuel as [|fuel IH]; intros prev s; [reflexivity|].
  simpl. specialize (Hr prev s). destruct (match_at r prev s) as [m|]; simpl in Hr.
  - rewrite <- Hr. symmetry in Hr. apply hit_shorter in Hr.
    apply Nat.ltb_lt in Hr. rewrite Hr, IH. reflexivity.
  - rewrite <- Hr. destruct s; [reflexivity|]. rewrite IH. reflexivity.
Qed.

Lemma quiet_tail c s : quiet hit (String c s) = true -> quiet hit s = true.
Proof. simpl. destruct (hit (String c s)); [discriminate | auto]. Qed.

Lemma quiet_hit s : quiet hit s = true -> hit s = None.
Proof. destruct s; simpl; destruct (hit _); auto; discriminate. Qed.

Lemma quiet_suffix pre s : quiet hit (pre +:+ s) = true -> quiet hit s = true.
Proof.
  induction pre as [|c pre IH]; [auto|]. rewrite app_cons.
  intros H. apply IH. eapply quiet_tail, H.
Qed.

Lemma rewrite_quiet fuel s : quiet hit s = true -> rewrite_from hit repl fuel s = s.
Proof.
  revert s. induction fuel as [|fuel IH]; intros s H; [reflexivity|].
  simpl. rewrite (quiet_hit _ H). destruct s; [reflexivity|].
  rewrite IH; [reflexivity | eapply quiet_tail, H].
Qed.

Lemma all_suffix (q : ascii -> bool) pre s :
  all q (pre +:+ s) = true -> all q s = true.
Proof.
  induction pre as [|c pre IH]; [auto|]. rewrite app_cons. simpl.
  intros [_ H]%andb_true_iff. auto.
Qed.

Lemma all_app (q : ascii -> bool) s t :
  all q s = true -> all q t = true -> all q (s +:+ t) = true.
Proof.
  intros Hs Ht. induction s as [|c s IH]; [exact Ht|]. rewrite app_cons.
  simpl in *. apply andb_true_iff in Hs as [-> Hs]. auto.
Qed.

Lemma rewrite_all (q : ascii -> bool) fuel s :
  all q repl = true -> all q s = true -> all q (rewrite_from hit repl fuel s) = true.
Proof.
  intros Hrepl. revert s. induction fuel as [|fuel IH]; intros s H; [exact H|].
  simpl. destruct (hit s) as [rest|] eqn:E.
  - apply hit_suffix in E as (c & pre & ->).
    apply all_app; [exact Hrepl|]. apply IH. eapply all_suffix, H.
  - destruct s; [reflexivity|]. simpl in *.
    apply andb_true_iff in H as [-> H]. rewrite IH by exact H. reflexivity.
Qed.

Lemma rewrite_head fuel c s :
  hit (String c s) = None ->
  rewrite_from hit repl (S fuel) (String c s) = String c (rewrite_from hit repl fuel s).
Proof. intros H. simpl. rewrite H. reflexivity. Qed.

End Rewrite.

End ReFacts.

Module NormFacts.
Import Str StrFacts Re ReFacts.

Lemma lstrip_suffix (p : ascii -> bool) (s : string) :
  exists pre, s = pre +:+ lstrip p s /\ String.length pre = run_length p s.
Proof.
  induction s as [|c s (pre & Hs & Hl)]; simpl.
  - exists EmptyString. auto.
  - destruct (p c).
    + exists (String c pre). rewrite app_cons, <- Hs. simpl. auto.
    + exists EmptyString. auto.
Qed.

Lemma star_hit_match prev s : m_rest <$> match_at re_stars prev s = star_hit s.
Proof.
  unfold match_at, re_stars, star_hit. cbn [run].
  destruct (Nat.leb 2 (run_length is_star s)) eqn:E.
  - apply Nat.leb_le in E. erewrite rep_greedy_longest; [| exact E | reflexivity].
    reflexivity.
  - apply Nat.leb_gt in E. rewrite rep_greedy_short by exact E. reflexivity.
Qed.

Lemma star_hit_suffix s rest :
  star_hit s = Some rest -> exists c pre, s = String c pre +:+ rest.
Proof.
  unfold star_hit. destruct (Nat.leb _ _) eqn:E; [|discriminate]. intros [= <-].
  apply Nat.leb_le in E. destruct (lstrip_suffix is_star s) as (pre & Hs & Hl).
  destruct pre as [|c pre]; [simpl in Hl; lia|]. eauto.
Qed.

Lemma ph_hit_match prev s : m_rest <$> match_at re_placeholder prev s = ph_hit s.
Proof.
  unfold match_at, re_placeholder, ph_hit. cbn [run cat].
  destruct s as [|c s]; [reflexivity|].
  destruct (Ascii.eqb lbrace c); [|reflexivity].
  rewrite rep_greedy_commit.
  - fold not_rbrace. destruct (Nat.leb 1 (run_length not_rbrace s)); [|reflexivity].
    destruct (lstrip not_rbrace s) as [|c' r]; [reflexivity|].
    destruct (Ascii.eqb rbrace c'); reflexivity.
  - intros pr a s' Ha. unfold Chars.not_char in Ha.
    destruct (Ascii.eqb rbrace a); [discriminate | reflexivity].
Qed.

Lemma ph_hit_suffix s rest :
  ph_hit s = Some rest -> exists c pre, s = String c pre +:+ rest.
Proof.
  unfold ph_hit. destruct s as [|c s]; [discriminate|].
  destruct (Ascii.eqb lbrace c); [|discriminate].
  destruct (Nat.leb _ _); [|discriminate].
  destruct (lstrip_suffix not_rbrace s) as (pre & Hs & _).
  destruct (lstrip not_rbrace s) as [|c' r]; [discriminate|].
  destruct (Ascii.eqb rbrace c'); [|discriminate]. intros [= <-].
  exists c, (pre +:+ String c' EmptyString).
  rewrite app_cons, app_assoc. rewrite Hs at 1. reflexivity.
Qed.

Lemma norm_pattern_eq (s : string) :
  _norm_pattern s = strip (collapse (fill s)).
Proof.
  unfold _norm_pattern, Re.sub, collapse, fill.
  rewrite (sub_from_hit ph_hit "*" ph_hit_suffix re_placeholder ph_hit_match).
  rewrite (sub_from_hit star_hit "*" star_hit_suffix re_stars star_hit_match).
  reflexivity.
Qed.

Lemma starts_with1 (a : ascii) (s : string) :
  starts_with (String a EmptyString) s = true <-> exists r, s = String a r.
Proof.
  destruct s as [|c s]; simpl.
  - split; [discriminate | intros [r [=]]].
  - destruct (Ascii.eqb_spec a c) as [->|Hne]; split; eauto.
    + discriminate.
    + intros [r [= ->]]. congruence.
Qed.

Lemma is_star_true c : is_star c = true -> c = star.
Proof. intros H. symmetry. apply Ascii.eqb_eq, H. Qed.

(** *** Collapsing runs of stars *)

Lemma collapse_from_clean fuel s :
  String.length s < fuel ->
  contains "**" (rewrite_from star_hit "*" fuel s) = false
  /\ (starts_with "*" (rewrite_from star_hit "*" fuel s) = true ->
      starts_with "*" s = true).
Proof.
  revert s. induction fuel as [|fuel IH]; intros s Hlen; [lia|].
  simpl. destruct (star_hit s) as [rest|] eqn:E.
  - pose proof (hit_shorter _ star_hit_suffix _ _ E) as Hr.
    destruct (IH rest ltac:(lia)) as [IH1 IH2].
    unfold star_hit in E. destruct (Nat.leb _ _) eqn:E2; [|discriminate].
    injection E as <-. apply Nat.leb_le in E2.
    assert (Hno : starts_with "*" (rewrite_from star_hit "*" fuel (lstrip is_star s)) = false).
    { apply not_true_iff_false. intros E3.
      apply IH2, starts_with1 in E3 as [r Hr'].
      apply lstrip_head in Hr'. discriminate Hr'. }
    rewrite app_cons, app_nil_l. split.
    + simpl contains. simpl in Hno. rewrite Hno, IH1. reflexivity.
    + intros _. destruct s as [|c s]; [simpl in E2; lia|]. simpl in E2.
      destruct (is_star c) eqn:Ec; [|lia]. apply is_star_true in Ec as ->. reflexivity.
  - destruct s as [|c s]; [split; [reflexivity | discriminate]|].
    simpl in Hlen. destruct (IH s ltac:(lia)) as [IH1 IH2].
    split.
    + change (contains "**" (String c (rewrite_from star_hit "*" fuel s)))
        with (Ascii.eqb "*" c && starts_with "*" (rewrite_from star_hit "*" fuel s)
              || contains "**" (rewrite_from star_hit "*" fuel s)).
      rewrite IH1, orb_false_r.
      destruct (Ascii.eqb_spec "*"%char c) as [<-|]; [|reflexivity]. simpl.
      apply not_true_iff_false. intros E3.
      apply IH2, starts_with1 in E3 as [r ->].
      unfold star_hit in E. simpl in E. discriminate E.
    + simpl. destruct (Ascii.eqb "*" c); [reflexivity | discriminate].
Qed.

Lemma collapse_clean s : contains "**" (collapse s) = false.
Proof. apply collapse_from_clean. lia. Qed.

Lemma clean_quiet_stars s : contains "**" s = false -> quiet star_hit s = true.
Proof.
  induction s as [|c s IH]; [reflexivity|].
  intros H. simpl in H. apply orb_false_iff in H as [H1 H2].
  cbn [quiet]. unfold star_hit. simpl run_length. fold is_star.
  destruct (is_star c) eqn:Ec.
  - apply is_star_true in Ec as ->. simpl in H1.
    destruct s as [|d s]; [apply IH, H2|]. simpl in *.
    fold is_star. unfold is_star, Chars.is_char at 1. unfold star.
    destruct (Ascii.eqb "*" d); [discriminate|]. simpl. apply IH, H2.
  - simpl. apply IH, H2.
Qed.

Lemma collapse_id s : contains "**" s = false -> collapse s = s.
Proof. intros H. apply rewrite_quiet, clean_quiet_stars, H. Qed.

(** *** Filling placeholders *)

Lemma lstrip_nil_iff (p : ascii -> bool) (s : string) :
  lstrip p s = EmptyString <-> all p s = true.
Proof.
  induction s as [|c s IH]; simpl; [tauto|].
  destruct (p c); simpl; [exact IH|]. split; discriminate.
Qed.

Lemma not_rbrace_false c : not_rbrace c = false -> c = rbrace.
Proof.
  unfold not_rbrace, Chars.not_char. intros H.
  destruct (Ascii.eqb_spec rbrace c); [auto | discriminate].
Qed.

(** After an opening brace, no placeholder starts exactly when a closing
    brace follows at once or none follows at all. *)
Lemma blocked_iff (x : string) :
  ph_hit (String lbrace x) = None <->
  starts_with "}" x = true \/ all not_rbrace x = true.
Proof.
  unfold ph_hit. rewrite Ascii.eqb_refl. destruct x as [|c x].
  - simpl. tauto.
  - cbn [run_length lstrip all starts_with]. destruct (not_rbrace c) eqn:Hc.
    + cbn [Nat.leb andb].
      assert (Ascii.eqb "}" c = false) as ->.
      { unfold not_rbrace, Chars.not_char, rbrace in Hc.
        destruct (Ascii.eqb "}" c); [discriminate | reflexivity]. }
      cbn [andb]. rewrite <- lstrip_nil_iff.
      destruct (lstrip not_rbrace x) as [|c' r] eqn:E.
      * tauto.
      * apply lstrip_head, not_rbrace_false in E as ->. rewrite Ascii.eqb_refl.
        split; [discriminate | intros [|]; discriminate].
    + apply not_rbrace_false in Hc as ->. cbn [Nat.leb]. rewrite Ascii.eqb_refl.
      simpl. tauto.
Qed.

Lemma ph_hit_other c s : Ascii.eqb lbrace c = false -> ph_hit (String c s) = None.
Proof. intros H. unfold ph_hit. rewrite H. reflexivity. Qed.

(** A transformation of what follows a character keeps that character
    free of placeholders when it keeps a leading closing brace and the
    absence of closing braces. *)
Lemma quiet_cons c s out :
  ph_hit (String c s) = None ->
  (starts_with "}" s = true -> starts_with "}" out = true) ->
  (all not_rbrace s = true -> all not_rbrace out = true) ->
  quiet ph_hit out = true ->
  quiet ph_hit (String c out) = true.
Proof.
  intros Hhit Hhead Hall Hq.
  assert (ph_hit (String c out) = None) as Hnew.
  { destruct (Ascii.eqb_spec lbrace c) as [<-|Hne].
    - apply blocked_iff. apply blocked_iff in Hhit as [H|H]; auto.
    - apply ph_hit_other. apply Ascii.eqb_neq, Hne. }
  cbn [quiet]. rewrite Hnew. exact Hq.
Qed.

Lemma rewrite_keeps_rbrace hit repl fuel s :
  (forall r, hit (String rbrace r) = None) ->
  0 < fuel ->
  starts_with "}" s = true ->
  starts_with "}" (rewrite_from hit repl fuel s) = true.
Proof.
  intros Hhit Hf [r ->]%starts_with1. destruct fuel; [lia|].
  rewrite rewrite_head by apply Hhit. reflexivity.
Qed.

Lemma fill_from_quiet fuel s :
  String.length s < fuel -> quiet ph_hit (rewrite_from ph_hit "*" fuel s) = true.
Proof.
  revert s. induction fuel as [|fuel IH]; intros s Hlen; [lia|].
  simpl. destruct (ph_hit s) as [rest|] eqn:E.
  - pose proof (hit_shorter _ ph_hit_suffix _ _ E) as Hr.
    rewrite app_cons, app_nil_l. cbn [quiet]. rewrite ph_hit_other by reflexivity.
    apply IH. lia.
  - destruct s as [|c s]; [reflexivity|]. simpl in Hlen.
    apply (quiet_cons c s); [exact E | | | apply IH; lia].
    + apply rewrite_keeps_rbrace; [reflexivity | lia].
    + apply rewrite_all; [exact ph_hit_suffix | reflexivity].
Qed.

Lemma fill_quiet s : quiet ph_hit (fill s) = true.
Proof. apply fill_from_quiet. lia. Qed.

Lemma collapse_from_quiet fuel s :
  String.length s < fuel -> quiet ph_hit s = true ->
  quiet ph_hit (rewrite_from star_hit "*" fuel s) = true.
Proof.
  revert s. induction fuel as [|fuel IH]; intros s Hlen Hq; [lia|].
  simpl. destruct (star_hit s) as [rest|] eqn:E.
  - pose proof (hit_shorter _ star_hit_suffix _ _ E) as Hr.
    rewrite app_cons, app_nil_l. cbn [quiet]. rewrite ph_hit_other by reflexivity.
    apply IH; [lia|]. apply star_hit_suffix in E as (c & pre & ->).
    eapply quiet_suffix, Hq.
  - destruct s as [|c s]; [reflexivity|]. simpl in Hlen.
    apply (quiet_cons c s).
    + apply quiet_hit, Hq.
    + apply rewrite_keeps_rbrace; [reflexivity | lia].
    + apply rewrite_all; [exact star_hit_suffix | reflexivity].
    + apply IH; [lia | eapply quiet_tail, Hq].
Qed.

Lemma collapse_quiet s : quiet ph_hit s = true -> quiet ph_hit (collapse s) = true.
Proof. apply collapse_from_quiet. lia. Qed.

Lemma all_prefix (q : ascii -> bool) s t : all q (s +:+ t) = true -> all q s = true.
Proof.
  induction s as [|c s IH]; [reflexivity|]. rewrite app_cons. simpl.
  intros [-> H]%andb_true_iff. auto.
Qed.

Lemma rstrip_quiet s : quiet ph_hit s = true -> quiet ph_hit (rstrip Chars.is_space s) = true.
Proof.
  induction s as [|c s IH]; [reflexivity|]. intros Hq.
  pose proof (quiet_hit _ _ Hq) as Hhit. apply quiet_tail in Hq.
  specialize (IH Hq).
  assert (quiet ph_hit (String c (rstrip Chars.is_space s)) = true) as Hc.
  { apply (quiet_cons c s); auto.
    - intros [r ->]%starts_with1. simpl. destruct (rstrip Chars.is_space r); reflexivity.
    - destruct (rstrip_split Chars.is_space s) as (t & Hs & _). rewrite Hs at 1.
      apply all_prefix. }
  simpl. destruct (rstrip Chars.is_space s) as [|b r] eqn:Er; [|exact Hc].
  destruct (Chars.is_space c); [reflexivity | exact Hc].
Qed.

Lemma strip_quiet s : quiet ph_hit s = true -> quiet ph_hit (strip s) = true.
Proof.
  intros H. apply rstrip_quiet.
  destruct (lstrip_suffix Chars.is_space s) as (pre & Hs & _).
  rewrite Hs in H. eapply quiet_suffix, H.
Qed.

Lemma fill_id s : quiet ph_hit s = true -> fill s = s.
Proof. apply rewrite_quiet. Qed.

(** *** Trimming *)

Lemma contains_suffix_false (pat pre s : string) :
  contains pat (pre +:+ s) = false -> contains pat s = false.
Proof.
  induction pre as [|c pre IH]; [auto|]. rewrite app_cons. simpl.
  intros [_ H]%orb_false_iff. auto.
Qed.

Lemma strip_contains_false (pat s : string) :
  contains pat s = false -> contains pat (strip s) = false.
Proof.
  intros H. unfold strip.
  destruct (lstrip_suffix Chars.is_space s) as (pre & Hs & _). rewrite Hs in H.
  apply contains_suffix_false in H.
  destruct (rstrip_split Chars.is_space (lstrip Chars.is_space s)) as (t & Ht & _).
  rewrite Ht in H. eapply contains_app_l_false, H.
Qed.

Lemma strip_idem s : strip (strip s) = strip s.
Proof.
  unfold strip. set (u := lstrip Chars.is_space s).
  assert (lstrip Chars.is_space (rstrip Chars.is_space u) = rstrip Chars.is_space u) as ->.
  { destruct u as [|c r] eqn:E; [reflexivity|].
    apply lstrip_head in E. simpl.
    rewrite E. destruct (rstrip Chars.is_space r); simpl; rewrite E; reflexivity. }
  apply rstrip_idem.
Qed.

(** *** The normal form *)

Lemma norm_pattern_clean s : contains "**" (_norm_pattern s) = false.
Proof. rewrite norm_pattern_eq. apply strip_contains_false, collapse_clean. Qed.

Lemma norm_pattern_idem s : _norm_pattern (_norm_pattern s) = _norm_pattern s.
Proof.
  rewrite !norm_pattern_eq. set (t := strip (collapse (fill s))).
  assert (quiet ph_hit t = true) as Hq
    by apply strip_quiet, collapse_quiet, fill_quiet.
  assert (contains "**" t = false) as Hc
    by apply strip_contains_false, collapse_clean.
  rewrite (fill_id t Hq), (collapse_id t Hc). apply strip_idem.
Qed.

End NormFacts.

Module ExtractFacts.
Import Str StrFacts Re ReFacts NormFacts.

Lemma take_app (run rest : string) : take (String.length run) (run +:+ rest) = run.
Proof.
  induction run as [|c run IH]; [destruct rest; reflexivity|].
  rewrite app_cons. simpl. rewrite IH. reflexivity.
Qed.

Lemma consumed_app (run rest : string) : consumed (run +:+ rest) rest = run.
Proof.
  unfold consumed. rewrite length_app.
  replace (String.length run + String.length rest - String.length rest)
    with (String.length run) by lia.
  apply take_app.
Qed.

(** One unit of fuel more than the length of the text is enough for the
    scan: more changes nothing. *)
Lemma finditer_from_fuel fuel1 fuel2 r prev s :
  String.length s < fuel1 -> String.length s < fuel2 ->
  finditer_from fuel1 r prev s = finditer_from fuel2 r prev s.
Proof.
  revert fuel2 prev s. induction fuel1 as [|fuel1 IH]; intros fuel2 prev s H1 H2; [lia|].
  destruct fuel2 as [|fuel2]; [lia|].
  cbn [finditer_from]. destruct (match_at r prev s) as [m|].
  - destruct (Nat.ltb (String.length (m_rest m)) (String.length s)) eqn:E.
    + apply Nat.ltb_lt in E. f_equal. apply IH; lia.
    + destruct s as [|c s]; [reflexivity|]. simpl in H1, H2. f_equal. apply IH; lia.
  - destruct s as [|c s]; [reflexivity|]. simpl in H1, H2. apply IH; lia.
Qed.

(** A match of the scan from where it arrives is a match of the scan. *)
Lemma arrives_In r prev s prev' t m :
  arrives r prev s prev' t ->
  In m (finditer_from (S (String.length t)) r prev' t) ->
  In m (finditer_from (S (String.length s)) r prev s).
Proof.
  induction 1 as [| prev c s prev' t Hnone _ IH | prev s m' prev' t Hm Hlen _ IH];
    intros Hin; [exact Hin | |].
  - cbn [finditer_from]. rewrite Hnone.
    rewrite (finditer_from_fuel _ (S (String.length s))) by (simpl; lia). auto.
  - cbn [finditer_from]. rewrite Hm. apply Nat.ltb_lt in Hlen as Hlt. rewrite Hlt.
    right. rewrite (finditer_from_fuel _ (S (String.length (m_rest m')))) by lia. auto.
Qed.

(** The scan finds the match at the position it arrives at. *)
Lemma arrives_finds r s prev' t m :
  arrives r None s prev' t ->
  match_at r prev' t = Some m ->
  In m (finditer r s).
Proof.
  intros Harr Hm. eapply arrives_In; [exact Harr|].
  cbn [finditer_from]. rewrite Hm. destruct (Nat.ltb _ _); [left; reflexivity|].
  destruct t; left; reflexivity.
Qed.

(** *** Growth of the set of codes *)

Lemma foldl_grows {B} (f : gset string -> B -> gset string) l acc x :
  (forall a b, a ⊆ f a b) -> x ∈ acc -> x ∈ foldl f acc l.
Proof.
  intros Hf. revert acc. induction l as [|b l IH]; intros acc Hx; [exact Hx|].
  simpl. apply IH. apply Hf, Hx.
Qed.

Lemma foldl_adds {B} (f : gset string -> B -> gset string) l acc b x :
  (forall a b, a ⊆ f a b) -> In b l -> (forall a, x ∈ f a b) -> x ∈ foldl f acc l.
Proof.
  intros Hf. revert acc. induction l as [|b' l IH]; intros acc Hin Hx; [destruct Hin|].
  simpl. destruct Hin as [->|Hin]; [apply foldl_grows; auto | apply IH; auto].
Qed.

Lemma add_code_grows a m : a ⊆ add_code a m.
Proof. unfold add_code. destruct (quoted_value m); set_solver. Qed.

Lemma add_code_and_sibling_grows a m : a ⊆ add_code_and_sibling a m.
Proof.
  unfold add_code_and_sibling. destruct (quoted_value m); [|set_solver].
  cbv zeta. destruct (negb _ && negb _); set_solver.
Qed.

Lemma add_list_body_grows a m : a ⊆ add_list_body a m.
Proof.
  unfold add_list_body. intros x Hx. apply foldl_grows; [apply add_code_grows | exact Hx].
Qed.

Lemma discover_keeps_rule1 text x :
  x ∈ foldl add_code_and_sibling ∅ (finditer re_code text) ->
  x ∈ _discover_codes_in_text text.
Proof.
  intros H. unfold _discover_codes_in_text.
  apply foldl_grows; [apply add_list_body_grows|].
  apply foldl_grows; [apply add_list_body_grows|].
  apply foldl_grows; [apply add_code_grows|]. exact H.
Qed.

Lemma rule1_adds text m val :
  In m (finditer re_code text) -> quoted_value m = Some val ->
  let base := _with_domain (_norm_pattern val) in
  base ∈ _discover_codes_in_text text
  /\ (ends_with "*" base = false -> contains "-*" base = false ->
      base +:+ "-*" ∈ _discover_codes_in_text text).
Proof.
  intros Hin Hval base. split; [|intros He Hc]; apply discover_keeps_rule1;
    (eapply foldl_adds; [apply add_code_and_sibling_grows | exact Hin |]);
    intros a; unfold add_code_and_sibling; rewrite Hval; cbv zeta; fold base.
  - destruct (negb _ && negb _); set_solver.
  - rewrite He, Hc. simpl. set_solver.
Qed.

(** *** The occurrence [code: "foo"] *)

Lemma code_foo_match prev post :
  word_at prev = false ->
  exists m, match_at re_code prev (code_foo +:+ post) = Some m
            /\ quoted_value m = Some "foo".
Proof.
  intros Hprev. unfold match_at, re_code, code_colon, _STR_RE, spaces.
  cbn [run cat lit]. rewrite Hprev.
  eexists. split.
  - lazy -[consumed]. reflexivity.
  - unfold quoted_value. cbn [m_groups group Nat.eqb py_or].
    change (consumed _ _)
      with (consumed ("foo" +:+ String dquote post) (String dquote post)).
    rewrite consumed_app. reflexivity.
Qed.

(** A prefix without the letter c holds no match of rule 1. *)
Lemma re_code_first prev c s :
  Ascii.eqb "c" c = false -> match_at re_code prev (String c s) = None.
Proof.
  intros H. unfold match_at, re_code, code_colon. cbn [run cat lit].
  destruct (xorb _ _); [|reflexivity]. rewrite H. reflexivity.
Qed.

Lemma last_some c s : exists x, Str.last (String c s) = Some x.
Proof.
  revert c. induction s as [|b s IH]; intros c; [exists c; reflexivity|].
  destruct (IH b) as [x Hx]. exists x. exact Hx.
Qed.

Lemma arrives_past prev pre rest :
  all (Chars.not_char "c") pre = true ->
  arrives re_code prev (pre +:+ rest) (last_or prev pre) rest.
Proof.
  revert prev. induction pre as [|c pre IH]; intros prev H; [apply arrives_here|].
  simpl in H. apply andb_true_iff in H as [Hc H]. rewrite app_cons.
  apply arrives_skip.
  - apply re_code_first. unfold Chars.not_char in Hc.
    destruct (Ascii.eqb "c" c); [discriminate | reflexivity].
  - replace (last_or prev (String c pre)) with (last_or (Some c) pre); [apply IH, H|].
    unfold last_or. destruct pre as [|b pre]; [reflexivity|].
    change (Str.last (String c (String b pre))) with (Str.last (String b pre)).
    destruct (last_some b pre) as [x ->]. reflexivity.
Qed.

(** *** No doubled star in a discovered code *)

Lemma with_domain_starless s : starless s -> starless (_with_domain s).
Proof.
  unfold starless, _with_domain. intros H. destruct (contains ":" s); [exact H|].
  rewrite contains2_app, H. reflexivity.
Qed.

Lemma sibling_starless b : starless b -> starless (b +:+ "-*").
Proof.
  unfold starless. intros H. rewrite contains2_app, H.
  rewrite andb_false_r. reflexivity.
Qed.

Lemma base_starless val : starless (_with_domain (_norm_pattern val)).
Proof. apply with_domain_starless, norm_pattern_clean. Qed.

Lemma foldl_inv {A B} (I : A -> Prop) (f : A -> B -> A) l acc :
  (forall a b, I a -> I (f a b)) -> I acc -> I (foldl f acc l).
Proof.
  intros Hf. revert acc. induction l as [|b l IH]; intros acc H; [exact H|].
  simpl. apply IH, Hf, H.
Qed.

Lemma add_code_starless a m :
  set_Forall starless a -> set_Forall starless (add_code a m).
Proof.
  intros H. unfold add_code. destruct (quoted_value m); [|exact H].
  apply set_Forall_union; [apply set_Forall_singleton, base_starless | exact H].
Qed.

Lemma add_code_and_sibling_starless a m :
  set_Forall starless a -> set_Forall starless (add_code_and_sibling a m).
Proof.
  intros H. unfold add_code_and_sibling. destruct (quoted_value m); [|exact H].
  cbv zeta. destruct (negb _ && negb _).
  - apply set_Forall_union; [apply set_Forall_singleton, sibling_starless, base_starless|].
    apply set_Forall_union; [apply set_Forall_singleton, base_starless | exact H].
  - apply set_Forall_union; [apply set_Forall_singleton, base_starless | exact H].
Qed.

Lemma add_list_body_starless a m :
  set_Forall starless a -> set_Forall starless (add_list_body a m).
Proof. intros H. unfold add_list_body. apply foldl_inv; [apply add_code_starless | exact H]. Qed.

Lemma discovered_starless text : set_Forall starless (_discover_codes_in_text text).
Proof.
  unfold _discover_codes_in_text.
  apply foldl_inv; [apply add_list_body_starless|].
  apply foldl_inv; [apply add_list_body_starless|].
  apply foldl_inv; [apply add_code_starless|].
  apply foldl_inv; [apply add_code_and_sibling_starless|].
  apply set_Forall_empty.
Qed.

End ExtractFacts.

Module CorpusFacts.
Import Str StrFacts Re ReFacts NormFacts ExtractFacts.

Lemma sound_word run rest :
  all (Chars.icase Chars.is_ident) run = true -> 1 <= String.length run ->
  ident_word (consumed (run +:+ rest) rest).
Proof.
  intros Hall Hlen. rewrite consumed_app. split; [exact Hall|].
  destruct run; [simpl in Hlen; lia | reflexivity].
Qed.

Lemma rex_dom_groups prev s m :
  match_at rex_dom prev s = Some m ->
  exists d b t, m_groups m = [(3, t); (2, b); (1, d)]
    /\ ident_word d /\ ident_word b /\ ident_word t.
Proof.
  unfold match_at, rex_dom, ident. cbn [run cat].
  destruct (xorb _ _); [|discriminate].
  intros (r1 & s1 & p1 & -> & Ha1 & Hl1 & H)%rep_greedy_sound.
  destruct s1 as [|c1 s1]; [discriminate|].
  destruct (Ascii.eqb colon c1); [|discriminate].
  apply rep_greedy_sound in H as (r2 & s2 & p2 & -> & Ha2 & Hl2 & H).
  destruct s2 as [|c2 s2]; [discriminate|].
  destruct (Ascii.eqb dash c2); [|discriminate].
  apply rep_greedy_sound in H as (r3 & s3 & p3 & -> & Ha3 & Hl3 & H).
  destruct (xorb _ _); [|discriminate]. injection H as <-.
  eexists _, _, _. split; [reflexivity|]. auto using sound_word.
Qed.

Lemma rex_nodom_groups prev s m :
  match_at rex_nodom prev s = Some m ->
  exists b t, m_groups m = [(2, t); (1, b)] /\ ident_word b /\ ident_word t.
Proof.
  unfold match_at, rex_nodom, ident. cbn [run cat].
  destruct (xorb _ _); [|discriminate].
  intros (r1 & s1 & p1 & -> & Ha1 & Hl1 & H)%rep_greedy_sound.
  destruct s1 as [|c1 s1]; [discriminate|].
  destruct (Ascii.eqb dash c1); [|discriminate].
  apply rep_greedy_sound in H as (r2 & s2 & p2 & -> & Ha2 & Hl2 & H).
  destruct (xorb _ _); [|discriminate]. injection H as <-.
  eexists _, _. split; [reflexivity|]. auto using sound_word.
Qed.

(** *** The shape of a key *)

Lemma all_map (p : ascii -> bool) (f : ascii -> ascii) (s : string) :
  all p (Str.map f s) = all (fun c => p (f c)) s.
Proof. induction s as [|c s IH]; [reflexivity|]. simpl. rewrite IH. reflexivity. Qed.

Lemma ident_word_lower g :
  ident_word g ->
  all Chars.is_ident (Str.lower g) = true /\ truthy (Str.lower g) = true.
Proof.
  intros [Ha Ht]. split.
  - unfold Str.lower. rewrite all_map. exact Ha.
  - destruct g; [discriminate | reflexivity].
Qed.

Lemma split_last (s : string) :
  truthy s = true -> exists s0 x, s = s0 +:+ String x EmptyString.
Proof.
  induction s as [|c s IH]; [discriminate|]. intros _.
  destruct s as [|b s].
  - exists EmptyString, c. reflexivity.
  - destruct (IH eq_refl) as (s0 & x & Hs). exists (String c s0), x.
    rewrite app_cons, <- Hs. reflexivity.
Qed.

Lemma all_last (p : ascii -> bool) s0 x :
  all p (s0 +:+ String x EmptyString) = true -> p x = true.
Proof.
  intros H. apply all_suffix in H. simpl in H.
  apply andb_true_iff in H as [H _]. exact H.
Qed.

(** A string that ends with a word of a class does not end in a
    character outside the class. *)
Lemma word_end (p : ascii -> bool) (c : ascii) (y w : string) :
  all p w = true -> truthy w = true -> p c = false ->
  ends_with (String c EmptyString) (y +:+ w) = false.
Proof.
  intros Ha Ht Hc. destruct (split_last w Ht) as (w0 & x & ->).
  apply all_last in Ha. rewrite <- app_assoc, ends_with1_app1.
  apply Ascii.eqb_neq. intros <-. congruence.
Qed.

Lemma key_one_dash d b :
  ident_word b ->
  ends_with "-" (make_key d b) = true /\ ends_with "--" (make_key d b) = false.
Proof.
  intros [Ha Ht]. unfold make_key.
  replace (d +:+ ":" +:+ b +:+ "-") with ((d +:+ ":") +:+ b +:+ "-")
    by (rewrite !app_assoc; reflexivity).
  rewrite <- app_assoc.
  split; [apply ends_with_app|].
  rewrite ends_with2_app1. rewrite (word_end _ _ _ _ Ha Ht); reflexivity.
Qed.

(** *** Every entry of the corpus is well formed *)

Lemma add_good v d b t :
  good v -> all Chars.is_ident d = true -> truthy d = true ->
  (truthy b = true -> ident_word b) ->
  good (add v d b t).
Proof.
  intros Hv Hd Hdt Hb. unfold add.
  destruct (truthy b) eqn:Eb; [|exact Hv]. destruct (truthy t) eqn:Et; [|exact Hv].
  simpl. apply map_Forall_insert_2; [|exact Hv].
  split; [|split].
  - exists d, b. specialize (Hb eq_refl). destruct (key_one_dash d b Hb).
    unfold make_key in *. auto 10.
  - set_solver.
  - intros t' [->%elem_of_singleton|Ht']%elem_of_union; [exact Et|].
    destruct (v !! _) as [old|] eqn:E; simpl in Ht'; [|set_solver].
    apply Hv in E as (_ & _ & E). auto.
Qed.

Lemma foldl_inv_In {A B} (I : A -> Prop) (f : A -> B -> A) l acc :
  (forall a b, In b l -> I a -> I (f a b)) -> I acc -> I (foldl f acc l).
Proof.
  revert acc. induction l as [|b l IH]; intros acc Hf H; [exact H|].
  simpl. apply IH; [intros; apply Hf; simpl; auto | apply Hf; simpl; auto].
Qed.

Lemma add_dom_good v m prev s :
  match_at rex_dom prev s = Some m -> good v -> good (add_dom v m).
Proof.
  intros (d & b & t & Hg & Hd & Hb & Ht)%rex_dom_groups Hv. unfold add_dom.
  rewrite Hg. cbn [group Nat.eqb]. destruct (ident_word_lower d Hd). apply add_good; auto.
Qed.

Lemma add_nodom_good v m prev s :
  match_at rex_nodom prev s = Some m -> good v -> good (add_nodom v m).
Proof.
  intros (b & t & Hg & Hb & Ht)%rex_nodom_groups Hv. unfold add_nodom.
  rewrite Hg. cbn [group Nat.eqb]. destruct (_ || _); [exact Hv|]. apply add_good; auto.
Qed.

Lemma scan_text_good v txt : good v -> good (scan_text v txt).
Proof.
  intros Hv. unfold scan_text.
  apply foldl_inv_In.
  - intros a m (prev & s & Hm)%finditer_In. eapply add_nodom_good, Hm.
  - apply foldl_inv_In; [|exact Hv].
    intros a m (prev & s & Hm)%finditer_In. eapply add_dom_good, Hm.
Qed.

Lemma corpus_good h survival : good (_collect_corpus_variants h survival).
Proof.
  unfold _collect_corpus_variants. apply foldl_inv; [|apply map_Forall_empty].
  intros a full Ha. destruct (read_text h full); [apply scan_text_good, Ha | exact Ha].
Qed.

(** *** What the corpus holds at a key *)

Lemma add_tokens v d b t key x :
  x ∈ tokens_at (add v d b t) key <->
  x ∈ tokens_at v key
  \/ (truthy b = true /\ truthy t = true /\ key = make_key d b /\ x = t).
Proof.
  unfold add, tokens_at.
  destruct (truthy b) eqn:Eb; [|simpl; intuition congruence].
  destruct (truthy t) eqn:Et; [|simpl; intuition congruence].
  simpl. fold (make_key d b).
  destruct (decide (key = make_key d b)) as [->|Hne].
  - rewrite lookup_insert_eq. simpl. rewrite elem_of_union, elem_of_singleton. tauto.
  - rewrite lookup_insert_ne by congruence. intuition congruence.
Qed.

Lemma add_dom_entry v m : add_dom v m = add_entry v (dom_entry m).
Proof.
  unfold add_dom, dom_entry.
  destruct (group (m_groups m) 1), (group (m_groups m) 2), (group (m_groups m) 3);
    reflexivity.
Qed.

Lemma add_nodom_entry v m : add_nodom v m = add_entry v (nodom_entry m).
Proof.
  unfold add_nodom, nodom_entry.
  destruct (group (m_groups m) 1), (group (m_groups m) 2); try reflexivity.
  destruct (_ || _); reflexivity.
Qed.

Lemma fold_tokens {M} (f : gmap string (gset string) -> M -> gmap string (gset string))
    (e : M -> entry) ms v key x :
  (forall v m, f v m = add_entry v (e m)) ->
  x ∈ tokens_at (foldl f v ms) key <->
  x ∈ tokens_at v key
  \/ exists m d b, In m ms /\ e m = Some (d, b, x)
       /\ truthy b = true /\ truthy x = true /\ key = make_key d b.
Proof.
  intros Hf. revert v. induction ms as [|m ms IH]; intros v; simpl.
  - split; [auto | intros [H | (m & d & b & [] & _)]; exact H].
  - rewrite IH, Hf. unfold add_entry. destruct (e m) as [[[d b] t]|] eqn:E.
    + rewrite add_tokens. split.
      * intros [[H | (Hb & Ht & -> & ->)] | (m' & d' & b' & Hin & H)]; [auto | right..].
        -- exists m, d, b. auto.
        -- exists m', d', b'. tauto.
      * intros [H | (m' & d' & b' & [<- | Hin] & He & Hb & Ht & ->)]; [auto | |].
        -- rewrite E in He. injection He as <- <- <-. auto 10.
        -- right. exists m', d', b'. auto.
    + split.
      * intros [H | (m' & d' & b' & Hin & H)]; [auto | right].
        exists m', d', b'. tauto.
      * intros [H | (m' & d' & b' & [<- | Hin] & He & H)]; [auto | congruence |].
        right. exists m', d', b'. auto.
Qed.

Lemma contains1_all (p : ascii -> bool) (c : ascii) (s : string) :
  all p s = true -> p c = false -> contains (String c EmptyString) s = false.
Proof.
  intros Ha Hc. induction s as [|a s IH]; [reflexivity|].
  simpl in *. apply andb_true_iff in Ha as [Ha Hs]. rewrite (IH Hs), orb_false_r.
  rewrite andb_true_r. apply Ascii.eqb_neq. intros <-. congruence.
Qed.

Lemma ident_word_starless w : ident_word w -> contains "*" w = false.
Proof. intros [Ha _]. eapply contains1_all; [exact Ha | reflexivity]. Qed.

(** The entries of a text are its occurrences. *)
Lemma scan_text_tokens v txt key x :
  x ∈ tokens_at (scan_text v txt) key <->
  x ∈ tokens_at v key \/ exists d b, key = make_key d b /\ occurs_in_text txt d b x.
Proof.
  unfold scan_text.
  rewrite (fold_tokens add_nodom nodom_entry) by apply add_nodom_entry.
  rewrite (fold_tokens add_dom dom_entry) by apply add_dom_entry.
  split.
  - intros [[H | (m & d & b & Hin & He & _ & _ & ->)] | (m & d & b & Hin & He & _ & _ & ->)];
      [auto | right; exists d, b; split; [reflexivity|]..].
    + left. unfold dom_entry in He.
      destruct (group _ 1) as [g|] eqn:E1; [|discriminate].
      destruct (group _ 2) as [b'|] eqn:E2; [|discriminate].
      destruct (group _ 3) as [t'|] eqn:E3; [|discriminate].
      injection He as <- <- <-. exists m, g. auto.
    + right. unfold nodom_entry in He.
      destruct (group _ 1) as [b'|] eqn:E1; [|discriminate].
      destruct (group _ 2) as [t'|] eqn:E2; [|discriminate].
      destruct (_ || _); [discriminate|].
      injection He as <- <- <-. exists m. auto.
  - intros [H | (d & b & -> & [(m & g & Hin & E1 & E2 & E3 & ->) | (m & Hin & E1 & E2 & ->)])];
      [auto | |].
    + left; right. exists m, (Str.lower g), b.
      destruct (finditer_In _ _ _ Hin) as (prev & s & Hm).
      apply rex_dom_groups in Hm as (d' & b' & t' & Hg & Hd & Hb & Ht).
      rewrite Hg in E1, E2, E3. cbn [group Nat.eqb] in E1, E2, E3.
      injection E1 as <-. injection E2 as <-. injection E3 as <-.
      unfold dom_entry. rewrite Hg. cbn [group Nat.eqb].
      destruct Hb, Ht. auto 10.
    + right. exists m, "game", b.
      destruct (finditer_In _ _ _ Hin) as (prev & s & Hm).
      apply rex_nodom_groups in Hm as (b' & t' & Hg & Hb & Ht).
      rewrite Hg in E1, E2. cbn [group Nat.eqb] in E1, E2.
      injection E1 as <-. injection E2 as <-.
      unfold nodom_entry. rewrite Hg. cbn [group Nat.eqb].
      rewrite (ident_word_starless _ Hb), (ident_word_starless _ Ht).
      destruct Hb, Ht. auto 10.
Qed.

Lemma files_tokens h files v key x :
  x ∈ tokens_at
        (foldl (fun variants full =>
                  match read_text h full with
                  | Some txt => scan_text variants txt
                  | None => variants
                  end) v files) key <->
  x ∈ tokens_at v key
  \/ exists d b full txt, key = make_key d b /\ In full files
       /\ read_text h full = Some txt /\ occurs_in_text txt d b x.
Proof.
  revert v. induction files as [|f files IH]; intros v; simpl.
  - split; [auto | intros [H | (d & b & full & txt & _ & [] & _)]; exact H].
  - rewrite IH. destruct (read_text h f) as [txt|] eqn:E.
    + rewrite scan_text_tokens. split.
      * intros [[H | (d & b & -> & H)] | (d & b & full & txt' & -> & Hin & H)];
          [auto | right..].
        -- exists d, b, f, txt. auto.
        -- exists d, b, full, txt'. tauto.
      * intros [H | (d & b & full & txt' & -> & [<- | Hin] & Hr & H)]; [auto | |].
        -- rewrite E in Hr. injection Hr as <-. left; right. eauto.
        -- right. exists d, b, full, txt'. auto.
    + split.
      * intros [H | (d & b & full & txt' & -> & Hin & H)]; [auto | right].
        exists d, b, full, txt'. tauto.
      * intros [H | (d & b & full & txt' & -> & [<- | Hin] & Hr & H)];
          [auto | congruence |].
        right. exists d, b, full, txt'. auto.
Qed.

Lemma corpus_tokens h survival key x :
  x ∈ tokens_at (_collect_corpus_variants h survival) key <->
  exists d b, key = make_key d b /\ occurs h survival d b x.
Proof.
  unfold _collect_corpus_variants. rewrite files_tokens. unfold tokens_at, occurs.
  rewrite lookup_empty. simpl. split.
  - intros [H | (d & b & full & txt & -> & H)]; [set_solver|]. eauto 10.
  - intros (d & b & -> & full & txt & H). right. eauto 10.
Qed.

Lemma all_impl (p q : ascii -> bool) s :
  (forall c, p c = true -> q c = true) -> all p s = true -> all q s = true.
Proof.
  intros Hpq. induction s as [|c s IH]; [reflexivity|]. simpl.
  intros [Hc Hs]%andb_true_iff. rewrite (Hpq _ Hc), IH; auto.
Qed.

Lemma ident_no_colon c : Chars.is_ident c = true -> no_colon c = true.
Proof.
  intros H. unfold no_colon, Chars.not_char.
  destruct (Ascii.eqb_spec colon c) as [<-|]; [discriminate H | reflexivity].
Qed.

Lemma occurs_domain txt d b t :
  occurs_in_text txt d b t -> all no_colon d = true.
Proof.
  intros [(m & g & Hin & E1 & _ & _ & ->) | (m & _ & _ & _ & ->)]; [|reflexivity].
  destruct (finditer_In _ _ _ Hin) as (prev & s & Hm).
  apply rex_dom_groups in Hm as (d' & b' & t' & Hg & Hd & _).
  rewrite Hg in E1. cbn [group Nat.eqb] in E1. injection E1 as <-.
  apply ident_word_lower in Hd as [Hd _].
  eapply all_impl; [apply ident_no_colon | exact Hd].
Qed.

Lemma split_colon d d' x x' :
  all no_colon d = true -> all no_colon d' = true ->
  d +:+ String colon x = d' +:+ String colon x' -> d = d' /\ x = x'.
Proof.
  revert d'. induction d as [|c d IH]; intros [|c' d'] Hd Hd'; rewrite ?app_cons, ?app_nil_l.
  - intros [= ->]. auto.
  - intros [= <- _]. simpl in Hd'. discriminate Hd'.
  - intros [= -> _]. simpl in Hd. discriminate Hd.
  - simpl in Hd, Hd'. apply andb_true_iff in Hd as [_ Hd].
    apply andb_true_iff in Hd' as [_ Hd'].
    intros [= -> H]. destruct (IH d' Hd Hd' H) as [-> ->]. auto.
Qed.

Lemma app1_inj (b b' : string) (c : ascii) :
  b +:+ String c EmptyString = b' +:+ String c EmptyString -> b = b'.
Proof.
  intros H. rewrite <- (drop_last_app1 b c), <- (drop_last_app1 b' c), H. reflexivity.
Qed.

Lemma make_key_inj d b d' b' :
  all no_colon d = true -> all no_colon d' = true ->
  make_key d b = make_key d' b' -> d = d' /\ b = b'.
Proof.
  intros Hd Hd' H. unfold make_key in H.
  change (d +:+ String colon (b +:+ "-") = d' +:+ String colon (b' +:+ "-")) in H.
  apply split_colon in H as [-> H]; auto. apply app1_inj in H. auto.
Qed.

End CorpusFacts.

Module ScanFacts.
Import Str StrFacts Re ReFacts NormFacts ExtractFacts CorpusFacts.

Lemma ident_is_word c : ident_ic c = true -> Chars.is_word c = true.
Proof.
  destruct c as [[] [] [] [] [] [] [] []]; intros H;
    solve [reflexivity | discriminate H].
Qed.

Lemma run_length_word p w rest :
  all p w = true -> match rest with String c _ => p c = false | EmptyString => True end ->
  run_length p (w +:+ rest) = String.length w /\ lstrip p (w +:+ rest) = rest.
Proof.
  intros Hw Hr. induction w as [|a w IH].
  - rewrite app_nil_l. destruct rest as [|c r]; [auto|]. simpl. rewrite Hr. auto.
  - rewrite app_cons. simpl in *. apply andb_true_iff in Hw as [-> Hw].
    destruct (IH Hw) as [-> ->]. auto.
Qed.

Lemma run_prev_word p prev w rest :
  all p w = true -> match rest with String c _ => p c = false | EmptyString => True end ->
  run_prev p prev (w +:+ rest) = last_or prev w.
Proof.
  intros Hw Hr. revert prev. induction w as [|a w IH]; intros prev.
  - rewrite app_nil_l. destruct rest as [|c r]; [reflexivity|]. simpl. rewrite Hr. reflexivity.
  - rewrite app_cons. simpl in *. apply andb_true_iff in Hw as [-> Hw].
    rewrite (IH Hw). unfold last_or. destruct w as [|b w]; [reflexivity|].
    change (Str.last (String a (String b w))) with (Str.last (String b w)).
    destruct (last_some b w) as [x ->]. reflexivity.
Qed.

(** A greedy repetition over a word of the class that ends there. *)
Lemma rep_greedy_word p min prev w rest k m :
  all p w = true -> match rest with String c _ => p c = false | EmptyString => True end ->
  min <= String.length w ->
  k (last_or prev w) rest = Some m ->
  rep_greedy p min prev (w +:+ rest) k = Some m.
Proof.
  intros Hw Hr Hmin Hk. destruct (run_length_word p w rest Hw Hr) as [Hl Hs].
  apply rep_greedy_longest; [lia|]. rewrite Hs, run_prev_word; assumption.
Qed.

Lemma last_word p w :
  all p w = true -> truthy w = true -> exists x, Str.last w = Some x /\ p x = true.
Proof.
  intros Ha Ht. destruct (split_last w Ht) as (w0 & x & ->).
  exists x. split; [|eapply all_last, Ha].
  clear. induction w0 as [|c w0 IH]; [reflexivity|]. rewrite app_cons.
  destruct w0; [reflexivity | exact IH].
Qed.

Lemma word_at_last prev w :
  ident_word w -> word_at (last_or prev w) = true.
Proof.
  intros [Ha Ht]. destruct (last_word _ _ Ha Ht) as (x & Hx & Hp).
  unfold last_or. rewrite Hx. simpl. apply ident_is_word, Hp.
Qed.

Lemma head_not_ident rest :
  word_at (Str.head rest) = false ->
  match rest with String c _ => ident_ic c = false | EmptyString => True end.
Proof.
  destruct rest as [|c r]; [auto|]. simpl. intros H.
  destruct (ident_ic c) eqn:E; [|reflexivity]. apply ident_is_word in E. congruence.
Qed.

(** The bare pattern matches [base-token] between two word boundaries. *)
Lemma rex_nodom_word prev b t post :
  word_at prev = false -> ident_word b -> ident_word t ->
  word_at (Str.head post) = false ->
  exists m, match_at rex_nodom prev (b +:+ String dash (t +:+ post)) = Some m
            /\ m_groups m = [(2, t); (1, b)].
Proof.
  intros Hprev Hb Ht Hpost. unfold match_at, rex_nodom, ident. cbn [run cat].
  fold ident_ic. rewrite Hprev.
  assert (word_at (Str.head (b +:+ String dash (t +:+ post))) = true) as ->.
  { destruct Hb as [Hb Hbt]. destruct b as [|c b]; [discriminate|].
    simpl in Hb. apply andb_true_iff in Hb as [Hc _].
    rewrite app_cons. simpl. apply ident_is_word, Hc. }
  eexists. split.
  - cbn [xorb]. apply rep_greedy_word; [apply Hb | reflexivity | |].
    { destruct Hb as [_ Hb]. destruct b; [discriminate | simpl; lia]. }
    rewrite Ascii.eqb_refl.
    apply rep_greedy_word; [apply Ht | apply head_not_ident, Hpost | |].
    { destruct Ht as [_ Ht]. destruct t; [discriminate | simpl; lia]. }
    rewrite (word_at_last _ t Ht), Hpost. reflexivity.
  - cbn [m_groups]. rewrite !consumed_app. reflexivity.
Qed.

(** *** The scan cannot jump over a character no match can hold *)

Section Separator.
Context (r : regex) (q : ascii -> bool).
Hypothesis shape : forall prev s m,
  match_at r prev s = Some m ->
  exists w, s = w +:+ m_rest m /\ truthy w = true /\ all q w = true.

Lemma sep_split x w y s1 rest :
  all q w = true -> q x = false ->
  w +:+ y = s1 +:+ String x rest ->
  exists s1', s1 = w +:+ s1' /\ y = s1' +:+ String x rest.
Proof.
  intros Hw Hx. revert s1. induction w as [|a w IH]; intros s1 H.
  - exists s1. auto.
  - simpl in Hw. apply andb_true_iff in Hw as [Ha Hw].
    destruct s1 as [|a' s1]; rewrite ?app_cons, ?app_nil_l in H.
    + injection H as -> _. congruence.
    + injection H as <- H. destruct (IH Hw _ H) as (s1' & -> & ->).
      exists s1'. auto.
Qed.

Lemma arrives_after x s1 prev rest :
  q x = false -> arrives r prev (s1 +:+ String x rest) (Some x) rest.
Proof.
  intros Hx. remember (String.length s1) as n eqn:Hn.
  revert s1 prev Hn. induction n as [n IH] using lt_wf_ind. intros s1 prev ->.
  destruct (match_at r prev (s1 +:+ String x rest)) as [m|] eqn:E.
  - destruct (shape _ _ _ E) as (w & Hs & Ht & Hw).
    destruct (sep_split x w _ s1 rest Hw Hx (eq_sym Hs)) as (s1' & -> & Hrest).
    assert (0 < String.length w) by (destruct w; [discriminate | simpl; lia]).
    eapply arrives_match; [exact E | |].
    + rewrite Hrest. repeat rewrite length_app. lia.
    + rewrite Hrest. eapply IH; [|reflexivity]. rewrite length_app. lia.
  - destruct s1 as [|a s1].
    + rewrite app_nil_l in *. apply arrives_skip; [exact E | apply arrives_here].
    + rewrite app_cons in *. apply arrives_skip; [exact E|].
      eapply IH; [|reflexivity]. simpl. lia.
Qed.

End Separator.

Lemma rex_nodom_shape prev s m :
  match_at rex_nodom prev s = Some m ->
  exists w, s = w +:+ m_rest m /\ truthy w = true /\ all ident_or_dash w = true.
Proof.
  unfold match_at, rex_nodom, ident. cbn [run cat]. fold ident_ic.
  destruct (xorb _ _); [|discriminate].
  intros (r1 & s1 & p1 & -> & Ha1 & Hl1 & H)%rep_greedy_sound.
  destruct s1 as [|c1 s1]; [discriminate|].
  destruct (Ascii.eqb_spec dash c1) as [<-|]; [|discriminate].
  apply rep_greedy_sound in H as (r2 & s2 & p2 & -> & Ha2 & Hl2 & H).
  destruct (xorb _ _); [|discriminate]. injection H as <-. cbn [m_rest].
  exists (r1 +:+ String dash r2). split; [|split].
  - rewrite app_assoc, app_cons. reflexivity.
  - destruct r1; [simpl in Hl1; lia | reflexivity].
  - assert (forall w, all ident_ic w = true -> all ident_or_dash w = true) as Hi.
    { intros w. apply all_impl. intros c Hc. unfold ident_or_dash. rewrite Hc. reflexivity. }
    apply all_app; [apply Hi, Ha1|].
    change (ident_or_dash dash && all ident_or_dash r2 = true).
    rewrite (Hi _ Ha2). reflexivity.
Qed.

(** A bare triple after a character that is neither of a word nor a dash
    is an occurrence, whatever comes before. *)
Lemma bare_occurrence pre x b t post :
  ident_or_dash x = false -> Chars.is_word x = false ->
  ident_word b -> ident_word t -> word_at (Str.head post) = false ->
  occurs_in_text (pre +:+ String x (b +:+ String dash (t +:+ post))) "game" b t.
Proof.
  intros Hx Hw Hb Ht Hpost. right.
  destruct (rex_nodom_word (Some x) b t post Hw Hb Ht Hpost) as (m & Hm & Hg).
  exists m. rewrite Hg. cbn [group Nat.eqb]. repeat split.
  eapply arrives_finds; [|exact Hm].
  apply (arrives_after rex_nodom ident_or_dash rex_nodom_shape). exact Hx.
Qed.

End ScanFacts.

Module ClaimFacts.
Import Str StrFacts Re ReFacts NormFacts ExtractFacts CorpusFacts ScanFacts Wildcard.

(** *** The normalizer run again *)

Lemma normalize_idem (ing : Ingredient) :
  _normalize_wildcard_code (_normalize_wildcard_code ing)
  = _normalize_wildcard_code ing.
Proof.
  destruct (ends_with "*" (code ing)) eqn:E.
  - pose proof (normalize_wild_base ing E) as Hc.
    pose proof (normalize_variants ing) as Hv.
    set (ing' := _normalize_wildcard_code ing) in *.
    assert (ends_with "*" (code ing') = true) as E'.
    { rewrite Hc. destruct (scoped ing); simpl suffix_for;
        [rewrite app2|]; apply ends_with_app. }
    assert (stripped_base (code ing') = stripped_base (code ing)) as Hb.
    { rewrite Hc. apply tidy_build_base, stripped_base_no_dash. }
    assert (scoped ing' = scoped ing) as Hs by (unfold scoped; rewrite Hv; reflexivity).
    assert (code (_normalize_wildcard_code ing') = code ing') as Hcode.
    { rewrite (normalize_wild_base ing' E'), Hb, Hs, Hc. reflexivity. }
    clearbody ing'. revert Hcode. unfold _normalize_wildcard_code.
    rewrite E', (ends_with_nonempty _ _ _ E'). cbn [negb orb].
    destruct ing' as [c q t tc sy nm av]. cbn [allowed_variants code].
    destruct av; simpl; intros ->; reflexivity.
  - rewrite (normalize_not_wild ing E). apply normalize_not_wild, E.
Qed.

Lemma normalize_iter (ing : Ingredient) (n : nat) :
  Nat.iter (S n) _normalize_wildcard_code ing = _normalize_wildcard_code ing.
Proof.
  induction n as [|n IH]; [reflexivity|].
  change (Nat.iter (S (S n)) _normalize_wildcard_code ing)
    with (_normalize_wildcard_code (Nat.iter (S n) _normalize_wildcard_code ing)).
  rewrite IH. apply normalize_idem.
Qed.

(** *** The candidate loop *)

Lemma try_candidates_first h before cand after logs :
  (forall c, In c before -> _validate_survival_dir h c = false) ->
  _validate_survival_dir h cand = true ->
  try_candidates h (before ++ cand :: after) logs
  = (Some cand,
     logs ++ List.map (fun c => try_line c false) before
          ++ [try_line cand true; found_line cand]).
Proof.
  revert logs. induction before as [|c before IH]; intros logs Hb Hc; simpl.
  - rewrite Hc. rewrite <- List.app_assoc. reflexivity.
  - rewrite (Hb c) by (left; reflexivity).
    rewrite IH; [| intros; apply Hb; right; assumption | exact Hc].
    rewrite <- List.app_assoc. reflexivity.
Qed.

(** *** The empty grid *)

Lemma pattern_of_empty_grid (a : App) :
  grid_items a = empty_grid -> _build_ingredient_pattern a = ("___,___,___", a).
Proof. destruct a. simpl. intros ->. reflexivity. Qed.

Lemma dict_of_empty_grid (a : App) :
  grid_items a = empty_grid -> _collect_ingredients_dict a = (∅, a).
Proof. destruct a. simpl. intros ->. reflexivity. Qed.

(** *** Lower case *)

Lemma is_ident_lower c : Chars.is_ident c = true -> Chars.lower c = c.
Proof.
  destruct c as [[] [] [] [] [] [] [] []]; intros H;
    solve [reflexivity | discriminate H].
Qed.

Lemma all_ident_lower d : all Chars.is_ident d = true -> Str.lower d = d.
Proof.
  induction d as [|c d IH]; [reflexivity|]. simpl.
  intros [Hc Hd]%andb_true_iff. unfold Str.lower in *. simpl.
  rewrite (is_ident_lower c Hc), (IH Hd). reflexivity.
Qed.

End ClaimFacts.

Module IngotFacts.
Import Str StrFacts Re ReFacts ExtractFacts CorpusFacts ScanFacts.

Lemma lookup_of_token (v : gmap string (gset string)) key x :
  x ∈ tokens_at v key -> exists tokens, v !! key = Some tokens /\ x ∈ tokens.
Proof.
  unfold tokens_at. destruct (v !! key) as [tokens|]; simpl; [eauto | set_solver].
Qed.

Lemma occurs_inserted h survival d b t :
  occurs h survival d b t ->
  exists tokens, _collect_corpus_variants h survival !! make_key d b = Some tokens
                 /\ t ∈ tokens.
Proof. intros H. apply lookup_of_token, corpus_tokens. eauto. Qed.

(** A file that holds [game:ingot-] and a token, ended there, has the
    occurrence, by the bare rule after the colon. *)
Lemma ingot_word_occurs h survival t :
  ident_word t ->
  file_has_word h survival ("game:ingot-" +:+ t) ->
  occurs h survival "game" "ingot" t.
Proof.
  intros Ht (full & pre & post & Hin & Hread & Hpost).
  exists full, (pre +:+ ("game:ingot-" +:+ t) +:+ post).
  split; [exact Hin|]. split; [exact Hread|].
  replace (pre +:+ ("game:ingot-" +:+ t) +:+ post)
    with ((pre +:+ "game") +:+ String colon ("ingot" +:+ String dash (t +:+ post))).
  - apply bare_occurrence; try reflexivity; try assumption. split; reflexivity.
  - rewrite !app_assoc. reflexivity.
Qed.

Lemma ingot_key_occurs h survival d b x :
  "game:ingot-" = make_key d b -> occurs h survival d b x ->
  occurs h survival "game" "ingot" x.
Proof.
  intros Hkey Ho. destruct Ho as (full & txt & Hin & Hread & Ht).
  pose proof (occurs_domain _ _ _ _ Ht) as Hd.
  destruct (make_key_inj "game" "ingot" d b eq_refl Hd Hkey) as [<- <-].
  exists full, txt. auto.
Qed.

End IngotFacts.

(** *** The model on small inputs *)

Module Examples.

Example norm_pattern_placeholders :
  _norm_pattern "  ingot-{metal}-{a}{b}**x  " = "ingot-*-*x".
Proof. reflexivity. Qed.

Example norm_pattern_empty_braces : _norm_pattern "{}{{}a}" = "{}*a}".
Proof. reflexivity. Qed.

Example code_path_rule :
  _discover_codes_in_text ("code: { type: 1, path: " +:+ quoted "foo-*" +:+ " }")
  = {[ "game:foo-*" ]}.
Proof. vm_compute. reflexivity. Qed.

Example list_rules :
  _discover_codes_in_text
    ("allowedVariants: [ " +:+ quoted "a" +:+ ", 'mod:b-{x}' ] groupBy: ['c']")
  = {[ "game:a"; "mod:b-*"; "game:c" ]}.
Proof. vm_compute. reflexivity. Qed.

Example sample_discovery :
  discover_game_codes Sample.host (Some "VINTAGE_STORY") None
  = (["game:ingot"; "game:ingot-*"], Some "/vs/assets/survival").
Proof. vm_compute. reflexivity. Qed.

Example sample_corpus :
  _collect_corpus_variants Sample.host "/vs/assets/survival"
  = {[ "game:ingot-" := {[ "copper"; "iron" ]} ]}.
Proof. vm_compute. reflexivity. Qed.

(** Every line of an ingredient ends in two closing braces. *)
Example sample_export :
  (build_json5_text Sample.host Sample.plank_and_log).1
  = Str.join newline
      [ "[";
        tab +:+ "{";
        tab +:+ tab +:+ "ingredientPattern: " +:+ quoted "AB_,___,___" +:+ ",";
        tab +:+ tab +:+ "shapeless: false,";
        tab +:+ tab +:+ "ingredients: {";
        tab +:+ tab +:+ tab +:+ quoted "A" +:+ ": { type: " +:+ quoted "item"
          +:+ ", code: " +:+ quoted "game:plank" +:+ " }},";
        tab +:+ tab +:+ tab +:+ quoted "B" +:+ ": { type: " +:+ quoted "item"
          +:+ ", code: " +:+ quoted "game:log" +:+ " }}";
        tab +:+ tab +:+ "},";
        tab +:+ tab +:+ "width: 3,";
        tab +:+ tab +:+ "height: 3,";
        tab +:+ tab +:+ "output: { type: " +:+ quoted "item"
          +:+ ", code: " +:+ quoted "game:__set_output__" +:+ " }";
        tab +:+ "},";
        "]" ].
Proof. vm_compute. reflexivity. Qed.

Example symbol_for_new_code :
  (_symbol_for_code "game:stick" Sample.plank_and_log).1 = "C".
Proof. vm_compute. reflexivity. Qed.

End Examples.


(* ================================================================== *)
(** * Facts about the window, the grid and the export *)

(** ** What a match is made of *)

Module WithinFacts.
Import Str StrFacts Re ReFacts NormFacts ExtractFacts.

Lemma rep_lazy_sound (p : ascii -> bool) k min prev s m :
  rep_lazy p min prev s k = Some m ->
  exists run rest prev',
    s = run +:+ rest /\ all p run = true /\ min <= String.length run
    /\ k prev' rest = Some m.
Proof.
  revert min prev. induction s as [|c s IH]; intros min prev; simpl.
  - destruct min; [|discriminate].
    destruct (k prev EmptyString) eqn:E; [|discriminate]. intros [= <-].
    exists EmptyString, EmptyString, prev. auto.
  - destruct (match min with 0 => k prev (String c s) | S _ => None end) eqn:E.
    + intros [= <-]. destruct min; [|discriminate].
      exists EmptyString, (String c s), prev. auto.
    + destruct (p c) eqn:Hc; [|discriminate].
      intros (run & rest & prev' & -> & Hall & Hlen & Hk)%IH.
      exists (String c run), rest, prev'. simpl. rewrite Hc, Hall.
      repeat split; auto. lia.
Qed.

Section Within.
Context (q : ascii -> bool).

Lemma take_all n s : all q s = true -> all q (take n s) = true.
Proof.
  revert n. induction s as [|c s IH]; intros n H; [destruct n; reflexivity|].
  destruct n; [reflexivity|]. simpl in *.
  apply andb_true_iff in H as [-> H]. simpl. apply IH, H.
Qed.

(** Where a pattern matches in a text of the class [q], its continuation
    is run on a text of the class, and so are the groups. *)
Lemma run_within r : forall prev s caps k m,
  all q s = true -> Forall (fun iv : nat * string => all q iv.2 = true) caps ->
  run r prev s caps k = Some m ->
  exists prev' s' caps',
    all q s' = true /\ Forall (fun iv : nat * string => all q iv.2 = true) caps'
    /\ k prev' s' caps' = Some m.
Proof.
  induction r as [|c| |p min greedy|i r IH|r1 IH1 r2 IH2|r1 IH1 r2 IH2];
    intros prev s caps k m Hs Hc; cbn [run].
  - intros H. exists prev, s, caps. auto.
  - destruct s as [|c' s]; [discriminate|].
    destruct (Ascii.eqb c c'); [|discriminate]. simpl in Hs.
    apply andb_true_iff in Hs as [_ Hs]. intros H. exists (Some c'), s, caps. auto.
  - destruct (xorb _ _); [|discriminate]. intros H. exists prev, s, caps. auto.
  - destruct greedy.
    + intros (run & rest & prev' & -> & _ & _ & Hk)%rep_greedy_sound.
      apply all_suffix in Hs. exists prev', rest, caps. auto.
    + intros (run & rest & prev' & -> & _ & _ & Hk)%rep_lazy_sound.
      apply all_suffix in Hs. exists prev', rest, caps. auto.
  - intros (prev' & s' & caps' & Hs' & Hc' & Hk)%IH; [|assumption..].
    exists prev', s', ((i, consumed s s') :: caps'). split; [assumption|].
    split; [|assumption]. constructor; [|assumption].
    apply take_all, Hs.
  - destruct (run r1 prev s caps k) eqn:E.
    + intros [= <-]. eapply IH1; eassumption.
    + intros H. eapply IH2; eassumption.
  - intros (prev' & s' & caps' & Hs' & Hc' & Hk)%IH1; [|assumption..].
    eapply IH2; eassumption.
Qed.

Lemma match_at_within r prev s m :
  all q s = true -> match_at r prev s = Some m ->
  all q (m_rest m) = true
  /\ Forall (fun iv : nat * string => all q iv.2 = true) (m_groups m).
Proof.
  intros Hs (prev' & s' & caps' & Hs' & Hc' & [= <-])%run_within; auto.
Qed.

Lemma finditer_from_within fuel r : forall prev s m,
  all q s = true -> In m (finditer_from fuel r prev s) ->
  Forall (fun iv : nat * string => all q iv.2 = true) (m_groups m).
Proof.
  induction fuel as [|fuel IH]; intros prev s m Hs; simpl; [intros []|].
  destruct (match_at r prev s) as [m'|] eqn:E.
  - destruct (match_at_within _ _ _ _ Hs E) as [Hr Hg].
    destruct (Nat.ltb _ _).
    + intros [<-|H]; [exact Hg | eapply IH, H; exact Hr].
    + destruct s as [|c s]; (intros [<-|H]; [exact Hg|]); [destruct H|].
      simpl in Hs. apply andb_true_iff in Hs as [_ Hs]. eapply IH, H. exact Hs.
  - destruct s as [|c s]; [intros []|].
    simpl in Hs. apply andb_true_iff in Hs as [_ Hs]. apply IH, Hs.
Qed.

Lemma group_within caps i v :
  Forall (fun iv : nat * string => all q iv.2 = true) caps ->
  group caps i = Some v -> all q v = true.
Proof.
  induction 1 as [|[j w] caps Hw _ IH]; simpl; [discriminate|].
  destruct (Nat.eqb i j); [intros [= <-]; exact Hw | exact IH].
Qed.

(** A pattern that matches nowhere in the texts of the class finds
    nothing in them. *)
Lemma finditer_from_none fuel r :
  (forall prev s, all q s = true -> match_at r prev s = None) ->
  forall prev s, all q s = true -> finditer_from fuel r prev s = [].
Proof.
  intros Hnone. induction fuel as [|fuel IH]; intros prev s Hs; [reflexivity|].
  simpl. rewrite (Hnone _ _ Hs). destruct s as [|c s]; [reflexivity|].
  simpl in Hs. apply andb_true_iff in Hs as [_ Hs]. apply IH, Hs.
Qed.

(** Where the second of two patterns in sequence cannot match, neither
    can the sequence. *)
Lemma seq_needs r1 r2 :
  (forall prev s caps k, all q s = true ->
     Forall (fun iv : nat * string => all q iv.2 = true) caps ->
     run r2 prev s caps k = None) ->
  forall prev s caps k, all q s = true ->
    Forall (fun iv : nat * string => all q iv.2 = true) caps ->
    run (Seq r1 r2) prev s caps k = None.
Proof.
  intros H2 prev s caps k Hs Hc. cbn [run].
  destruct (run r1 prev s caps _) as [m|] eqn:E; [|reflexivity].
  apply run_within in E as (prev' & s' & caps' & Hs' & Hc' & Hk); [|assumption..].
  rewrite H2 in Hk by assumption. discriminate.
Qed.

End Within.

(** No quotation mark, double or single. *)
Lemma no_quote_head c s :
  all (fun c => Chars.not_char dquote c && Chars.not_char squote c) (String c s) = true ->
  Ascii.eqb dquote c = false /\ Ascii.eqb squote c = false.
Proof.
  simpl. unfold Chars.not_char.
  intros [[H1 H2]%andb_true_iff _]%andb_true_iff.
  split; apply negb_true_iff; assumption.
Qed.

Lemma str_re_needs_quote prev s caps k :
  all (fun c => Chars.not_char dquote c && Chars.not_char squote c) s = true ->
  run _STR_RE prev s caps k = None.
Proof.
  intros Hs. unfold _STR_RE. cbn [run cat].
  destruct s as [|c s]; [reflexivity|].
  destruct (no_quote_head _ _ Hs) as [-> ->]. reflexivity.
Qed.

End WithinFacts.

(** ** The extractor and the resolver *)

Module DiscoveryFacts.
Import Str StrFacts Re ReFacts NormFacts ExtractFacts WithinFacts.

Lemma with_domain_colon c : contains ":" (_with_domain c) = true.
Proof.
  unfold _with_domain. destruct (contains ":" c) eqn:E; [exact E|].
  apply (contains_app_l ":" "game:" c). reflexivity.
Qed.

Lemma with_domain_idem c : _with_domain (_with_domain c) = _with_domain c.
Proof.
  unfold _with_domain at 1. rewrite with_domain_colon. reflexivity.
Qed.

Lemma add_code_colon a m :
  set_Forall (fun x => contains ":" x = true) a ->
  set_Forall (fun x => contains ":" x = true) (add_code a m).
Proof.
  intros H. unfold add_code. destruct (quoted_value m); [|exact H].
  apply set_Forall_union; [apply set_Forall_singleton, with_domain_colon | exact H].
Qed.

Lemma add_code_and_sibling_colon a m :
  set_Forall (fun x => contains ":" x = true) a ->
  set_Forall (fun x => contains ":" x = true) (add_code_and_sibling a m).
Proof.
  intros H. unfold add_code_and_sibling. destruct (quoted_value m); [|exact H].
  cbv zeta. destruct (negb _ && negb _).
  - apply set_Forall_union;
      [apply set_Forall_singleton, contains_app_l, with_domain_colon|].
    apply set_Forall_union; [apply set_Forall_singleton, with_domain_colon | exact H].
  - apply set_Forall_union; [apply set_Forall_singleton, with_domain_colon | exact H].
Qed.

Lemma discovered_colon text :
  set_Forall (fun x => contains ":" x = true) (_discover_codes_in_text text).
Proof.
  unfold _discover_codes_in_text.
  apply foldl_inv; [intros a b; apply foldl_inv, add_code_colon|].
  apply foldl_inv; [intros a b; apply foldl_inv, add_code_colon|].
  apply foldl_inv; [apply add_code_colon|].
  apply foldl_inv; [apply add_code_and_sibling_colon|].
  apply set_Forall_empty.
Qed.

(** *** A text without quotation marks *)

Lemma foldl_fixed {A B} (f : A -> B -> A) l acc :
  (forall b, In b l -> forall a, f a b = a) -> foldl f acc l = acc.
Proof.
  revert acc. induction l as [|b l IH]; intros acc H; [reflexivity|].
  simpl. rewrite H by (left; reflexivity). apply IH.
  intros b' Hb'. apply H. right. exact Hb'.
Qed.

Lemma finditer_no_quote r text :
  (forall prev s caps k,
     all (fun c => Chars.not_char dquote c && Chars.not_char squote c) s = true ->
     Forall (fun iv : nat * string =>
               all (fun c => Chars.not_char dquote c && Chars.not_char squote c) iv.2 = true)
            caps ->
     run r prev s caps k = None) ->
  all (fun c => Chars.not_char dquote c && Chars.not_char squote c) text = true ->
  finditer r text = [].
Proof.
  intros Hr Ht. unfold finditer.
  apply (finditer_from_none (fun c => Chars.not_char dquote c && Chars.not_char squote c));
    [|exact Ht].
  intros prev s Hs. unfold match_at. apply Hr; [exact Hs | constructor].
Qed.

Lemma list_body_no_quote keyword text codes m :
  all (fun c => Chars.not_char dquote c && Chars.not_char squote c) text = true ->
  In m (finditer (re_list keyword) text) ->
  add_list_body codes m = codes.
Proof.
  intros Ht Hm. unfold add_list_body.
  rewrite finditer_no_quote; [reflexivity | |].
  - intros prev s caps k Hs _. apply str_re_needs_quote, Hs.
  - pose proof (finditer_from_within _ _ _ _ _ m Ht Hm) as Hg.
    destruct (group (m_groups m) 1) as [v|] eqn:E; [|reflexivity].
    simpl. eapply group_within; eassumption.
Qed.

Lemma discover_no_quote text :
  all (fun c => Chars.not_char dquote c && Chars.not_char squote c) text = true ->
  _discover_codes_in_text text = ∅.
Proof.
  intros Ht. unfold _discover_codes_in_text.
  rewrite (finditer_no_quote re_code text); [|unfold re_code|exact Ht].
  2:{ apply seq_needs. intros prev s caps k Hs _. apply str_re_needs_quote, Hs. }
  rewrite (finditer_no_quote re_code_path text); [|unfold re_code_path; cbn [cat]|exact Ht].
  2:{ do 8 apply seq_needs. intros prev s caps k Hs _. cbn [run].
      rewrite str_re_needs_quote by exact Hs. reflexivity. }
  cbn [foldl].
  rewrite foldl_fixed by (intros m Hm a; eapply list_body_no_quote; eassumption).
  rewrite foldl_fixed by (intros m Hm a; eapply list_body_no_quote; eassumption).
  reflexivity.
Qed.

(** *** The codes of a tree *)


Lemma sorted_spec (l : gset string) :
  Sorted String.le (sorted (elements l)) /\ NoDup (sorted (elements l))
  /\ forall x, x ∈ sorted (elements l) <-> x ∈ l.
Proof.
  unfold sorted. split; [apply Sorted_merge_sort, _|]. split.
  - rewrite merge_sort_Permutation. apply NoDup_elements.
  - intros x. rewrite merge_sort_Permutation. apply elem_of_elements.
Qed.

(** *** The candidate loop *)

Lemma try_candidates_sound h cands : forall logs found logs',
  try_candidates h cands logs = (found, logs') ->
  match found with
  | Some p =>
      _validate_survival_dir h p = true /\ In p cands
      /\ exists before, logs' = logs ++ before ++ [found_line p]
  | None =>
      (forall c, In c cands -> _validate_survival_dir h c = false)
      /\ logs' = logs ++ List.map (fun c => try_line c false) cands
  end.
Proof.
  induction cands as [|cand cands IH]; intros logs found logs'; simpl.
  - intros [= <- <-]. split; [intros c []|]. rewrite List.app_nil_r. reflexivity.
  - destruct (_validate_survival_dir h cand) eqn:E.
    + intros [= <- <-]. split; [exact E|]. split; [left; reflexivity|].
      exists [try_line cand true]. rewrite <- List.app_assoc. reflexivity.
    + intros H. apply IH in H. destruct found as [p|].
      * destruct H as (Hv & Hin & before & ->). split; [exact Hv|].
        split; [right; exact Hin|].
        exists (try_line cand false :: before). rewrite <- List.app_assoc. reflexivity.
      * destruct H as [Hall ->]. split.
        -- intros c [<-|Hc]; [exact E | apply Hall, Hc].
        -- rewrite <- List.app_assoc. reflexivity.
Qed.

End DiscoveryFacts.


(** ** The grid *)

Module GridFacts.
Import Str StrFacts Wildcard.

Lemma grid_get_in_grid (g : grid) (pos : nat * nat) (ing : Ingredient) :
  grid_get g pos = Some ing -> in_grid g pos.
Proof.
  unfold grid_get, in_grid. destruct (g !! pos.1) as [row|]; [|discriminate].
  destruct (row !! pos.2) eqn:E; [|discriminate]. intros _.
  exists row. split; [reflexivity|]. eapply lookup_lt_Some, E.
Qed.

Lemma grid_get_set_eq (g : grid) (pos : nat * nat) (x : option Ingredient) :
  in_grid g pos -> grid_get (grid_set g pos x) pos = x.
Proof.
  intros (row & Hr & Hc). unfold grid_get, grid_set. rewrite Hr.
  rewrite list_lookup_insert_eq by (eapply lookup_lt_Some; eassumption).
  rewrite list_lookup_insert_eq by assumption. reflexivity.
Qed.

Lemma grid_get_set_ne (g : grid) (pos q : nat * nat) (x : option Ingredient) :
  pos <> q -> grid_get (grid_set g pos x) q = grid_get g q.
Proof.
  intros Hne. unfold grid_get, grid_set.
  destruct (g !! pos.1) as [row|] eqn:Hr; [|reflexivity].
  destruct (decide (pos.1 = q.1)) as [E1|E1].
  - rewrite <- E1, Hr.
    rewrite list_lookup_insert_eq by (eapply lookup_lt_Some; eassumption).
    rewrite list_lookup_insert_ne; [reflexivity|].
    intros E2. apply Hne. destruct pos, q. simpl in *. congruence.
  - rewrite list_lookup_insert_ne by assumption. reflexivity.
Qed.

Lemma in_grid_set (g : grid) (pos q : nat * nat) (x : option Ingredient) :
  in_grid g q -> in_grid (grid_set g pos x) q.
Proof.
  intros (row & Hr & Hc). unfold in_grid, grid_set.
  destruct (g !! pos.1) as [row'|] eqn:Hr'; [|exists row; auto].
  destruct (decide (pos.1 = q.1)) as [E1|E1].
  - rewrite <- E1. rewrite E1 in Hr'. assert (row' = row) as -> by congruence.
    exists (<[pos.2 := x]> row). rewrite E1.
    rewrite list_lookup_insert_eq by (eapply lookup_lt_Some; eassumption).
    split; [reflexivity|]. rewrite length_insert. exact Hc.
  - exists row. rewrite list_lookup_insert_ne by assumption. auto.
Qed.

Lemma in_grid_empty (pos : nat * nat) : In pos cells -> in_grid empty_grid pos.
Proof.
  intros H. unfold in_grid.
  assert (pos.1 < 3 /\ pos.2 < 3) as [H1 H2].
  { vm_compute in H. intuition (subst; simpl; lia). }
  exists (replicate GRID_SIZE None). split.
  - unfold empty_grid. apply lookup_replicate_2. exact H1.
  - rewrite length_replicate. exact H2.
Qed.

Lemma grid_get_empty (pos : nat * nat) : grid_get empty_grid pos = None.
Proof.
  unfold grid_get, empty_grid.
  destruct (replicate GRID_SIZE (replicate GRID_SIZE None) !! pos.1) as [row|] eqn:E;
    [|reflexivity].
  apply lookup_replicate in E as [-> _].
  destruct (replicate GRID_SIZE None !! pos.2) as [x|] eqn:E2; [|reflexivity].
  apply lookup_replicate in E2 as [-> _]. reflexivity.
Qed.

Lemma grid_set_set (g : grid) (pos : nat * nat) (x y : option Ingredient) :
  grid_set (grid_set g pos x) pos y = grid_set g pos y.
Proof.
  unfold grid_set. destruct (g !! pos.1) as [row|] eqn:Hr; [|rewrite Hr; reflexivity].
  rewrite list_lookup_insert_eq by (eapply lookup_lt_Some; eassumption).
  rewrite !list_insert_insert_eq. reflexivity.
Qed.

(** *** What the normalizer and the variants row leave alone *)

Lemma normalize_fields (ing : Ingredient) :
  let ing' := _normalize_wildcard_code ing in
  quantity ing' = quantity ing /\ tool_cost ing' = tool_cost ing
  /\ is_tool ing' = is_tool ing /\ symbol ing' = symbol ing /\ name ing' = name ing.
Proof.
  unfold _normalize_wildcard_code. destruct (negb _ || negb _); [auto 6|].
  destruct (allowed_variants ing); simpl; auto 6.
Qed.

(** [_update_variants_summary] leaves the grid as it is, or clears the
    variants of the ingredient and normalizes its code. *)
Lemma uvs_grid pos options a :
  grid_items (_update_variants_summary pos options a) = grid_items a
  \/ exists ing, grid_get (grid_items a) pos = Some ing
       /\ allowed_variants ing <> []
       /\ grid_items (_update_variants_summary pos options a)
          = grid_set (grid_items a) pos
              (Some (_normalize_wildcard_code (set_allowed_variants [] ing))).
Proof.
  unfold _update_variants_summary.
  destruct (grid_get (grid_items a) pos) as [ing|] eqn:Hg; [|left; reflexivity].
  destruct (allowed_variants ing) as [|v l] eqn:Hv; [left; reflexivity|].
  destruct (List.filter _ _).
  - right. exists ing. split; [reflexivity|]. split; [congruence|]. reflexivity.
  - left. destruct (Nat.leb _ _); reflexivity.
Qed.

Lemma uvui_grid a :
  grid_items (_update_variant_ui a) = grid_items a
  \/ exists ing, grid_get (grid_items a) (selected a) = Some ing
       /\ allowed_variants ing <> []
       /\ grid_items (_update_variant_ui a)
          = grid_set (grid_items a) (selected a)
              (Some (_normalize_wildcard_code (set_allowed_variants [] ing))).
Proof.
  unfold _update_variant_ui. cbv zeta.
  change (grid_items (with_variants_row false a)) with (grid_items a).
  change (selected (with_variants_row false a)) with (selected a).
  destruct (grid_get (grid_items a) (selected a)) as [ing|] eqn:Hg; [|left; reflexivity].
  destruct (negb (truthy (code ing))); [left; reflexivity|].
  destruct (negb _ || negb _); [left; reflexivity|].
  destruct (sorted _) as [|o os]; [left; reflexivity|].
  change (grid_items (with_variants_row true ?x)) with (grid_items x).
  destruct (uvs_grid (selected a) (o :: os) (with_variants_row false a)) as [H|H].
  - left. exact H.
  - right. destruct H as (ing' & Hg' & Hv & H). simpl in Hg'.
    assert (ing' = ing) as -> by congruence.
    exists ing. split; [reflexivity|]. split; [exact Hv | exact H].
Qed.

(** [_update_variant_ui] on an ingredient without variants changes no
    cell. *)
Lemma uvui_grid_no_variants a ing :
  grid_get (grid_items a) (selected a) = Some ing -> allowed_variants ing = [] ->
  grid_items (_update_variant_ui a) = grid_items a.
Proof.
  intros Hg Hv. destruct (uvui_grid a) as [H|(ing' & Hg' & Hv' & _)]; [exact H|].
  congruence.
Qed.

Lemma uvui_grid_not_wild a :
  wildcard_var a = false -> grid_items (_update_variant_ui a) = grid_items a.
Proof.
  intros Hw. unfold _update_variant_ui. cbv zeta.
  change (grid_items (with_variants_row false a)) with (grid_items a).
  change (selected (with_variants_row false a)) with (selected a).
  change (wildcard_var (with_variants_row false a)) with (wildcard_var a).
  rewrite Hw. destruct (grid_get _ _); [|reflexivity].
  destruct (negb (truthy _)); reflexivity.
Qed.

Lemma uvui_other a q :
  q <> selected a ->
  grid_get (grid_items (_update_variant_ui a)) q = grid_get (grid_items a) q.
Proof.
  intros Hq. destruct (uvui_grid a) as [->|(ing & _ & _ & ->)]; [reflexivity|].
  apply grid_get_set_ne. congruence.
Qed.

(** The ingredient of the selected cell after [_update_variant_ui]: the
    same, or the same with no variants and its code normalized. *)
Lemma uvui_selected_cell a ing :
  grid_get (grid_items a) (selected a) = Some ing ->
  grid_get (grid_items (_update_variant_ui a)) (selected a) = Some ing
  \/ grid_get (grid_items (_update_variant_ui a)) (selected a)
     = Some (_normalize_wildcard_code (set_allowed_variants [] ing)).
Proof.
  intros Hg. destruct (uvui_grid a) as [->|(ing' & Hg' & _ & ->)]; [left; exact Hg|].
  right. assert (ing' = ing) as -> by congruence.
  apply grid_get_set_eq. eapply grid_get_in_grid, Hg.
Qed.

Lemma grid_set_id (g : grid) (pos : nat * nat) (x : Ingredient) :
  grid_get g pos = Some x -> grid_set g pos (Some x) = g.
Proof.
  unfold grid_get, grid_set. destruct (g !! pos.1) as [row|] eqn:Hr; [|discriminate].
  destruct (row !! pos.2) as [y|] eqn:Hc; [|discriminate]. intros ->.
  rewrite (list_insert_id row) by exact Hc. apply list_insert_id, Hr.
Qed.

(** The grid after [_update_variant_ui], by the test that clears the
    variants. *)
Lemma uvui_grid_exact a ing :
  grid_get (grid_items a) (selected a) = Some ing ->
  grid_items (_update_variant_ui a)
  = if truthy (code ing) && wildcard_var a && ends_with "*" (code ing)
       && match sorted (elements (default ∅ (variant_index a !! variant_key (code ing)))) with
          | [] => false
          | o :: os =>
              match allowed_variants ing with
              | [] => false
              | _ :: _ =>
                  match List.filter (fun v => bool_decide (v ∈ o :: os))
                                    (allowed_variants ing) with
                  | [] => true
                  | _ :: _ => false
                  end
              end
          end
    then grid_set (grid_items a) (selected a)
           (Some (_normalize_wildcard_code (set_allowed_variants [] ing)))
    else grid_items a.
Proof.
  intros Hg. unfold _update_variant_ui. cbv zeta.
  change (grid_items (with_variants_row false a)) with (grid_items a).
  change (selected (with_variants_row false a)) with (selected a).
  change (wildcard_var (with_variants_row false a)) with (wildcard_var a).
  change (variant_index (with_variants_row false a)) with (variant_index a).
  rewrite Hg. destruct (truthy (code ing)); [|reflexivity].
  destruct (wildcard_var a); [|reflexivity].
  destruct (ends_with "*" (code ing)); [|reflexivity]. simpl.
  destruct (sorted _) as [|o os]; [reflexivity|].
  unfold _update_variants_summary. simpl. rewrite Hg.
  destruct (allowed_variants ing) as [|v l]; [reflexivity|].
  destruct (List.filter _ _); [reflexivity|].
  destruct (Nat.leb _ _); reflexivity.
Qed.

(** The variants row shown a second time, on the grid it left, changes
    no cell. *)
Lemma uvui_stable a b :
  grid_items b = grid_items (_update_variant_ui a) ->
  selected b = selected a -> wildcard_var b = wildcard_var a ->
  variant_index b = variant_index a ->
  grid_items (_update_variant_ui b) = grid_items b.
Proof.
  intros Hg Hs Hw Hi.
  destruct (grid_get (grid_items a) (selected a)) as [ing|] eqn:Ha.
  2:{ destruct (uvui_grid b) as [H|(x & Hx & _)]; [exact H|]. exfalso.
      rewrite Hg, Hs in Hx. destruct (uvui_grid a) as [E|(y & Hy & _)]; congruence. }
  pose proof (uvui_grid_exact a ing Ha) as Ea.
  destruct (truthy (code ing) && wildcard_var a && ends_with "*" (code ing) && _) eqn:Ec.
  - assert (Hb : grid_get (grid_items b) (selected b)
                 = Some (_normalize_wildcard_code (set_allowed_variants [] ing))).
    { rewrite Hg, Ea, Hs. apply grid_get_set_eq. eapply grid_get_in_grid, Ha. }
    rewrite (uvui_grid_exact b _ Hb). rewrite normalize_variants. simpl.
    match goal with |- context [match ?l with [] => false | _ :: _ => false end] =>
      destruct l end; rewrite ?andb_false_r; reflexivity.
  - assert (Hb : grid_get (grid_items b) (selected b) = Some ing)
      by (rewrite Hg, Ea, Hs; exact Ha).
    rewrite (uvui_grid_exact b _ Hb), Hw, Hi, Ec. reflexivity.
Qed.

(** The entries of the side panel are read, not written, by
    [_side_apply]. *)
Lemma uvs_vars pos options a :
  let a' := _update_variants_summary pos options a in
  is_tool_var a' = is_tool_var a /\ tool_cost_var a' = tool_cost_var a
  /\ qty_var a' = qty_var a /\ wildcard_var a' = wildcard_var a.
Proof.
  unfold _update_variants_summary.
  repeat (case_match; simpl; try (repeat split; reflexivity)).
Qed.

Lemma uvui_vars a :
  let a' := _update_variant_ui a in
  is_tool_var a' = is_tool_var a /\ tool_cost_var a' = tool_cost_var a
  /\ qty_var a' = qty_var a /\ wildcard_var a' = wildcard_var a.
Proof.
  unfold _update_variant_ui. cbv zeta.
  repeat (case_match; simpl; try (repeat split; reflexivity)).
  apply (uvs_vars _ _ (with_variants_row false a)).
Qed.

Lemma side_apply_vars h a :
  let a' := _side_apply h a in
  is_tool_var a' = is_tool_var a /\ tool_cost_var a' = tool_cost_var a
  /\ qty_var a' = qty_var a /\ wildcard_var a' = wildcard_var a.
Proof.
  unfold _side_apply. cbv zeta.
  destruct (grid_get _ _); [|repeat split; reflexivity].
  match goal with |- context [_update_variant_ui ?b] => apply (uvui_vars b) end.
Qed.

End GridFacts.

(** ** Strings and lists, more *)

Module MoreStr.
Import Str StrFacts.

Lemma contains1_app1 (a c : ascii) (s : string) :
  contains (String a EmptyString) (s +:+ String c EmptyString)
  = contains (String a EmptyString) s || Ascii.eqb a c.
Proof.
  induction s as [|b s IH].
  - simpl. destruct (Ascii.eqb a c); reflexivity.
  - rewrite app_cons. simpl. rewrite IH.
    destruct (Ascii.eqb a b); simpl; [reflexivity|].
    reflexivity.
Qed.

Lemma ends_with_app_r (suf a s : string) :
  ends_with suf s = true -> ends_with suf (a +:+ s) = true.
Proof.
  intros H. induction a as [|c a IH]; [exact H|].
  rewrite app_cons, ends_with_cons, IH. apply orb_true_r.
Qed.

Lemma filter_id {A} (f : A -> bool) (l : list A) :
  (forall x, In x l -> f x = true) -> List.filter f l = l.
Proof.
  induction l as [|x l IH]; intros H; [reflexivity|].
  simpl. rewrite H by (left; reflexivity). f_equal. apply IH.
  intros y Hy. apply H. right. exact Hy.
Qed.

Lemma filter_in_options (checked : string -> bool) (options : list string) :
  List.filter (fun v => bool_decide (v ∈ options)) (List.filter checked options)
  = List.filter checked options.
Proof.
  apply filter_id. intros x [Hx _]%filter_In.
  apply bool_decide_eq_true, list_elem_of_In, Hx.
Qed.

End MoreStr.


(** ** Symbols *)

Module SymbolFacts.
Import Str StrFacts GridFacts.

Lemma grid_get_concat (g : grid) (p : nat * nat) (x : Ingredient) :
  grid_get g p = Some x -> Some x ∈ concat g.
Proof.
  unfold grid_get. destruct (g !! p.1) as [row|] eqn:Hr; [|discriminate].
  destruct (row !! p.2) as [y|] eqn:Hc; [|discriminate]. intros ->.
  apply list_elem_of_In, in_concat. exists row.
  split; apply list_elem_of_In; eapply list_elem_of_lookup_2; eassumption.
Qed.

Lemma concat_grid_get (g : grid) (x : Ingredient) :
  Some x ∈ concat g -> exists p, grid_get g p = Some x.
Proof.
  intros (row & Hr & Hx)%list_elem_of_In%in_concat.
  apply list_elem_of_In, list_elem_of_lookup in Hr as [i Hi].
  apply list_elem_of_In, list_elem_of_lookup in Hx as [j Hj].
  exists (i, j). unfold grid_get. simpl. rewrite Hi, Hj. reflexivity.
Qed.

(** The symbols of the grid: the ingredients with a symbol that is not
    empty. *)
Lemma symbols_in_grid_spec (g : grid) (c s : string) :
  (c, s) ∈ symbols_in_grid g
  <-> exists p x, grid_get g p = Some x /\ code x = c /\ symbol x = Some s
                  /\ truthy s = true.
Proof.
  unfold symbols_in_grid. rewrite list_elem_of_omap. split.
  - intros ([x|] & Hin & Hx); [|discriminate].
    destruct (symbol x) as [[|a s']|] eqn:Hs; try discriminate.
    injection Hx as <- <-. apply concat_grid_get in Hin as [p Hp].
    exists p, x. auto.
  - intros (p & x & Hg & <- & Hs & Ht). exists (Some x).
    split; [eapply grid_get_concat, Hg|]. rewrite Hs.
    destruct s; [discriminate | reflexivity].
Qed.

Lemma used_letters_spec (g : grid) (s : string) :
  s ∈ (list_to_set ((symbols_in_grid g).*2) : gset string)
  <-> exists p x, grid_get g p = Some x /\ symbol x = Some s /\ truthy s = true.
Proof.
  rewrite elem_of_list_to_set, list_elem_of_fmap. split.
  - intros ([c s'] & -> & (p & x & Hg & _ & Hs & Ht)%symbols_in_grid_spec).
    exists p, x. auto.
  - intros (p & x & Hg & Hs & Ht). exists (code x, s). split; [reflexivity|].
    apply symbols_in_grid_spec. exists p, x. auto.
Qed.

(** The table of the letters by code, built by [setdefault] and [add]. *)
Lemma letters_by_code_spec (l : list (string * string)) (k v : string) :
  forall m : gmap string (gset string),
  v ∈ default ∅ (foldl (fun m '(k, v) => <[ k := {[ v ]} ∪ default ∅ (m !! k) ]> m) m l !! k)
  <-> v ∈ default ∅ (m !! k) \/ (k, v) ∈ l.
Proof.
  induction l as [|[k' v'] l IH]; intros m; simpl.
  - rewrite elem_of_nil. tauto.
  - rewrite IH, elem_of_cons. destruct (decide (k' = k)) as [->|Hk].
    + rewrite lookup_insert_eq. simpl. rewrite elem_of_union, elem_of_singleton.
      split.
      * intros [[->|H]|H]; [right; left; reflexivity | left; exact H | right; right; exact H].
      * intros [H|[[= ->]|H]]; [left; right; exact H | left; left; reflexivity | right; exact H].
    + rewrite lookup_insert_ne by exact Hk.
      split.
      * intros [H|H]; [left; exact H | right; right; exact H].
      * intros [H|[[= E1 E2]|H]]; [left; exact H | congruence | right; exact H].
Qed.

Lemma length_omap_le {A B} (f : A -> option B) (l : list A) :
  length (omap f l) <= length l.
Proof.
  induction l as [|x l IH]; simpl; [lia|].
  change (list_omap A B f l) with (omap f l). destruct (f x); simpl; lia.
Qed.

Lemma letters_NoDup : NoDup letters.
Proof. apply (bool_decide_unpack (NoDup letters)). vm_compute. exact I. Qed.

(** With fewer cells than letters, a letter is free. *)
Lemma free_letter (g : grid) :
  length (concat g) < 26 ->
  exists cand,
    List.find (fun cand => bool_decide (cand ∉ (list_to_set ((symbols_in_grid g).*2)
                                                : gset string)))
              letters = Some cand.
Proof.
  intros Hlen.
  destruct (List.find _ letters) as [cand|] eqn:E; [exists cand; reflexivity|].
  exfalso.
  assert (Hincl : incl letters ((symbols_in_grid g).*2)).
  { intros x Hx. pose proof (find_none _ _ E x Hx) as H. simpl in H.
    apply bool_decide_eq_false in H. apply dec_stable in H.
    apply elem_of_list_to_set in H. apply list_elem_of_In, H. }
  apply NoDup_incl_length in Hincl; [|apply NoDup_ListNoDup, letters_NoDup].
  rewrite length_fmap in Hincl. unfold symbols_in_grid in Hincl.
  pose proof (length_omap_le
    (fun x : option Ingredient =>
       match x with
       | Some i => match symbol i with
                   | Some (String c s) => Some (code i, String c s)
                   | _ => None
                   end
       | None => None
       end) (concat g)) as Hle.
  change (length letters) with 26 in Hincl. lia.
Qed.

Lemma letter_truthy (cand : string) : In cand letters -> truthy cand = true.
Proof.
  intros H. vm_compute in H.
  repeat (destruct H as [<-|H]; [reflexivity|]). destruct H.
Qed.

(** What [_symbol_for_code] returns. *)
Lemma symbol_for_code_spec (c : string) (a : App) :
  length (concat (grid_items a)) < 26 ->
  let r := _symbol_for_code c a in
  code_to_symbol r.2 !! c = Some r.1
  /\ ((code_to_symbol a !! c = Some r.1 /\ r.2 = a
       /\ ((exists p x, grid_get (grid_items a) p = Some x /\ symbol x = Some r.1
                        /\ truthy r.1 = true) ->
           exists q y, grid_get (grid_items a) q = Some y /\ code y = c
                       /\ symbol y = Some r.1))
      \/ (In r.1 letters
          /\ r.2 = with_code_to_symbol (<[ c := r.1 ]> (code_to_symbol a)) a
          /\ forall p x, grid_get (grid_items a) p = Some x -> symbol x <> Some r.1)).
Proof.
  intros Hlen. unfold _symbol_for_code. cbv zeta.
  set (used := list_to_set _ : gset string).
  set (by_code := foldl _ _ _).
  (* the letter found when the table does not give one *)
  assert (Hfresh :
    let r := match List.find (fun cand => bool_decide (cand ∉ used)) (List.map letter (seq 0 26)) with
             | Some cand => (cand, with_code_to_symbol (<[ c := cand ]> (code_to_symbol a)) a)
             | None => ("X", with_code_to_symbol (<[ c := "X" ]> (code_to_symbol a)) a)
             end in
    code_to_symbol r.2 !! c = Some r.1
    /\ In r.1 letters
    /\ r.2 = with_code_to_symbol (<[ c := r.1 ]> (code_to_symbol a)) a
    /\ forall p x, grid_get (grid_items a) p = Some x -> symbol x <> Some r.1).
  { destruct (free_letter (grid_items a) Hlen) as [cand Hc].
    fold used in Hc. unfold letters in Hc. rewrite Hc. cbv zeta. simpl.
    apply find_some in Hc as [Hin Hfree]. apply bool_decide_eq_true in Hfree.
    split; [apply lookup_insert_eq|]. split; [exact Hin|]. split; [reflexivity|].
    intros p x Hg Hs. apply Hfree. apply used_letters_spec.
    exists p, x. split; [exact Hg|]. split; [exact Hs|]. apply letter_truthy, Hin. }
  cbv zeta in Hfresh.
  destruct (code_to_symbol a !! c) as [l|] eqn:El.
  2:{ destruct Hfresh as (H1 & H2 & H3 & H4). split; [exact H1|]. right. auto. }
  destruct (bool_decide (l ∈ used)
            && (bool_decide (by_code !! c = None)
                || bool_decide (l ∉ default ∅ (by_code !! c)))) eqn:Eb.
  { destruct Hfresh as (H1 & H2 & H3 & H4). split; [exact H1|]. right. auto. }
  simpl. split; [exact El|]. left. split; [reflexivity|]. split; [reflexivity|].
  intros Hused. apply used_letters_spec in Hused. fold used in Hused.
  apply andb_false_iff in Eb as [Eb|Eb];
    [apply bool_decide_eq_false in Eb; contradiction|].
  apply orb_false_iff in Eb as [_ Eb]. apply bool_decide_eq_false, dec_stable in Eb.
  subst by_code. apply letters_by_code_spec in Eb as [Eb|Eb].
  - rewrite lookup_empty in Eb. simpl in Eb. set_solver.
  - apply symbols_in_grid_spec in Eb as (q & y & Hg & Hc & Hs & _).
    exists q, y. auto.
Qed.

(** The letter of the table is returned as it is when no ingredient of
    the grid has it. *)
Lemma symbol_for_code_known (c l : string) (a : App) :
  code_to_symbol a !! c = Some l ->
  (forall p x, grid_get (grid_items a) p = Some x -> symbol x <> Some l) ->
  _symbol_for_code c a = (l, a).
Proof.
  intros Hl Hfree. unfold _symbol_for_code. cbv zeta. rewrite Hl.
  rewrite (bool_decide_eq_false_2 (l ∈ _)); [reflexivity|].
  intros (p & x & Hg & Hs & _)%used_letters_spec. exact (Hfree p x Hg Hs).
Qed.

(** *** Propagation *)

Lemma propagate_spec (c letter : string) (ps : list (nat * nat)) :
  forall (g : grid) (q : nat * nat),
  grid_get
    (foldl (fun g p =>
              match grid_get g p with
              | Some x =>
                  if String.eqb (code x) c
                  then grid_set g p (Some (set_symbol (Some letter) x)) else g
              | None => g
              end) g ps) q
  = (fun x => if bool_decide (q ∈ ps) && String.eqb (code x) c
              then set_symbol (Some letter) x else x) <$> grid_get g q.
Proof.
  induction ps as [|p ps IH]; intros g q.
  - simpl. destruct (grid_get g q); reflexivity.
  - cbn [foldl]. rewrite IH.
    assert (Hstep : grid_get
              match grid_get g p with
              | Some x =>
                  if String.eqb (code x) c
                  then grid_set g p (Some (set_symbol (Some letter) x)) else g
              | None => g
              end q
            = (fun x => if bool_decide (p = q) && String.eqb (code x) c
                        then set_symbol (Some letter) x else x) <$> grid_get g q).
    { destruct (decide (p = q)) as [<-|Hne].
      - rewrite bool_decide_eq_true_2 by reflexivity.
        destruct (grid_get g p) as [x|] eqn:Hg; [|rewrite Hg; reflexivity].
        destruct (String.eqb (code x) c) eqn:Hc.
        + rewrite grid_get_set_eq by (eapply grid_get_in_grid, Hg).
          simpl. rewrite Hc. reflexivity.
        + rewrite Hg. simpl. rewrite Hc. reflexivity.
      - rewrite bool_decide_eq_false_2 by exact Hne.
        destruct (grid_get g p) as [x|] eqn:Hg;
          [|destruct (grid_get g q); reflexivity].
        destruct (String.eqb (code x) c).
        + rewrite grid_get_set_ne by exact Hne. destruct (grid_get g q); reflexivity.
        + destruct (grid_get g q); reflexivity. }
    rewrite Hstep. destruct (grid_get g q) as [x|]; [|reflexivity]. simpl. f_equal.
    destruct (decide (p = q)) as [<-|Hne].
    + rewrite (bool_decide_eq_true_2 (p = p)) by reflexivity.
      rewrite (bool_decide_eq_true_2 (p ∈ p :: ps)) by (apply elem_of_cons; left; reflexivity).
      destruct (String.eqb (code x) c) eqn:Hc; simpl.
      * rewrite Hc, andb_true_r. destruct (bool_decide (p ∈ ps)); reflexivity.
      * rewrite Hc, andb_false_r. reflexivity.
    + rewrite (bool_decide_eq_false_2 (p = q)) by exact Hne. simpl.
      destruct (decide (q ∈ ps)) as [Hin|Hnin].
      * rewrite !bool_decide_eq_true_2; [reflexivity | apply elem_of_cons; right; exact Hin | exact Hin].
      * rewrite !bool_decide_eq_false_2; [reflexivity | | exact Hnin].
        intros [E|H]%elem_of_cons; [congruence | contradiction].
Qed.

End SymbolFacts.


(** ** The export *)

Module ExportFacts.
Import Str StrFacts GridFacts.

(** An ingredient with a symbol needs no new one. *)
Lemma symbol_of_pure (ing : Ingredient) (a : App) :
  has_symbol ing ->
  exists s, symbol ing = Some s /\ truthy s = true /\ symbol_of ing a = (s, a).
Proof.
  intros (c & s & H). exists (String c s). unfold symbol_of. rewrite H. auto.
Qed.

(** One cell of the pattern. *)
Lemma cell_step (a : App) (row : list string) (p : nat * nat) (ch : ascii) :
  shows (grid_items a) p ch ->
  match grid_get (grid_items a) p with
  | Some ing =>
      if truthy (code ing)
      then let '(sym, a0) := symbol_of ing a in (row ++ [sym], a0)
      else (row ++ ["_"], a)
  | None => (row ++ ["_"], a)
  end = (row ++ [String ch EmptyString], a).
Proof.
  unfold shows. destruct (grid_get (grid_items a) p) as [ing|]; [|intros ->; reflexivity].
  destruct (truthy (code ing)); [|intros ->; reflexivity].
  intros H. unfold symbol_of. rewrite H. reflexivity.
Qed.

(** One cell of the table of the ingredients by symbol. *)
Lemma dict_step (a : App) (m : gmap string Ingredient) (p : nat * nat) :
  (forall ing, placed (grid_items a) p ing -> has_symbol ing) ->
  match grid_get (grid_items a) p with
  | Some ing =>
      if truthy (code ing) then
        let '(sym, a0) := symbol_of ing a in
        match m !! sym with
        | None => (<[ sym := ing ]> m, a0)
        | Some _ => (m, a0)
        end
      else (m, a)
  | None => (m, a)
  end
  = (match grid_get (grid_items a) p with
     | Some ing =>
         if truthy (code ing) then
           match symbol ing with
           | Some sym => match m !! sym with
                         | None => <[ sym := ing ]> m
                         | Some _ => m
                         end
           | None => m
           end
         else m
     | None => m
     end, a).
Proof.
  intros H. destruct (grid_get (grid_items a) p) as [ing|] eqn:Hg; [|reflexivity].
  destruct (truthy (code ing)) eqn:Hc; [|reflexivity].
  destruct (symbol_of_pure ing a (H ing (conj Hg Hc))) as (s & Hs & _ & ->).
  rewrite Hs. destruct (m !! s); reflexivity.
Qed.

Lemma dict_fold (a : App) (ps : list (nat * nat)) :
  (forall p ing, In p ps -> placed (grid_items a) p ing -> has_symbol ing) ->
  forall m : gmap string Ingredient,
  exists m',
    foldl (fun '(ing_map, a) p =>
             match grid_get (grid_items a) p with
             | Some ing =>
                 if truthy (code ing) then
                   let '(sym, a) := symbol_of ing a in
                   match ing_map !! sym with
                   | None => (<[ sym := ing ]> ing_map, a)
                   | Some _ => (ing_map, a)
                   end
                 else (ing_map, a)
             | None => (ing_map, a)
             end) (m, a) ps = (m', a)
    /\ forall s, m' !! s
                 = match m !! s with
                   | Some x => Some x
                   | None => first_with_symbol (grid_items a) ps s
                   end.
Proof.
  induction ps as [|p ps IH]; intros H m.
  - exists m. split; [reflexivity|]. intros s. destruct (m !! s); reflexivity.
  - cbn [foldl]. rewrite dict_step by (intros ing; apply H; left; reflexivity).
    destruct (IH (fun q ing Hq => H q ing (or_intror Hq))
                 (match grid_get (grid_items a) p with
                  | Some ing =>
                      if truthy (code ing) then
                        match symbol ing with
                        | Some sym => match m !! sym with
                                      | None => <[ sym := ing ]> m
                                      | Some _ => m
                                      end
                        | None => m
                        end
                      else m
                  | None => m
                  end)) as (m' & -> & Hm').
    exists m'. split; [reflexivity|]. intros s. rewrite Hm'. cbn [first_with_symbol].
    destruct (grid_get (grid_items a) p) as [ing|] eqn:Hg; [|reflexivity].
    destruct (truthy (code ing)) eqn:Hc; [|reflexivity]. simpl.
    destruct (symbol ing) as [sym|] eqn:Hs.
    + destruct (decide (sym = s)) as [->|Hne].
      * rewrite bool_decide_eq_true_2 by reflexivity.
        destruct (m !! s) eqn:E; [rewrite E; reflexivity|].
        rewrite lookup_insert_eq. reflexivity.
      * rewrite bool_decide_eq_false_2 by congruence.
        destruct (m !! sym); [reflexivity|].
        rewrite lookup_insert_ne by exact Hne. reflexivity.
    + rewrite bool_decide_eq_false_2 by discriminate. reflexivity.
Qed.

(** The first cell with a symbol, by position. *)
Lemma first_with_symbol_spec (g : grid) (s : string) (ing : Ingredient) :
  forall ps,
  first_with_symbol g ps s = Some ing
  <-> exists before p after,
        ps = before ++ p :: after /\ placed g p ing /\ symbol ing = Some s
        /\ forall q x, In q before -> placed g q x -> symbol x <> Some s.
Proof.
  induction ps as [|p ps IH]; simpl.
  - split; [discriminate|]. intros ([|? ?] & ? & ? & ? & _); discriminate.
  - assert (Hskip : (forall x, placed g p x -> symbol x <> Some s) ->
              first_with_symbol g ps s = Some ing
              <-> exists before p0 after,
                    p :: ps = before ++ p0 :: after /\ placed g p0 ing
                    /\ symbol ing = Some s
                    /\ forall q x, In q before -> placed g q x -> symbol x <> Some s).
    { intros Hp. rewrite IH. split.
      - intros (before & p0 & after & -> & Hpl & Hs & Hb).
        exists (p :: before), p0, after. split; [reflexivity|].
        split; [exact Hpl|]. split; [exact Hs|].
        intros q x [<-|Hq]; [apply Hp | apply Hb, Hq].
      - intros ([|q before] & p0 & after & E & Hpl & Hs & Hb).
        + injection E as <- _. exfalso. exact (Hp ing Hpl Hs).
        + injection E as <- ->. exists before, p0, after.
          split; [reflexivity|]. split; [exact Hpl|]. split; [exact Hs|].
          intros q' x Hq'. apply Hb. right. exact Hq'. }
    destruct (grid_get g p) as [x|] eqn:Hg.
    2:{ apply Hskip. intros x [Hx _]. congruence. }
    destruct (truthy (code x)) eqn:Hc; simpl.
    2:{ apply Hskip. intros x' [Hx Hc']. congruence. }
    destruct (decide (symbol x = Some s)) as [Hs|Hs].
    + rewrite bool_decide_eq_true_2 by exact Hs. split.
      * intros [= <-]. exists [], p, ps. split; [reflexivity|].
        split; [split; assumption|]. split; [exact Hs|]. intros q y [].
      * intros ([|q before] & p0 & after & E & Hpl & Hs' & Hb).
        -- injection E as <- _. destruct Hpl as [Hpl _]. congruence.
        -- injection E as <- _. exfalso.
           apply (Hb p x (or_introl eq_refl)); [split; assumption | exact Hs].
    + rewrite bool_decide_eq_false_2 by exact Hs.
      apply Hskip. intros x' [Hx _]. congruence.
Qed.

(** Every cell shows some character when the symbols have one. *)
Lemma shows_exists (g : grid) (p : nat * nat) :
  (forall ing, placed g p ing -> exists ch, symbol ing = Some (String ch EmptyString)) ->
  exists ch, shows g p ch.
Proof.
  intros H. unfold shows. destruct (grid_get g p) as [ing|] eqn:Hg; [|eauto].
  destruct (truthy (code ing)) eqn:Hc; [|eauto].
  apply H. split; assumption.
Qed.

(** A cell of the pattern leaves the application as it is when the
    ingredient has a symbol. *)
Lemma cell_pure (a : App) (row : list string) (p : nat * nat) :
  (forall ing, placed (grid_items a) p ing -> has_symbol ing) ->
  exists s,
    match grid_get (grid_items a) p with
    | Some ing =>
        if truthy (code ing)
        then let '(sym, a0) := symbol_of ing a in (row ++ [sym], a0)
        else (row ++ ["_"], a)
    | None => (row ++ ["_"], a)
    end = (row ++ [s], a).
Proof.
  intros H. destruct (grid_get (grid_items a) p) as [ing|] eqn:Hg; [|eauto].
  destruct (truthy (code ing)) eqn:Hc; [|eauto].
  destruct (symbol_of_pure ing a (H ing (conj Hg Hc))) as (s & _ & _ & ->). eauto.
Qed.

Lemma pattern_pure (a : App) :
  all_symbols (grid_items a) -> (_build_ingredient_pattern a).2 = a.
Proof.
  intros H. unfold _build_ingredient_pattern. cbn [foldl seq GRID_SIZE].
  assert (Hp : forall p, In p cells ->
            forall ing, placed (grid_items a) p ing -> has_symbol ing)
    by (intros p Hp ing; apply H, Hp).
  assert (Hc : forall r c, In (r, c) cells -> forall row, exists s,
            match grid_get (grid_items a) (r, c) with
            | Some ing =>
                if truthy (code ing)
                then let '(sym, a0) := symbol_of ing a in (row ++ [sym], a0)
                else (row ++ ["_"], a)
            | None => (row ++ ["_"], a)
            end = (row ++ [s], a))
    by (intros r c Hrc row; apply cell_pure, Hp, Hrc).
  repeat match goal with
  | |- context [match grid_get (grid_items a) (?r, ?c) with
                | Some ing =>
                    if truthy (code ing)
                    then let '(sym, a0) := symbol_of ing a in (?row ++ [sym], a0)
                    else (?row ++ ["_"], a)
                | None => (?row ++ ["_"], a)
                end] =>
      let s := fresh "s" in
      let E := fresh "E" in
      destruct (Hc r c ltac:(vm_compute; tauto) row) as [s E]; rewrite E; clear E
  end.
  reflexivity.
Qed.

End ExportFacts.


(** ** The items pool *)

Module PoolFacts.
Import Str StrFacts Re ReFacts NormFacts.

(** The separators pattern takes the whole run of separators at the
    start of a text, when there is one. *)
Lemma separators_match prev s :
  m_rest <$> match_at re_separators prev s
  = if Nat.leb 1 (run_length is_separator s) then Some (lstrip is_separator s) else None.
Proof.
  unfold match_at, re_separators. cbn [run].
  destruct (Nat.leb 1 (run_length is_separator s)) eqn:E.
  - apply Nat.leb_le in E. erewrite rep_greedy_longest; [| exact E | reflexivity].
    reflexivity.
  - apply Nat.leb_gt in E. rewrite rep_greedy_short by exact E. reflexivity.
Qed.

Lemma run_length_head (p : ascii -> bool) (c : ascii) (s : string) :
  Nat.leb 1 (run_length p (String c s)) = p c.
Proof. simpl. destruct (p c); reflexivity. Qed.

(** The pieces hold no separator. *)
Lemma split_from_clean fuel : forall prev s piece x,
  String.length s < fuel ->
  all (fun c => negb (is_separator c)) piece = true ->
  In x (split_from fuel re_separators prev s piece) ->
  all (fun c => negb (is_separator c)) x = true.
Proof.
  induction fuel as [|fuel IH]; intros prev s piece x Hlen Hp; [lia|].
  cbn [split_from]. pose proof (separators_match prev s) as Hm.
  destruct (match_at re_separators prev s) as [m|].
  - destruct (Nat.leb 1 (run_length is_separator s)) eqn:E; [|discriminate].
    injection Hm as Hm. apply Nat.leb_le in E.
    pose proof (lstrip_length is_separator s) as Hl.
    assert (Hlt : Nat.ltb (String.length (m_rest m)) (String.length s) = true)
      by (apply Nat.ltb_lt; rewrite Hm; lia).
    rewrite Hlt. intros [<-|Hx]; [exact Hp|].
    eapply IH; [| |exact Hx]; [rewrite Hm; lia | reflexivity].
  - destruct s as [|c s]; [intros [<-|[]]; exact Hp|].
    rewrite run_length_head in Hm. destruct (is_separator c) eqn:Hc; [discriminate|].
    intros Hx. eapply IH; [| |exact Hx]; [simpl in Hlen; lia|].
    apply all_app; [exact Hp|]. simpl. rewrite Hc. reflexivity.
Qed.

(** A text without separators is one piece. *)
Lemma split_from_whole fuel : forall prev s piece,
  String.length s < fuel ->
  all (fun c => negb (is_separator c)) s = true ->
  split_from fuel re_separators prev s piece = [piece +:+ s].
Proof.
  induction fuel as [|fuel IH]; intros prev s piece Hlen Hs; [lia|].
  cbn [split_from]. pose proof (separators_match prev s) as Hm.
  destruct s as [|c s].
  - destruct (match_at _ _ _); [discriminate Hm|].
    rewrite app_nil_r. reflexivity.
  - simpl in Hs. apply andb_true_iff in Hs as [Hc Hs]. apply negb_true_iff in Hc.
    rewrite run_length_head, Hc in Hm. destruct (match_at _ _ _); [discriminate Hm|].
    rewrite IH by (simpl in Hlen; lia || exact Hs).
    rewrite app_assoc. reflexivity.
Qed.

Lemma lstrip_id (p : ascii -> bool) (s : string) :
  all (fun c => negb (p c)) s = true -> lstrip p s = s.
Proof.
  destruct s as [|c s]; [reflexivity|]. simpl.
  intros [Hc _]%andb_true_iff. apply negb_true_iff in Hc. rewrite Hc. reflexivity.
Qed.

Lemma all_ends_with (q : ascii -> bool) (c : ascii) (s : string) :
  all q s = true -> ends_with (String c EmptyString) s = true -> q c = true.
Proof.
  intros Hs He. apply ends_with1_split in He. rewrite He in Hs.
  apply all_suffix in Hs. simpl in Hs. apply andb_true_iff in Hs as [H _]. exact H.
Qed.

(** [strip] leaves a text without white space as it is. *)
Lemma strip_id (s : string) :
  all (fun c => negb (Chars.is_space c)) s = true -> strip s = s.
Proof.
  intros H. unfold strip. rewrite lstrip_id by exact H.
  apply rstrip_id. intros c Hc. apply negb_true_iff.
  exact (all_ends_with _ c s H Hc).
Qed.

Lemma no_separator_no_space (s : string) :
  all (fun c => negb (is_separator c)) s = true ->
  all (fun c => negb (Chars.is_space c)) s = true.
Proof.
  apply CorpusFacts.all_impl. intros c. unfold is_separator.
  destruct (Chars.is_space c); [rewrite orb_true_r; discriminate | reflexivity].
Qed.

(** The parts of the codes the user types: none is empty, none holds a
    comma or white space. *)
Lemma custom_parts_clean (txt x : string) :
  In x (custom_parts txt) ->
  truthy x = true /\ all (fun c => negb (is_separator c)) x = true.
Proof.
  unfold custom_parts. intros (p & <- & [Hp Ht]%filter_In)%in_map_iff.
  assert (Hc : all (fun c => negb (is_separator c)) p = true).
  { unfold re_split in Hp. eapply split_from_clean; [| |exact Hp]; [lia | reflexivity]. }
  rewrite strip_id in * by (apply no_separator_no_space, Hc). auto.
Qed.

Lemma custom_parts_whole (txt : string) :
  truthy txt = true -> all (fun c => negb (is_separator c)) txt = true ->
  custom_parts txt = [txt].
Proof.
  intros Ht Hc. unfold custom_parts, re_split.
  rewrite split_from_whole by (lia || exact Hc). rewrite app_nil_l. simpl.
  rewrite !strip_id by (apply no_separator_no_space, Hc). rewrite Ht. simpl.
  rewrite strip_id by (apply no_separator_no_space, Hc). reflexivity.
Qed.

(** *** The pieces of a text, one by one *)

(** For the separators pattern neither the fuel, once enough, nor the
    character before matter. *)
Lemma split_from_any fuel1 : forall fuel2 prev1 prev2 s piece,
  String.length s < fuel1 -> String.length s < fuel2 ->
  split_from fuel1 re_separators prev1 s piece
  = split_from fuel2 re_separators prev2 s piece.
Proof.
  induction fuel1 as [|fuel1 IH]; intros [|fuel2] prev1 prev2 s piece H1 H2; try lia.
  cbn [split_from].
  pose proof (separators_match prev1 s) as M1.
  pose proof (separators_match prev2 s) as M2.
  pose proof (lstrip_length is_separator s) as Hl.
  destruct (match_at re_separators prev1 s) as [m1|],
           (match_at re_separators prev2 s) as [m2|].
  - destruct (Nat.leb 1 (run_length is_separator s)) eqn:E; [|discriminate].
    apply Nat.leb_le in E. injection M1 as M1. injection M2 as M2. rewrite M1, M2.
    assert (Hlt : Nat.ltb (String.length (lstrip is_separator s)) (String.length s) = true)
      by (apply Nat.ltb_lt; lia).
    rewrite Hlt. f_equal. apply IH; lia.
  - destruct (Nat.leb 1 (run_length is_separator s)); discriminate.
  - destruct (Nat.leb 1 (run_length is_separator s)); discriminate.
  - destruct s as [|c s]; [reflexivity|]. simpl in H1, H2. apply IH; lia.
Qed.

Lemma split_from_S fuel r prev s piece :
  split_from (S fuel) r prev s piece
  = match match_at r prev s with
    | Some m =>
        if Nat.ltb (String.length (m_rest m)) (String.length s)
        then piece :: split_from fuel r (m_prev m) (m_rest m) EmptyString
        else
          match s with
          | String c s' => piece :: split_from fuel r (Some c) s' (String c EmptyString)
          | EmptyString => [piece; EmptyString]
          end
    | None =>
        match s with
        | String c s' => split_from fuel r (Some c) s' (piece +:+ String c EmptyString)
        | EmptyString => [piece]
        end
    end.
Proof. reflexivity. Qed.

Lemma split_nil piece :
  split_from 1 re_separators None EmptyString piece = [piece].
Proof. reflexivity. Qed.

(** A character that is no separator goes to the piece being read. *)
Lemma split_other (c : ascii) (s piece : string) :
  is_separator c = false ->
  split_from (S (String.length (String c s))) re_separators None (String c s) piece
  = split_from (S (String.length s)) re_separators None s
      (piece +:+ String c EmptyString).
Proof.
  intros Hc. rewrite split_from_S. pose proof (separators_match None (String c s)) as M.
  rewrite run_length_head, Hc in M.
  destruct (match_at re_separators None (String c s)); [discriminate M|].
  apply split_from_any; simpl; lia.
Qed.

(** A separator ends the piece, and the whole run of separators goes. *)
Lemma split_separator (c : ascii) (s piece : string) :
  is_separator c = true ->
  split_from (S (String.length (String c s))) re_separators None (String c s) piece
  = piece :: split_from (S (String.length (lstrip is_separator s))) re_separators None
               (lstrip is_separator s) EmptyString.
Proof.
  intros Hc. rewrite split_from_S. pose proof (separators_match None (String c s)) as M.
  rewrite run_length_head, Hc in M.
  destruct (match_at re_separators None (String c s)) as [m|]; [|discriminate M].
  injection M as M. cbn [lstrip] in M. rewrite Hc in M. rewrite M.
  pose proof (lstrip_length is_separator s) as Hl.
  assert (Hlt : Nat.ltb (String.length (lstrip is_separator s))
                  (String.length (String c s)) = true)
    by (apply Nat.ltb_lt; simpl; lia).
  rewrite Hlt. f_equal. apply split_from_any; simpl; lia.
Qed.

Lemma lstrip_app (p : ascii -> bool) (s t : string) :
  all p s = true -> lstrip p (s +:+ t) = lstrip p t.
Proof.
  induction s as [|c s IH]; [reflexivity|]. cbn [all].
  intros [Hc Hs]%andb_true_iff. rewrite app_cons. cbn [lstrip]. rewrite Hc. exact (IH Hs).
Qed.

Lemma split_clean_prefix (p : string) : forall rest piece,
  all (fun c => negb (is_separator c)) p = true ->
  split_from (S (String.length (p +:+ rest))) re_separators None (p +:+ rest) piece
  = split_from (S (String.length rest)) re_separators None rest (piece +:+ p).
Proof.
  induction p as [|c p IH]; intros rest piece Hp.
  - rewrite app_nil_l, app_nil_r. reflexivity.
  - simpl in Hp. apply andb_true_iff in Hp as [Hc Hp]. apply negb_true_iff in Hc.
    rewrite app_cons, split_other by exact Hc. rewrite IH by exact Hp.
    rewrite app_assoc. reflexivity.
Qed.

Lemma split_separators (c : ascii) (s rest piece : string) :
  is_separator c = true -> all is_separator s = true ->
  split_from (S (String.length (String c s +:+ rest))) re_separators None
    (String c s +:+ rest) piece
  = piece :: split_from (S (String.length (lstrip is_separator rest))) re_separators None
               (lstrip is_separator rest) EmptyString.
Proof.
  intros Hc Hs. rewrite app_cons, split_separator by exact Hc.
  rewrite lstrip_app by exact Hs. reflexivity.
Qed.

(** The separators before a text change nothing to its parts. *)
Lemma custom_parts_lstrip (rest : string) :
  custom_parts (lstrip is_separator rest) = custom_parts rest.
Proof.
  destruct rest as [|c r]; [reflexivity|]. cbn [lstrip].
  destruct (is_separator c) eqn:Hc; [|reflexivity].
  unfold custom_parts at 2. unfold re_split. rewrite split_separator by exact Hc.
  reflexivity.
Qed.

Lemma custom_parts_lead (lead rest : string) :
  all is_separator lead = true -> custom_parts (lead +:+ rest) = custom_parts rest.
Proof.
  intros H. rewrite <- (custom_parts_lstrip (lead +:+ rest)), lstrip_app by exact H.
  apply custom_parts_lstrip.
Qed.

Lemma custom_parts_none (s : string) :
  all is_separator s = true -> custom_parts s = [].
Proof.
  intros H. rewrite <- (app_nil_r s), custom_parts_lead by exact H. reflexivity.
Qed.

Lemma custom_parts_first (p sep rest : string) :
  truthy p = true -> all (fun c => negb (is_separator c)) p = true ->
  truthy sep = true -> all is_separator sep = true ->
  custom_parts (p +:+ sep +:+ rest) = p :: custom_parts rest.
Proof.
  intros Hp Hc Hs Ha. destruct sep as [|c sep]; [discriminate|].
  simpl in Ha. apply andb_true_iff in Ha as [Hc1 Ha].
  rewrite <- (custom_parts_lstrip rest).
  unfold custom_parts, re_split.
  rewrite split_clean_prefix by exact Hc.
  rewrite split_separators by assumption. rewrite app_nil_l.
  cbn [List.filter]. rewrite strip_id by (apply no_separator_no_space, Hc).
  rewrite Hp. cbn [List.map]. rewrite strip_id by (apply no_separator_no_space, Hc).
  reflexivity.
Qed.

(** The sorted list of a set of strings. *)
Lemma sorted_set_spec (l : list string) :
  Sorted String.le (merge_sort String.le (elements (list_to_set l : gset string)))
  /\ NoDup (merge_sort String.le (elements (list_to_set l : gset string)))
  /\ forall x, x ∈ merge_sort String.le (elements (list_to_set l : gset string)) <-> x ∈ l.
Proof.
  destruct (DiscoveryFacts.sorted_spec (list_to_set l)) as (H1 & H2 & H3).
  split; [exact H1|]. split; [exact H2|].
  intros x. unfold sorted in H3. rewrite H3. apply elem_of_list_to_set.
Qed.

End PoolFacts.

(** ** The window *)

Module WindowFacts.
Import Str StrFacts GridFacts.

(** The variants row reads the discovery and writes the grid and its own
    labels only. *)
Lemma uvs_frame pos options a :
  let a' := _update_variants_summary pos options a in
  discovered_items a' = discovered_items a
  /\ used_survival_path a' = used_survival_path a
  /\ variant_index a' = variant_index a
  /\ code_to_symbol a' = code_to_symbol a
  /\ selected a' = selected a
  /\ symbol_var a' = symbol_var a
  /\ errors a' = errors a
  /\ shapeless_var a' = shapeless_var a
  /\ output_code_var a' = output_code_var a
  /\ output_qty_var a' = output_qty_var a.
Proof.
  unfold _update_variants_summary.
  repeat (case_match; simpl; try (repeat split; reflexivity)).
Qed.

Lemma uvui_frame a :
  let a' := _update_variant_ui a in
  discovered_items a' = discovered_items a
  /\ used_survival_path a' = used_survival_path a
  /\ variant_index a' = variant_index a
  /\ code_to_symbol a' = code_to_symbol a
  /\ selected a' = selected a
  /\ symbol_var a' = symbol_var a
  /\ errors a' = errors a
  /\ shapeless_var a' = shapeless_var a
  /\ output_code_var a' = output_code_var a
  /\ output_qty_var a' = output_qty_var a.
Proof.
  unfold _update_variant_ui. cbv zeta.
  repeat (case_match; simpl; try (repeat split; reflexivity)).
  apply (uvs_frame _ _ (with_variants_row false a)).
Qed.

(** [_update_side_for_selected] keeps the pool, the discovery and the
    selection. *)
Lemma side_frame w :
  let w' := _update_side_for_selected w in
  discovered_items (engine w') = discovered_items (engine w)
  /\ used_survival_path (engine w') = used_survival_path (engine w)
  /\ variant_index (engine w') = variant_index (engine w)
  /\ code_to_symbol (engine w') = code_to_symbol (engine w)
  /\ selected (engine w') = selected (engine w)
  /\ errors (engine w') = errors (engine w)
  /\ custom_items w' = custom_items w /\ items_cache w' = items_cache w
  /\ env_key w' = env_key w /\ direct_root w' = direct_root w
  /\ infos w' = infos w.
Proof.
  unfold _update_side_for_selected. cbv zeta.
  destruct (grid_get _ _) as [ing|]; [|simpl; repeat split; reflexivity].
  match goal with |- context [_update_variant_ui ?b] =>
    set (a1 := b); destruct (uvui_frame a1) as (H1 & H2 & H3 & H4 & H5 & _ & H6 & _) end.
  unfold with_engine, with_tool_row, with_slot_name_var.
  cbn [engine custom_items items_cache env_key direct_root infos].
  rewrite H1, H2, H3, H4, H5, H6. repeat split; reflexivity.
Qed.

(** The grid after [_update_side_for_selected]: as after
    [_update_variant_ui] on the same grid and selection, with the wild
    card box set from the code. *)
Lemma side_grid w :
  grid_items (engine (_update_side_for_selected w)) = grid_items (engine w)
  \/ exists ing, grid_get (grid_items (engine w)) (selected (engine w)) = Some ing
       /\ allowed_variants ing <> []
       /\ grid_items (engine (_update_side_for_selected w))
          = grid_set (grid_items (engine w)) (selected (engine w))
              (Some (_normalize_wildcard_code (set_allowed_variants [] ing))).
Proof.
  unfold _update_side_for_selected. cbv zeta.
  destruct (grid_get _ _) as [ing|] eqn:Hg; [|left; reflexivity].
  match goal with |- context [_update_variant_ui ?b] =>
    set (a1 := b); destruct (uvui_grid a1) as [H|(ing' & Hg' & Hv & H)] end.
  - left. unfold with_engine. cbn [engine]. rewrite H. reflexivity.
  - right. assert (ing' = ing) as -> by (subst a1; simpl in Hg'; congruence).
    exists ing. split; [reflexivity|]. split; [exact Hv|].
    unfold with_engine. cbn [engine]. rewrite H. reflexivity.
Qed.

Lemma side_other w q :
  q <> selected (engine w) ->
  grid_get (grid_items (engine (_update_side_for_selected w))) q
  = grid_get (grid_items (engine w)) q.
Proof.
  intros Hq. destruct (side_grid w) as [->|(ing & _ & _ & ->)]; [reflexivity|].
  apply grid_get_set_ne. congruence.
Qed.

Lemma side_no_variants w pos :
  (forall ing, grid_get (grid_items (engine w)) pos = Some ing -> allowed_variants ing = []) ->
  grid_get (grid_items (engine (_update_side_for_selected w))) pos
  = grid_get (grid_items (engine w)) pos.
Proof.
  intros H. destruct (side_grid w) as [->|(ing & Hg & Hv & ->)]; [reflexivity|].
  destruct (decide (pos = selected (engine w))) as [->|Hne].
  - exfalso. apply Hv, H, Hg.
  - apply grid_get_set_ne. congruence.
Qed.

(** [_symbol_for_code] writes the table of the symbols only. *)
Lemma symbol_for_code_frame c a :
  exists m, (_symbol_for_code c a).2 = with_code_to_symbol m a.
Proof.
  unfold _symbol_for_code. cbv zeta.
  assert (Ha : a = with_code_to_symbol (code_to_symbol a) a) by (destruct a; reflexivity).
  repeat (case_match; simpl; eauto).
Qed.

(** [_set_cell_item] on a cell without ingredient, and on a cell whose
    ingredient has a symbol. *)
Lemma set_item_empty pos c w :
  grid_get (grid_items (engine w)) pos = None ->
  _set_cell_item pos c w
  = _update_side_for_selected
      (with_engine
         (with_grid
            (grid_set (grid_items (_symbol_for_code c (engine w)).2) pos
               (Some (mkIngredient c 1 false 0
                        (Some (_symbol_for_code c (engine w)).1) EmptyString [])))
            (_symbol_for_code c (engine w)).2) w).
Proof.
  intros Hg. unfold _set_cell_item. cbv zeta. rewrite Hg. simpl.
  destruct (_symbol_for_code c (engine w)) as [sym a0]. reflexivity.
Qed.

Lemma set_item_occupied pos c w ing s :
  grid_get (grid_items (engine w)) pos = Some ing -> symbol ing = Some s ->
  _set_cell_item pos c w
  = _update_side_for_selected
      (with_engine
         (with_grid (grid_set (grid_items (engine w)) pos (Some (set_code c ing)))
            (engine w)) w).
Proof.
  intros Hg Hs. unfold _set_cell_item. cbv zeta. rewrite Hg. simpl. rewrite Hs.
  simpl. rewrite grid_set_set. reflexivity.
Qed.

End WindowFacts.


(** ** The autocomplete list *)

Module ListFacts.
Import Str StrFacts.

Lemma starts_with_iff (pat s : string) :
  starts_with pat s = true <-> exists post, s = pat +:+ post.
Proof.
  revert s. induction pat as [|a pat IH]; intros s; simpl.
  - split; [intros _; exists s; reflexivity | reflexivity].
  - destruct s as [|b s]; [split; [discriminate | intros [post H]; discriminate]|].
    rewrite andb_true_iff, IH. split.
    + intros [->%Ascii.eqb_eq [post ->]]. exists post. reflexivity.
    + intros [post H]. rewrite app_cons in H. injection H as -> ->.
      split; [apply Ascii.eqb_refl | exists post; reflexivity].
Qed.

(** [sub in s]: the text is some prefix, the part, some suffix. *)
Lemma contains_iff (pat s : string) :
  contains pat s = true <-> exists pre post, s = pre +:+ pat +:+ post.
Proof.
  induction s as [|c s IH]; simpl.
  - rewrite orb_false_r, starts_with_iff. split.
    + intros [post H]. exists EmptyString, post. exact H.
    + intros ([|? ?] & post & H); [exists post; exact H | discriminate].
  - rewrite orb_true_iff, starts_with_iff, IH. split.
    + intros [[post H]|(pre & post & ->)].
      * exists EmptyString, post. exact H.
      * exists (String c pre), post. reflexivity.
    + intros ([|a pre] & post & H).
      * left. exists post. exact H.
      * right. rewrite app_cons in H. injection H as -> ->. exists pre, post. reflexivity.
Qed.

Lemma contains_trans (a b c : string) :
  contains a b = true -> contains b c = true -> contains a c = true.
Proof.
  intros (p1 & q1 & ->)%contains_iff (p2 & q2 & ->)%contains_iff.
  apply contains_iff. exists (p2 +:+ p1), (q1 +:+ q2).
  rewrite !app_assoc. reflexivity.
Qed.

Lemma map_app (f : ascii -> ascii) (s t : string) :
  map f (s +:+ t) = map f s +:+ map f t.
Proof. induction s as [|c s IH]; [reflexivity|]. rewrite app_cons. simpl. rewrite IH. reflexivity. Qed.

Lemma lower_char_idem (c : ascii) : Chars.lower (Chars.lower c) = Chars.lower c.
Proof. destruct c as [[] [] [] [] [] [] [] []]; reflexivity. Qed.

Lemma lower_idem (s : string) : Str.lower (Str.lower s) = Str.lower s.
Proof.
  unfold Str.lower. induction s as [|c s IH]; [reflexivity|].
  simpl. rewrite lower_char_idem, IH. reflexivity.
Qed.

(** The lines after [update_list]. *)
Lemma update_list_spec (typed : string) (l : AutocompleteList) (x : string) :
  In x (listbox (update_list typed l))
  <-> In x (items_all l) /\ contains (Str.lower typed) (Str.lower x) = true.
Proof.
  unfold update_list. simpl.
  apply (filter_In (fun it => contains (Str.lower typed) (Str.lower it))).
Qed.

(** [move_selection] as arithmetic on the line selected. *)
Lemma move_selection_spec (delta : Z) (l : AutocompleteList) :
  listbox l <> [] ->
  move_selection delta l
  = mkAutocompleteList (items_all l) (listbox l)
      (Some (Z.to_nat (Z.max 0 (Z.min (Z.of_nat (length (listbox l)) - 1)
                                  (Z.of_nat (default 0 (curselection l)) + delta))))).
Proof.
  intros H. unfold move_selection. destruct (listbox l) eqn:E; [congruence|].
  destruct (curselection l); reflexivity.
Qed.

End ListFacts.


(** ** Where the matches are *)

Module PlaceFacts.
Import Str StrFacts Re ReFacts NormFacts ExtractFacts CorpusFacts WithinFacts ListFacts.

(** Where a pattern matches, its continuation is run on a suffix. *)
Lemma run_suffix r : forall prev s caps k m,
  run r prev s caps k = Some m ->
  exists pre prev' s' caps', s = pre +:+ s' /\ k prev' s' caps' = Some m.
Proof.
  induction r as [|c| |p min greedy|i r IH|r1 IH1 r2 IH2|r1 IH1 r2 IH2];
    intros prev s caps k m; cbn [run].
  - intros H. exists EmptyString, prev, s, caps. auto.
  - destruct s as [|c' s]; [discriminate|].
    destruct (Ascii.eqb c c'); [|discriminate]. intros H.
    exists (String c' EmptyString), (Some c'), s, caps. auto.
  - destruct (xorb _ _); [|discriminate]. intros H.
    exists EmptyString, prev, s, caps. auto.
  - destruct greedy.
    + intros (run & rest & prev' & -> & _ & _ & Hk)%rep_greedy_sound.
      exists run, prev', rest, caps. auto.
    + intros (run & rest & prev' & -> & _ & _ & Hk)%rep_lazy_sound.
      exists run, prev', rest, caps. auto.
  - intros (pre & prev' & s' & caps' & -> & Hk)%IH. eauto 10.
  - destruct (run r1 prev s caps k) eqn:E.
    + intros [= <-]. eapply IH1; eassumption.
    + intros H. eapply IH2; eassumption.
  - intros (pre & prev' & s' & caps' & -> & Hk)%IH1.
    apply IH2 in Hk as (pre2 & prev2 & s2 & caps2 & -> & Hk).
    exists (pre +:+ pre2), prev2, s2, caps2. rewrite app_assoc. auto.
Qed.

Lemma match_at_suffix r prev s m :
  match_at r prev s = Some m -> exists pre, s = pre +:+ m_rest m.
Proof.
  intros (pre & prev' & s' & caps' & -> & [= <-])%run_suffix. exists pre. reflexivity.
Qed.

(** What [finditer] finds, it finds at a suffix of the text. *)
Lemma finditer_from_place fuel r : forall prev s m,
  In m (finditer_from fuel r prev s) ->
  exists pre prev' s', s = pre +:+ s' /\ match_at r prev' s' = Some m.
Proof.
  induction fuel as [|fuel IH]; intros prev s m; simpl; [intros []|].
  assert (Htail : forall c s0, s = String c s0 ->
            In m (finditer_from fuel r (Some c) s0) ->
            exists pre prev' s', s = pre +:+ s' /\ match_at r prev' s' = Some m).
  { intros c s0 -> (pre & prev' & s' & -> & H)%IH.
    exists (String c pre), prev', s'. auto. }
  destruct (match_at r prev s) as [m'|] eqn:E.
  - assert (Hhere : exists pre prev' s', s = pre +:+ s' /\ match_at r prev' s' = Some m')
      by (exists EmptyString, prev, s; auto).
    destruct (Nat.ltb _ _).
    + intros [<-|H]; [exact Hhere|].
      apply IH in H as (pre & prev' & s' & Hs & H).
      destruct (match_at_suffix _ _ _ _ E) as [pre0 ->].
      exists (pre0 +:+ pre), prev', s'. rewrite app_assoc, <- Hs. auto.
    + destruct s as [|c s0]; (intros [<-|H]; [exact Hhere|]); [destruct H|].
      eapply Htail; [reflexivity | exact H].
  - destruct s as [|c s0]; [intros []|]. apply Htail. reflexivity.
Qed.

(** The text a match of the corpus patterns is made of. *)
Lemma rex_dom_text prev s m :
  match_at rex_dom prev s = Some m ->
  exists d b t rest,
    s = d +:+ ":" +:+ b +:+ "-" +:+ t +:+ rest
    /\ m_groups m = [(3, t); (2, b); (1, d)].
Proof.
  unfold match_at, rex_dom, ident. cbn [run cat].
  destruct (xorb _ _); [|discriminate].
  intros (r1 & s1 & p1 & -> & Ha1 & Hl1 & H)%rep_greedy_sound.
  destruct s1 as [|c1 s1]; [discriminate|].
  destruct (Ascii.eqb_spec colon c1) as [<-|]; [|discriminate].
  apply rep_greedy_sound in H as (r2 & s2 & p2 & -> & Ha2 & Hl2 & H).
  destruct s2 as [|c2 s2]; [discriminate|].
  destruct (Ascii.eqb_spec dash c2) as [<-|]; [|discriminate].
  apply rep_greedy_sound in H as (r3 & s3 & p3 & -> & Ha3 & Hl3 & H).
  destruct (xorb _ _); [|discriminate]. injection H as <-. cbn [m_groups].
  rewrite !consumed_app. exists r1, r2, r3, s3. split; reflexivity.
Qed.

Lemma rex_nodom_text prev s m :
  match_at rex_nodom prev s = Some m ->
  exists b t rest,
    s = b +:+ "-" +:+ t +:+ rest /\ m_groups m = [(2, t); (1, b)].
Proof.
  unfold match_at, rex_nodom, ident. cbn [run cat].
  destruct (xorb _ _); [|discriminate].
  intros (r1 & s1 & p1 & -> & Ha1 & Hl1 & H)%rep_greedy_sound.
  destruct s1 as [|c1 s1]; [discriminate|].
  destruct (Ascii.eqb_spec dash c1) as [<-|]; [|discriminate].
  apply rep_greedy_sound in H as (r2 & s2 & p2 & -> & Ha2 & Hl2 & H).
  destruct (xorb _ _); [|discriminate]. injection H as <-. cbn [m_groups].
  rewrite !consumed_app. exists r1, r2, s2. split; reflexivity.
Qed.

(** An occurrence of the corpus rules is in the text, letter by letter. *)
Lemma occurs_in_text_place txt d b t :
  occurs_in_text txt d b t ->
  contains (b +:+ "-" +:+ t) txt = true
  /\ (d = "game"
      \/ exists g, d = Str.lower g
                   /\ contains (g +:+ ":" +:+ b +:+ "-" +:+ t) txt = true).
Proof.
  intros [(m & g & Hin & E1 & E2 & E3 & ->) | (m & Hin & E1 & E2 & ->)].
  - apply finditer_from_place in Hin as (pre & prev & s & -> & Hm).
    apply rex_dom_text in Hm as (d' & b' & t' & rest & -> & Hg).
    rewrite Hg in E1, E2, E3. cbn [group Nat.eqb] in E1, E2, E3.
    injection E1 as ->. injection E2 as ->. injection E3 as ->. split.
    + apply contains_iff. exists (pre +:+ g +:+ ":"), rest.
      rewrite !app_assoc. reflexivity.
    + right. exists g. split; [reflexivity|].
      apply contains_iff. exists pre, rest. rewrite !app_assoc. reflexivity.
  - apply finditer_from_place in Hin as (pre & prev & s & -> & Hm).
    apply rex_nodom_text in Hm as (b' & t' & rest & -> & Hg).
    rewrite Hg in E1, E2. cbn [group Nat.eqb] in E1, E2.
    injection E1 as ->. injection E2 as ->. split; [|left; reflexivity].
    apply contains_iff. exists pre, rest. rewrite !app_assoc. reflexivity.
Qed.

(** *** A normalized pattern *)

Lemma finditer_from_quiet fuel : forall prev s,
  quiet ph_hit s = true -> finditer_from fuel re_placeholder prev s = [].
Proof.
  induction fuel as [|fuel IH]; intros prev s Hq; [reflexivity|]. simpl.
  pose proof (ph_hit_match prev s) as Hm. rewrite (quiet_hit _ _ Hq) in Hm.
  destruct (match_at re_placeholder prev s); [discriminate Hm|].
  destruct s as [|c s]; [reflexivity|]. apply IH. eapply quiet_tail, Hq.
Qed.

Lemma last_ends_with (s : string) (c : ascii) :
  Str.last s = Some c -> ends_with (String c EmptyString) s = true.
Proof.
  induction s as [|a s IH]; [discriminate|]. simpl Str.last.
  destruct s as [|b s].
  - intros [= ->]. simpl. rewrite Ascii.eqb_refl. reflexivity.
  - intros H. rewrite ends_with_cons. rewrite (IH H). apply orb_true_r.
Qed.

Lemma strip_ends (s : string) :
  (forall c, Str.head (strip s) = Some c -> Chars.is_space c = false)
  /\ (forall c, Str.last (strip s) = Some c -> Chars.is_space c = false).
Proof.
  unfold strip. split.
  - intros c Hc.
    destruct (rstrip_split Chars.is_space (lstrip Chars.is_space s)) as (t & Hs & _).
    destruct (rstrip Chars.is_space (lstrip Chars.is_space s)) as [|a r] eqn:E;
      [discriminate|].
    injection Hc as ->. rewrite app_cons in Hs. eapply lstrip_head, Hs.
  - intros c Hc. eapply rstrip_last, last_ends_with, Hc.
Qed.

End PlaceFacts.

(* ================================================================== *)
(** ** Where a code comes from, and its dashes *)

Module ProvenanceFacts.
Import Str StrFacts Re ReFacts NormFacts ExtractFacts CorpusFacts WithinFacts ListFacts
       PlaceFacts.

Lemma take_prefix n : forall s, exists post, s = take n s +:+ post.
Proof.
  induction n as [|n IH]; intros s; [exists s; destruct s; reflexivity|].
  destruct s as [|c s]; [exists EmptyString; reflexivity|].
  destruct (IH s) as [post H]. exists post. cbn [take]. rewrite app_cons, <- H. reflexivity.
Qed.

Section InText.
Context (T : string).

Lemma consumed_in_text pre s s' : T = pre +:+ s -> contains (consumed s s') T = true.
Proof.
  intros ->. unfold consumed.
  destruct (take_prefix (String.length s - String.length s') s) as [post H].
  apply contains_iff. exists pre, post. rewrite <- H. reflexivity.
Qed.

(** The groups of a match in a suffix of a text are pieces of the text. *)
Lemma run_in_text r : forall prev s caps k m,
  (exists pre, T = pre +:+ s) -> in_text T caps ->
  run r prev s caps k = Some m ->
  exists prev' s' caps',
    (exists pre, T = pre +:+ s') /\ in_text T caps' /\ k prev' s' caps' = Some m.
Proof.
  induction r as [|c| |p min greedy|i r IH|r1 IH1 r2 IH2|r1 IH1 r2 IH2];
    intros prev s caps k m Hs Hc; cbn [run].
  - intros H. exists prev, s, caps. auto.
  - destruct s as [|c' s]; [discriminate|].
    destruct (Ascii.eqb c c'); [|discriminate]. intros H.
    exists (Some c'), s, caps. split; [|auto].
    destruct Hs as [pre ->]. exists (pre +:+ String c' EmptyString).
    rewrite app_assoc. reflexivity.
  - destruct (xorb _ _); [|discriminate]. intros H. exists prev, s, caps. auto.
  - destruct greedy.
    + intros (run & rest & prev' & -> & _ & _ & Hk)%rep_greedy_sound.
      exists prev', rest, caps. split; [|auto].
      destruct Hs as [pre ->]. exists (pre +:+ run). rewrite app_assoc. reflexivity.
    + intros (run & rest & prev' & -> & _ & _ & Hk)%rep_lazy_sound.
      exists prev', rest, caps. split; [|auto].
      destruct Hs as [pre ->]. exists (pre +:+ run). rewrite app_assoc. reflexivity.
  - intros (prev' & s' & caps' & Hs' & Hc' & Hk)%IH; [|assumption..].
    exists prev', s', ((i, consumed s s') :: caps'). split; [assumption|].
    split; [|assumption]. constructor; [|assumption].
    destruct Hs as [pre Hs]. exact (consumed_in_text pre s s' Hs).
  - destruct (run r1 prev s caps k) eqn:E.
    + intros [= <-]. eapply IH1; eassumption.
    + intros H. eapply IH2; eassumption.
  - intros (prev' & s' & caps' & Hs' & Hc' & Hk)%IH1; [|assumption..].
    eapply IH2; eassumption.
Qed.

Lemma finditer_in_text r m : In m (finditer r T) -> in_text T (m_groups m).
Proof.
  unfold finditer. intros (pre & prev' & s' & Hs & H)%finditer_from_place.
  unfold match_at in H.
  apply run_in_text in H as (p2 & s2 & caps2 & _ & Hc & [= <-]);
    [exact Hc | exists pre; exact Hs | constructor].
Qed.

Lemma group_in_text caps i v :
  in_text T caps -> group caps i = Some v -> contains v T = true.
Proof.
  induction 1 as [|[j w] caps Hw _ IH]; simpl; [discriminate|].
  destruct (Nat.eqb i j); [intros [= <-]; exact Hw | exact IH].
Qed.

End InText.

(** *** The quoted value of a match *)

(** A pattern without group leaves the groups as they are. *)
Lemma run_plain r : no_group r = true -> forall prev s caps k m,
  run r prev s caps k = Some m ->
  exists pre prev' s', s = pre +:+ s' /\ k prev' s' caps = Some m.
Proof.
  induction r as [|c| |p min greedy|i r IH|r1 IH1 r2 IH2|r1 IH1 r2 IH2];
    intros Hr prev s caps k m; cbn [run]; cbn [no_group] in Hr.
  - intros H. exists EmptyString, prev, s. auto.
  - destruct s as [|c' s]; [discriminate|].
    destruct (Ascii.eqb c c'); [|discriminate]. intros H.
    exists (String c' EmptyString), (Some c'), s. auto.
  - destruct (xorb _ _); [|discriminate]. intros H. exists EmptyString, prev, s. auto.
  - destruct greedy.
    + intros (run & rest & prev' & -> & _ & _ & Hk)%rep_greedy_sound.
      exists run, prev', rest. auto.
    + intros (run & rest & prev' & -> & _ & _ & Hk)%rep_lazy_sound.
      exists run, prev', rest. auto.
  - discriminate.
  - apply andb_true_iff in Hr as [H1 H2]. destruct (run r1 prev s caps k) eqn:E.
    + intros [= <-]. eapply IH1; eassumption.
    + intros H. eapply IH2; eassumption.
  - apply andb_true_iff in Hr as [H1 H2].
    intros (pre & prev' & s' & -> & Hk)%IH1; [|exact H1].
    apply IH2 in Hk as (pre2 & prev2 & s2 & -> & Hk); [|exact H2].
    exists (pre +:+ pre2), prev2, s2. rewrite app_assoc. auto.
Qed.

Lemma run_cat_plain l r : forallb no_group l = true -> forall prev s caps k m,
  run (cat (l ++ [r])) prev s caps k = Some m ->
  exists pre prev' s',
    s = pre +:+ s' /\ run r prev' s' caps (fun p t c => k p t c) = Some m.
Proof.
  induction l as [|r1 l IH]; intros Hl prev s caps k m.
  - intros H. exists EmptyString, prev, s. split; [reflexivity | exact H].
  - cbn [forallb] in Hl. apply andb_true_iff in Hl as [H1 Hl].
    change (cat ((r1 :: l) ++ [r])) with (Seq r1 (cat (l ++ [r]))). cbn [run].
    intros (pre & prev' & s' & -> & Hk)%run_plain; [|exact H1].
    apply IH in Hk as (pre2 & prev2 & s2 & -> & Hk); [|exact Hl].
    exists (pre +:+ pre2), prev2, s2. rewrite app_assoc. auto.
Qed.

(** What [_STR_RE] matches: a quote, a value that is not empty, the same
    quote; the value is its one group. *)
Lemma str_re_text prev s caps k m :
  run _STR_RE prev s caps k = Some m ->
  exists q i v rest prev',
    ((q = dquote /\ i = 1) \/ (q = squote /\ i = 2))
    /\ truthy v = true
    /\ s = between q v +:+ rest
    /\ k prev' rest ((i, v) :: caps) = Some m.
Proof.
  assert (Hone : forall q i,
    run (cat [Chr q; Grp i (Rep (Chars.not_char q) 1 true); Chr q]) prev s caps k = Some m ->
    exists v rest prev',
      truthy v = true /\ s = between q v +:+ rest
      /\ k prev' rest ((i, v) :: caps) = Some m).
  { intros q i. cbn [run cat]. destruct s as [|c0 s0]; [discriminate|].
    destruct (Ascii.eqb_spec q c0) as [<-|]; [|discriminate].
    intros (v & s1 & p1 & -> & _ & Hl & H)%rep_greedy_sound.
    destruct s1 as [|c1 rest]; [discriminate|].
    destruct (Ascii.eqb_spec q c1) as [<-|]; [|discriminate].
    rewrite consumed_app in H. exists v, rest, (Some q).
    split; [destruct v; [simpl in Hl; lia | reflexivity]|]. split; [|exact H].
    unfold between. rewrite !app_cons, app_assoc. reflexivity. }
  unfold _STR_RE. cbn [run].
  destruct (run (cat [Chr dquote; _; _]) prev s caps k) as [m1|] eqn:E.
  - intros [= <-]. apply Hone in E as (v & rest & prev' & Hv & Hs & Hk).
    exists dquote, 1, v, rest, prev'. auto.
  - intros (v & rest & prev' & Hv & Hs & Hk)%Hone.
    exists squote, 2, v, rest, prev'. auto 6.
Qed.

Lemma one_value_cat l prev s m :
  forallb no_group l = true ->
  match_at (cat (l ++ [_STR_RE])) prev s = Some m -> one_value s m.
Proof.
  intros Hl (pre & prev' & s' & -> & H)%run_cat_plain; [|exact Hl].
  apply str_re_text in H as (q & i & v & rest & p2 & Hq & Hv & -> & [= <-]).
  exists q, i, v, pre, rest. auto.
Qed.

Lemma one_value_code prev s m : match_at re_code prev s = Some m -> one_value s m.
Proof.
  unfold match_at, re_code. cbn [run].
  intros (pre & prev' & s' & -> & H)%run_plain; [|reflexivity].
  apply str_re_text in H as (q & i & v & rest & p2 & Hq & Hv & -> & [= <-]).
  exists q, i, v, pre, rest. auto.
Qed.

Lemma one_value_code_path prev s m :
  match_at re_code_path prev s = Some m -> one_value s m.
Proof.
  apply (one_value_cat [code_colon; Chr lbrace; Rep not_brace 0 false; WordB;
                        lit "path"; spaces; Chr colon; spaces]).
  reflexivity.
Qed.

Lemma one_value_str prev s m : match_at _STR_RE prev s = Some m -> one_value s m.
Proof.
  unfold match_at. intros (q & i & v & rest & p2 & Hq & Hv & -> & [= <-])%str_re_text.
  exists q, i, v, EmptyString, rest. auto.
Qed.

Lemma one_value_quoted s m val :
  one_value s m -> quoted_value m = Some val ->
  exists q pre rest, (q = dquote \/ q = squote) /\ s = pre +:+ between q val +:+ rest.
Proof.
  intros (q & i & v & pre & rest & Hq & Hv & -> & Hg). unfold quoted_value. rewrite Hg.
  destruct v as [|c v]; [discriminate|].
  destruct Hq as [[-> ->]|[-> ->]]; cbn [group Nat.eqb py_or]; intros [= <-].
  - exists dquote, pre, rest. auto.
  - exists squote, pre, rest. auto.
Qed.

(** The quoted values of the matches of such a pattern in a text stand
    between quotes in the text. *)
Lemma finditer_in_quotes r T m val :
  (forall prev s m, match_at r prev s = Some m -> one_value s m) ->
  In m (finditer r T) -> quoted_value m = Some val -> in_quotes val T.
Proof.
  intros Hr (pre0 & prev' & s' & -> & H)%finditer_from_place Hv.
  destruct (one_value_quoted _ _ _ (Hr _ _ _ H) Hv) as (q & pre & rest & Hq & ->).
  assert (Hc : contains (between q val) (pre0 +:+ pre +:+ between q val +:+ rest) = true).
  { apply contains_iff. exists (pre0 +:+ pre), rest. rewrite !app_assoc. reflexivity. }
  destruct Hq as [->| ->]; [left | right]; exact Hc.
Qed.

Lemma in_quotes_trans val body text :
  in_quotes val body -> contains body text = true -> in_quotes val text.
Proof.
  intros [H|H] Hb; [left | right]; eapply contains_trans; eassumption.
Qed.

(** *** Dashes under normalization *)

Section Dashes.
Context (hit : string -> option string).
Hypothesis hit_suffix : forall s rest,
  hit s = Some rest -> exists c pre, s = String c pre +:+ rest.

Lemma rewrite_first fuel s c :
  head (rewrite_from hit "*" fuel s) = Some c -> c = star \/ head s = Some c.
Proof.
  destruct fuel as [|fuel]; simpl; [auto|].
  destruct (hit s); [intros [= <-]; left; reflexivity|].
  destruct s; simpl; auto.
Qed.

(** Rewriting hits by a star brings no two dashes together. *)
Lemma rewrite_dashes fuel : forall s,
  contains "--" s = false -> contains "--" (rewrite_from hit "*" fuel s) = false.
Proof.
  induction fuel as [|fuel IH]; intros s Hs; [exact Hs|].
  cbn [rewrite_from]. destruct (hit s) as [rest|] eqn:E.
  - apply hit_suffix in E as (c & pre & ->).
    apply contains_suffix_false in Hs. apply IH in Hs.
    change ("*" +:+ ?x) with (String star x). cbn [contains starts_with].
    rewrite Hs. reflexivity.
  - destruct s as [|c s]; [reflexivity|].
    cbn [contains] in Hs. apply orb_false_iff in Hs as [Hst Hs].
    cbn [contains]. rewrite (IH _ Hs), orb_false_r.
    cbn [starts_with] in Hst |- *.
    destruct (Ascii.eqb "-" c); [|reflexivity]. rewrite andb_true_l in Hst |- *.
    destruct (rewrite_from hit "*" fuel s) as [|d t] eqn:Er; [reflexivity|].
    cbn [starts_with].
    destruct (Ascii.eqb_spec "-"%char d) as [<-|]; [|reflexivity]. exfalso.
    destruct (rewrite_first fuel s "-"%char) as [H|H];
      [rewrite Er; reflexivity | discriminate H |].
    destruct s as [|d' s']; [discriminate|]. injection H as ->.
    cbn [starts_with] in Hst. rewrite Ascii.eqb_refl in Hst. discriminate.
Qed.

End Dashes.

Lemma norm_pattern_dashes (s : string) :
  contains "--" s = false -> contains "--" (_norm_pattern s) = false.
Proof.
  intros H. rewrite norm_pattern_eq. apply strip_contains_false.
  unfold collapse, fill.
  apply (rewrite_dashes _ star_hit_suffix), (rewrite_dashes _ ph_hit_suffix), H.
Qed.

Lemma with_domain_dashes (s : string) :
  contains "--" s = false -> contains "--" (_with_domain s) = false.
Proof.
  intros H. unfold _with_domain. destruct (contains ":" s); [exact H|].
  simpl. destruct s; simpl in *; exact H.
Qed.

(** A quoted value without two dashes in a row gives a form without. *)
Lemma base_dashes (val : string) :
  contains "--" (_with_domain (_norm_pattern val)) = true -> contains "--" val = true.
Proof.
  destruct (contains "--" val) eqn:E; [reflexivity|].
  rewrite (with_domain_dashes _ (norm_pattern_dashes _ E)). discriminate.
Qed.

Lemma sibling_dashes (b : string) :
  contains "--" (b +:+ "-*") = true ->
  contains "--" b = true \/ ends_with "-" b = true.
Proof.
  rewrite contains2_app. destruct (contains "--" b); [auto|].
  destruct (ends_with "-" b); [auto|]. simpl. discriminate.
Qed.

(** *** The quoted value behind each code *)

Section From.
Context (text : string).

Lemma from_values_grows (a b : gset string) :
  a ⊆ b -> from_values text a ->
  (forall x, x ∈ b -> x ∈ a
     \/ exists val, in_quotes val text
          /\ (x = _with_domain (_norm_pattern val)
              \/ (x = _with_domain (_norm_pattern val) +:+ "-*"
                  /\ _with_domain (_norm_pattern val) ∈ b))) ->
  from_values text b.
Proof.
  intros Hab Ha Hb x Hx. destruct (Hb x Hx) as [Hxa|H]; [|exact H].
  destruct (Ha x Hxa) as (val & Hv & [->|[-> Hin]]); exists val; (split; [exact Hv|]);
    [left; reflexivity | right; split; [reflexivity | apply Hab, Hin]].
Qed.

Lemma add_code_from a m :
  (forall v, quoted_value m = Some v -> in_quotes v text) ->
  from_values text a -> from_values text (add_code a m).
Proof.
  intros Hm Ha. apply (from_values_grows a); [apply add_code_grows | exact Ha |].
  intros x. unfold add_code. destruct (quoted_value m) as [val|]; [|auto].
  intros [->%elem_of_singleton|Hx]%elem_of_union; [|auto].
  right. exists val. split; [apply Hm; reflexivity | left; reflexivity].
Qed.

Lemma add_code_and_sibling_from a m :
  (forall v, quoted_value m = Some v -> in_quotes v text) ->
  from_values text a -> from_values text (add_code_and_sibling a m).
Proof.
  intros Hm Ha.
  apply (from_values_grows a); [apply add_code_and_sibling_grows | exact Ha |].
  intros x. unfold add_code_and_sibling. destruct (quoted_value m) as [val|]; [|auto].
  cbn zeta. destruct (negb _ && negb _).
  - intros [->%elem_of_singleton|[->%elem_of_singleton|Hx]%elem_of_union]%elem_of_union;
      [| |auto]; right; exists val; (split; [apply Hm; reflexivity|]).
    + right. split; [reflexivity|]. set_solver.
    + left. reflexivity.
  - intros [->%elem_of_singleton|Hx]%elem_of_union; [|auto].
    right. exists val. split; [apply Hm; reflexivity | left; reflexivity].
Qed.

Lemma add_list_body_from a m :
  in_text text (m_groups m) -> from_values text a -> from_values text (add_list_body a m).
Proof.
  intros Hm Ha. unfold add_list_body.
  set (body := default EmptyString (group (m_groups m) 1)).
  assert (Hb : contains body text = true).
  { subst body. destruct (group (m_groups m) 1) as [v|] eqn:E; simpl.
    - eapply group_in_text; eassumption.
    - destruct text; reflexivity. }
  apply (foldl_inv_In (from_values text)); [|exact Ha].
  intros a' m' Hin Ha'. apply add_code_from; [|exact Ha'].
  intros v Hv. eapply in_quotes_trans; [|exact Hb].
  exact (finditer_in_quotes _ _ _ _ one_value_str Hin Hv).
Qed.

Lemma discovered_from_values : from_values text (_discover_codes_in_text text).
Proof.
  unfold _discover_codes_in_text.
  apply (foldl_inv_In (from_values text));
    [intros a m Hin Ha; apply add_list_body_from; [eapply finditer_in_text, Hin | exact Ha]|].
  apply (foldl_inv_In (from_values text));
    [intros a m Hin Ha; apply add_list_body_from; [eapply finditer_in_text, Hin | exact Ha]|].
  apply (foldl_inv_In (from_values text)).
  { intros a m Hin Ha. apply add_code_from; [|exact Ha].
    intros v Hv. exact (finditer_in_quotes _ _ _ _ one_value_code_path Hin Hv). }
  apply (foldl_inv_In (from_values text)).
  { intros a m Hin Ha. apply add_code_and_sibling_from; [|exact Ha].
    intros v Hv. exact (finditer_in_quotes _ _ _ _ one_value_code Hin Hv). }
  intros x Hx. set_solver.
Qed.

End From.

End ProvenanceFacts.

(* ================================================================== *)
(** ** The resolver after a direct root that fails *)

Module ResolverFacts.

Lemma try_candidates_none h cands : forall logs,
  (forall c, In c cands -> _validate_survival_dir h c = false) ->
  try_candidates h cands logs
  = (None, logs ++ List.map (fun c => try_line c false) cands).
Proof.
  induction cands as [|cand cands IH]; intros logs H; simpl.
  - rewrite List.app_nil_r. reflexivity.
  - rewrite (H cand) by (left; reflexivity).
    rewrite IH by (intros c Hc; apply H; right; exact Hc).
    rewrite <- List.app_assoc. reflexivity.
Qed.

(** The part of the resolver that reads the environment, as it runs on
    the log of what came before. *)
Lemma resolve_after_direct h env_key direct_root :
  (forall d x, direct_root = Some d -> Str.truthy d = true ->
     In x (_candidate_list_from_root h (expand h d)) ->
     _validate_survival_dir h x = false) ->
  exists logs,
    resolve_survival_dir h env_key direct_root
    = let '(found, logs) :=
        match env_key with
        | Some (String c k) =>
            match os_environ_get h (String c k) with
            | Some (String c' v) =>
                try_candidates h (_candidate_list_from_root h (String c' v))
                  (logs ++ ["Env " +:+ String c k +:+ ": " +:+ repr h (String c' v)])
            | _ => (None, logs ++ ["Env " +:+ String c k +:+ ": not set"])
            end
        | _ => (None, logs)
        end in
      match found with
      | Some cand => (Some cand, logs)
      | None => (None, logs ++ [failed_line])
      end.
Proof.
  intros Hd. unfold resolve_survival_dir.
  destruct direct_root as [[|c d]|]; try (eexists; reflexivity).
  rewrite try_candidates_none
    by (intros x Hx; apply (Hd (String c d)); [reflexivity | reflexivity | exact Hx]).
  eexists. reflexivity.
Qed.

End ResolverFacts.


(* ================================================================== *)
(** * The claims *)

(** ** C1: the patterns the code extractor returns *)

(** C1, as the code has it: for every input text, no pattern in the set
    returned by [_discover_codes_in_text] contains two consecutive stars.
    Every pattern is made from a value that stands between quotes in the
    text: it is the normalized form of the value with its domain, or the
    sibling of that form, the form with [-*] after it, the form being in
    the set as well.  And the extractor writes no dash but the one of the sibling: a
    pattern contains two dashes in a row only if its quoted value does, or
    if it is the sibling of a form that ends in a dash. *)
Theorem extracted_codes_no_double_star (text x : string) :
  x ∈ _discover_codes_in_text text ->
  Str.contains "**" x = false
  /\ exists val,
       in_quotes val text
       /\ (x = _with_domain (_norm_pattern val)
           \/ (x = _with_domain (_norm_pattern val) +:+ "-*"
               /\ _with_domain (_norm_pattern val) ∈ _discover_codes_in_text text))
       /\ (Str.contains "--" x = true ->
           Str.contains "--" val = true
           \/ (x = _with_domain (_norm_pattern val) +:+ "-*"
               /\ Str.ends_with "-" (_with_domain (_norm_pattern val)) = true)).
Proof.
  intros Hx. split; [exact (ExtractFacts.discovered_starless text x Hx)|].
  destruct (ProvenanceFacts.discovered_from_values text x Hx) as (val & Hv & Hfrom).
  exists val. split; [exact Hv|]. split; [exact Hfrom|].
  intros Hd. destruct Hfrom as [->|[-> _]].
  - left. apply ProvenanceFacts.base_dashes, Hd.
  - destruct (ProvenanceFacts.sibling_dashes _ Hd) as [H|H].
    + left. apply ProvenanceFacts.base_dashes, H.
    + right. split; [reflexivity | exact H].
Qed.

Lemma extracted_codes_no_double_star_witness :
  "game:ingot-*" ∈ _discover_codes_in_text ("code: " +:+ quoted "ingot-{metal}{type}")
  /\ Str.contains "**" "game:ingot-*" = false.
Proof.
  assert ("game:ingot-*" ∈ _discover_codes_in_text
            ("code: " +:+ quoted "ingot-{metal}{type}")) as H
    by (vm_compute; reflexivity).
  split; [exact H|].
  exact (proj1 (extracted_codes_no_double_star _ _ H)).
Defined.

(** C1 fails as written: a double dash of the source text stays in the
    pattern, and the sibling of a code that ends in a dash gets one. *)
Lemma extracted_code_with_double_dash :
  "game:a--b" ∈ _discover_codes_in_text ("code: " +:+ quoted "a--b")
  /\ Str.contains "--" "game:a--b" = true
  /\ "game:a--*" ∈ _discover_codes_in_text ("code: " +:+ quoted "a-")
  /\ Str.contains "--" "game:a--*" = true.
Proof. repeat split; vm_compute; reflexivity. Qed.

(** ** C2: rule 1 and its sibling *)

(** C2, as the code has it: every quoted value the scan of rule 1 finds
    after [code] and a colon has its normalized domain-qualified form in
    the result, and also that form followed by [-*] when the form neither
    ends in a star nor contains [-*]; and for every text in which that scan
    arrives at an occurrence of [code: "foo"] not preceded by a word
    character, the result holds both [game:foo] and [game:foo-*]; the
    scan does arrive there when the text before has no letter c. *)
Theorem code_rule_adds_code_and_sibling :
  (forall (text : string) (m : Re.rmatch) (val : string),
     In m (Re.finditer re_code text) -> quoted_value m = Some val ->
     let base := _with_domain (_norm_pattern val) in
     base ∈ _discover_codes_in_text text
     /\ (Str.ends_with "*" base = false -> Str.contains "-*" base = false ->
         base +:+ "-*" ∈ _discover_codes_in_text text))
  /\ (forall (text post : string) (prev : option ascii),
     Re.arrives re_code None text prev (code_foo +:+ post) ->
     Re.word_at prev = false ->
     "game:foo" ∈ _discover_codes_in_text text
     /\ "game:foo-*" ∈ _discover_codes_in_text text)
  /\ (forall (pre post : string),
     Str.all (Chars.not_char "c") pre = true ->
     Re.arrives re_code None (pre +:+ code_foo +:+ post)
       (Str.last pre) (code_foo +:+ post)).
Proof.
  split; [|split].
  - intros text m val Hin Hval. exact (ExtractFacts.rule1_adds text m val Hin Hval).
  - intros text post prev Harr Hprev.
    destruct (ExtractFacts.code_foo_match prev post Hprev) as (m & Hm & Hval).
    pose proof (ExtractFacts.arrives_finds _ _ _ _ _ Harr Hm) as Hin.
    destruct (ExtractFacts.rule1_adds text m "foo" Hin Hval) as [H1 H2].
    split; [exact H1 | apply H2; reflexivity].
  - intros pre post Hpre.
    pose proof (ExtractFacts.arrives_past None pre (code_foo +:+ post) Hpre) as H.
    unfold last_or in H. destruct (Str.last pre); exact H.
Qed.

Lemma code_rule_adds_code_and_sibling_witness :
  "game:foo" ∈ _discover_codes_in_text ("{ id: 7, " +:+ code_foo +:+ ", x: 1 }")
  /\ "game:foo-*" ∈ _discover_codes_in_text ("{ id: 7, " +:+ code_foo +:+ ", x: 1 }").
Proof.
  destruct code_rule_adds_code_and_sibling as (_ & Hfound & Harrives).
  apply (Hfound ("{ id: 7, " +:+ code_foo +:+ ", x: 1 }") ", x: 1 }" (Some " "%char)).
  - exact (Harrives "{ id: 7, " ", x: 1 }" eq_refl).
  - reflexivity.
Defined.

(** C2 fails as written: the text holds [code: "foo"], but inside the
    word [xcode], where rule 1 does not match. *)
Lemma code_inside_a_word_is_not_found :
  Str.contains code_foo ("x" +:+ code_foo) = true
  /\ "game:foo" ∉ _discover_codes_in_text ("x" +:+ code_foo).
Proof. split; [reflexivity|]. vm_compute. intros [=]. Qed.

(** ** C3: normalization is idempotent *)

(** C3: for every string [s], [_norm_pattern (_norm_pattern s)] is
    [_norm_pattern s]. *)
Theorem norm_pattern_idempotent (s : string) :
  _norm_pattern (_norm_pattern s) = _norm_pattern s.
Proof. apply NormFacts.norm_pattern_idem. Qed.

(** ** C4: the code under wildcard editing *)

(** C4, as the code has it: after any sequence of wildcard toggles and
    variant choices on an ingredient whose code at first has no trailing
    star, neither [--] nor [**] inside, and does not end in a star
    followed by a dash, the code holds neither [--] nor [**]; and the
    normalizer, run once or more on a wildcarded code, leaves the base
    without its trailing star and dashes, followed by the suffix: a result
    that holds [--] only if that base does, and [**] only if that base
    does or ends in a star. *)
Theorem wildcard_editing_keeps_code_clean :
  (forall (h : Host) (a : App) (ing : Ingredient) (ops : list op),
     grid_get (grid_items a) (selected a) = Some ing ->
     Str.contains "--" (code ing) = false ->
     Str.contains "**" (code ing) = false ->
     Str.ends_with "*" (code ing) = false ->
     Str.ends_with "*-" (code ing) = false ->
     forall ing',
       grid_get (grid_items (foldl (step h) a ops)) (selected a) = Some ing' ->
       Str.contains "--" (code ing') = false
       /\ Str.contains "**" (code ing') = false)
  /\ (forall (ing : Ingredient) (n : nat),
     Str.ends_with "*" (code ing) = true ->
     let base := Str.rstrip (Chars.is_char dash) (Str.drop_last (code ing)) in
     let ing' := Nat.iter (S n) _normalize_wildcard_code ing in
     code ing' = base +:+ suffix_for (scoped ing)
     /\ Str.ends_with "-" base = false
     /\ (Str.contains "--" base = false -> Str.contains "--" (code ing') = false)
     /\ (Str.contains "**" base = false -> Str.ends_with "*" base = false ->
         Str.contains "**" (code ing') = false)).
Proof.
  split.
  - intros h a ing ops Hg Hd Hs He Hsd ing' Hg'.
    assert (tidy_at (selected a) a) as Ht.
    { intros i Hi. rewrite Hg in Hi. injection Hi as <-.
      apply Wildcard.bare_tidy; assumption. }
    destruct (Wildcard.steps_tidy h ops a Ht) as [_ Hall].
    destruct (Hall ing' Hg') as [[H1 H2] _]. auto.
  - intros ing n He base ing'. subst ing'.
    rewrite ClaimFacts.normalize_iter, (Wildcard.normalize_code ing He). fold base.
    assert (Str.ends_with "-" base = false) as Hdash
      by apply Wildcard.rstrip_dash_no_dash.
    split; [reflexivity|]. split; [exact Hdash|]. split.
    + intros Hb. rewrite StrFacts.contains2_app, Hb, Hdash.
      destruct (scoped ing); reflexivity.
    + intros Hb Hstar. rewrite StrFacts.contains2_app, Hb, Hstar.
      destruct (scoped ing); reflexivity.
Qed.

Lemma wildcard_editing_keeps_code_clean_witness :
  Str.contains "--" "game:ingot-*" = false
  /\ Str.contains "**" "game:ingot-*" = false.
Proof.
  apply (proj1 wildcard_editing_keeps_code_clean Sample.host
           (Sample.one_slot "game:ingot-")
           (Sample.ingredient "game:ingot-" (Some "A"))
           [Toggle true; ChooseVariants ["copper"; "iron"] (String.eqb "iron");
            Toggle false; Toggle true; ChooseVariants ["copper"] (fun _ => true)]
           eq_refl eq_refl eq_refl eq_refl eq_refl
           (mkIngredient "game:ingot-*" 1%Z false 0%Z (Some "A") EmptyString ["copper"])).
  vm_compute. reflexivity.
Defined.

(** C4 fails as written: the code [a*-] has no trailing star, the toggle
    makes it [a**]; the normalizer leaves [a**] as it is; and what is
    inside a code stays: [a--b] becomes [a--b*]. *)
Lemma wildcard_toggle_makes_double_star :
  Str.ends_with "*" "a*-" = false
  /\ code <$> grid_get (grid_items (step Sample.host (Sample.one_slot "a*-") (Toggle true))) (0, 0)
     = Some "a**"
  /\ Str.contains "**" "a**" = true
  /\ code (_normalize_wildcard_code (Sample.ingredient "a**" None)) = "a**"
  /\ Str.ends_with "*" "a--b" = false
  /\ code <$> grid_get (grid_items (step Sample.host (Sample.one_slot "a--b") (Toggle true))) (0, 0)
     = Some "a--b*"
  /\ Str.contains "--" "a--b*" = true.
Proof. repeat split; vm_compute; reflexivity. Qed.

(** ** C5: the suffix of a normalized wildcard code *)

(** C5: for an ingredient whose code ends in a star, the normalizer
    strips that star, then the trailing dashes of what remains, and
    appends [-*] when [allowed_variants] is not empty and [*] when it is:
    with no variants the code ends in a star not preceded by a dash, with
    variants it ends in [-*]. *)
Theorem normalize_wildcard_suffix (ing : Ingredient) :
  Str.ends_with "*" (code ing) = true ->
  let ing' := _normalize_wildcard_code ing in
  code ing'
  = Str.rstrip (Chars.is_char dash) (Str.drop_last (code ing))
    +:+ (match allowed_variants ing with [] => "*" | _ :: _ => "-*" end)
  /\ (allowed_variants ing = [] ->
      Str.ends_with "*" (code ing') = true /\ Str.ends_with "-*" (code ing') = false)
  /\ (allowed_variants ing <> [] -> Str.ends_with "-*" (code ing') = true)
  /\ allowed_variants ing' = allowed_variants ing.
Proof.
  intros He ing'. subst ing'.
  rewrite (Wildcard.normalize_code ing He), Wildcard.normalize_variants.
  unfold scoped, suffix_for.
  pose proof (Wildcard.rstrip_dash_no_dash (Str.drop_last (code ing))) as Hdash.
  destruct (allowed_variants ing) as [|v l].
  - split; [reflexivity|]. split; [|split; [congruence | reflexivity]].
    intros _. split; [apply StrFacts.ends_with_app|].
    rewrite StrFacts.ends_with2_app1, Hdash. reflexivity.
  - split; [reflexivity|]. split; [discriminate|]. split; [|reflexivity].
    intros _. apply StrFacts.ends_with_app.
Qed.

Lemma normalize_wildcard_suffix_witness :
  code (_normalize_wildcard_code
          (mkIngredient "game:ingot---*" 1%Z false 0%Z None EmptyString ["iron"]))
  = "game:ingot-*"
  /\ code (_normalize_wildcard_code
          (mkIngredient "game:ingot-*" 1%Z false 0%Z None EmptyString []))
  = "game:ingot*".
Proof.
  split.
  - exact (proj1 (normalize_wildcard_suffix
      (mkIngredient "game:ingot---*" 1%Z false 0%Z None EmptyString ["iron"]) eq_refl)).
  - exact (proj1 (normalize_wildcard_suffix
      (mkIngredient "game:ingot-*" 1%Z false 0%Z None EmptyString []) eq_refl)).
Defined.

(** ** C6: the order of the candidates *)

(** C6: the candidates of a root, written [R] once expanded, are
    [R/assets/survival], [R/Vintagestory/assets/survival],
    [parent(R)/Vintagestory/assets/survival] and [R], in that order; the
    candidate loop tries them in order and returns the first that
    validates (an existing directory with an [itemtypes] directory in it),
    whatever the later ones are; and so does the resolver, for the direct
    root and, when there is no direct root or none of its candidates
    validates, for the value of the environment variable. *)
Theorem path_resolution_order (h : Host) :
  (forall root,
     let R := expand h root in
     _candidate_list_from_root h root
     = [ os_path_join h (os_path_join h R "assets") "survival";
         os_path_join h (os_path_join h (os_path_join h R "Vintagestory") "assets") "survival";
         os_path_join h (os_path_join h (os_path_join h (os_path_dirname h R) "Vintagestory") "assets") "survival";
         R ])
  /\ (forall path,
     _validate_survival_dir h path
     = os_path_isdir h path && os_path_isdir h (os_path_join h path "itemtypes"))
  /\ (forall before cand after logs,
     (forall c, In c before -> _validate_survival_dir h c = false) ->
     _validate_survival_dir h cand = true ->
     try_candidates h (before ++ cand :: after) logs
     = (Some cand,
        logs ++ List.map (fun c => try_line c false) before
             ++ [try_line cand true; found_line cand]))
  /\ (forall env_key c d before cand after,
     _candidate_list_from_root h (expand h (String c d)) = before ++ cand :: after ->
     (forall x, In x before -> _validate_survival_dir h x = false) ->
     _validate_survival_dir h cand = true ->
     (resolve_survival_dir h env_key (Some (String c d))).1 = Some cand)
  /\ (forall direct_root c k c' v before cand after,
     (forall d x, direct_root = Some d -> Str.truthy d = true ->
        In x (_candidate_list_from_root h (expand h d)) ->
        _validate_survival_dir h x = false) ->
     os_environ_get h (String c k) = Some (String c' v) ->
     _candidate_list_from_root h (String c' v) = before ++ cand :: after ->
     (forall x, In x before -> _validate_survival_dir h x = false) ->
     _validate_survival_dir h cand = true ->
     (resolve_survival_dir h (Some (String c k)) direct_root).1 = Some cand).
Proof.
  split; [reflexivity|]. split; [reflexivity|].
  split; [apply ClaimFacts.try_candidates_first|]. split.
  - intros env_key c d before cand after Hl Hb Hc.
    unfold resolve_survival_dir. rewrite Hl.
    rewrite (ClaimFacts.try_candidates_first h before cand after _ Hb Hc).
    reflexivity.
  - intros direct_root c k c' v before cand after Hd He Hl Hb Hc.
    destruct (ResolverFacts.resolve_after_direct h (Some (String c k)) direct_root Hd)
      as [logs ->].
    rewrite He, Hl.
    rewrite (ClaimFacts.try_candidates_first h before cand after _ Hb Hc).
    reflexivity.
Qed.

Lemma path_resolution_order_witness :
  _candidate_list_from_root Sample.host "/vs"
  = ["/vs/assets/survival"; "/vs/Vintagestory/assets/survival";
     "/Vintagestory/assets/survival"; "/vs"]
  /\ _validate_survival_dir Sample.host "/vs/assets/survival" = true
  /\ _validate_survival_dir Sample.host "/vs" = true
  /\ (resolve_survival_dir Sample.host None (Some "/vs")).1 = Some "/vs/assets/survival"
  /\ (resolve_survival_dir Sample.host (Some "VINTAGE_STORY") None).1
     = Some "/vs/assets/survival"
  /\ (resolve_survival_dir Sample.host (Some "VINTAGE_STORY") (Some "/nowhere")).1
     = Some "/vs/assets/survival".
Proof.
  destruct (path_resolution_order Sample.host) as (H1 & _ & _ & H4 & H5).
  split; [exact (H1 "/vs")|]. split; [reflexivity|]. split; [reflexivity|].
  split; [|split].
  - apply (H4 None "/"%char "vs" [] "/vs/assets/survival"
             ["/vs/Vintagestory/assets/survival"; "/Vintagestory/assets/survival"; "/vs"]).
    + reflexivity.
    + intros x [].
    + reflexivity.
  - apply (H5 None "V"%char "INTAGE_STORY" "/"%char "vs" [] "/vs/assets/survival"
             ["/vs/Vintagestory/assets/survival"; "/Vintagestory/assets/survival"; "/vs"]).
    + intros d x Hd. discriminate Hd.
    + reflexivity.
    + reflexivity.
    + intros x [].
    + reflexivity.
  - apply (H5 (Some "/nowhere") "V"%char "INTAGE_STORY" "/"%char "vs" []
             "/vs/assets/survival"
             ["/vs/Vintagestory/assets/survival"; "/Vintagestory/assets/survival"; "/vs"]).
    + intros d x [= <-] _ Hx. vm_compute in Hx.
      repeat (destruct Hx as [<-|Hx]; [reflexivity|]). destruct Hx.
    + reflexivity.
    + reflexivity.
    + intros x [].
    + reflexivity.
Defined.

(** ** C7: a symbol already used by another code *)

(** C7: when the letter the user types for the selected ingredient is
    the symbol of an ingredient of the grid with another code, the
    assignment is rejected: no ingredient of the grid changes, the table
    of symbols by code does not change, the entry shows the symbol the
    ingredient had, and one error is shown. *)
Theorem symbol_collision_is_rejected (h : Host) (a : App)
    (ing other : Ingredient) (pos : nat * nat) :
  grid_get (grid_items a) (selected a) = Some ing ->
  Str.truthy (first_letter h (symbol_var a)) = true ->
  In pos cells -> pos <> selected a ->
  grid_get (grid_items a) pos = Some other ->
  code other <> code ing ->
  symbol other = Some (first_letter h (symbol_var a)) ->
  let a' := _apply_symbol_live h a in
  grid_items a' = grid_items a
  /\ code_to_symbol a' = code_to_symbol a
  /\ symbol_var a' = symbol_or ing EmptyString
  /\ errors a'
     = errors a ++ [("Duplicate symbol",
                     "Symbol '" +:+ first_letter h (symbol_var a)
                     +:+ "' is already used by another ingredient.")].
Proof.
  intros Hg Hf Hin Hne Ho Hcode Hsym a'. subst a'.
  unfold _apply_symbol_live. rewrite Hg, Hf. cbn [negb].
  assert (existsb (collides (grid_items a) (selected a) ing
            (first_letter h (symbol_var a))) cells = true) as ->.
  { apply existsb_exists. exists pos. split; [exact Hin|].
    unfold collides. rewrite Ho. rewrite bool_decide_eq_false_2 by exact Hne.
    rewrite bool_decide_eq_true_2 by exact Hsym.
    apply String.eqb_neq in Hcode. rewrite Hcode. reflexivity. }
  repeat split; reflexivity.
Qed.

Lemma symbol_collision_is_rejected_witness :
  let a' := _apply_symbol_live Sample.host Sample.plank_and_log in
  grid_items a' = grid_items Sample.plank_and_log
  /\ code_to_symbol a' = ∅
  /\ symbol_var a' = "B"
  /\ errors a'
     = [("Duplicate symbol", "Symbol 'A' is already used by another ingredient.")].
Proof.
  exact (symbol_collision_is_rejected Sample.host Sample.plank_and_log
           (Sample.ingredient "game:log" (Some "B"))
           (Sample.ingredient "game:plank" (Some "A")) (0, 0)
           eq_refl eq_refl (or_introl eq_refl)
           ltac:(discriminate) eq_refl ltac:(discriminate) eq_refl).
Defined.

(** ** C8: the corpus at [game:ingot-] *)

(** C8, as the code has it: each match of the domain-qualified or of the
    bare triple rule in a definition file puts its token in the set at
    the key [domain:base-]; and for a tree whose definition files hold
    the literals [game:ingot-copper] and [game:ingot-iron], each followed
    by the end of the text or by a character that is not of a word, and
    in which the rules match nothing else for domain [game] and base
    [ingot], the corpus maps [game:ingot-] to exactly copper and iron. *)
Theorem corpus_ingot_scenario (h : Host) (survival : string) :
  (forall d b t, occurs h survival d b t ->
     exists tokens,
       _collect_corpus_variants h survival !! (d +:+ ":" +:+ b +:+ "-") = Some tokens
       /\ t ∈ tokens)
  /\ ((forall t, occurs h survival "game" "ingot" t -> t = "copper" \/ t = "iron") ->
      file_has_word h survival "game:ingot-copper" ->
      file_has_word h survival "game:ingot-iron" ->
      _collect_corpus_variants h survival !! "game:ingot-"
      = Some {[ "copper"; "iron" ]}).
Proof.
  split; [apply IngotFacts.occurs_inserted|].
  intros Honly Hc Hi.
  apply (IngotFacts.ingot_word_occurs h survival "copper") in Hc; [|split; reflexivity].
  apply (IngotFacts.ingot_word_occurs h survival "iron") in Hi; [|split; reflexivity].
  destruct (IngotFacts.occurs_inserted _ _ _ _ _ Hc) as (tokens & Hl & _).
  change (make_key "game" "ingot") with "game:ingot-" in Hl. rewrite Hl. f_equal.
  apply set_eq. intros x.
  assert (x ∈ tokens <-> x ∈ tokens_at (_collect_corpus_variants h survival) "game:ingot-")
    as -> by (unfold tokens_at; rewrite Hl; reflexivity).
  rewrite CorpusFacts.corpus_tokens. split.
  - intros (d & b & Hkey & Ho).
    apply (IngotFacts.ingot_key_occurs _ _ _ _ _ Hkey), Honly in Ho.
    set_solver.
  - intros Hx. exists "game", "ingot". split; [reflexivity|].
    apply elem_of_union in Hx as [->%elem_of_singleton | ->%elem_of_singleton];
      assumption.
Qed.

Lemma corpus_ingot_scenario_witness :
  _collect_corpus_variants Sample.host "/vs/assets/survival" !! "game:ingot-"
  = Some {[ "copper"; "iron" ]}.
Proof.
  apply (proj2 (corpus_ingot_scenario Sample.host "/vs/assets/survival")).
  - intros t Ho.
    assert (t ∈ tokens_at (_collect_corpus_variants Sample.host "/vs/assets/survival")
                  "game:ingot-") as Ht
      by (apply CorpusFacts.corpus_tokens; exists "game", "ingot"; auto).
    replace (tokens_at (_collect_corpus_variants Sample.host "/vs/assets/survival")
               "game:ingot-")
      with ({[ "copper"; "iron" ]} : gset string) in Ht by (vm_compute; reflexivity).
    set_solver.
  - exists "/vs/assets/survival/itemtypes/ingot.json",
      ("{ code: " +:+ quoted "ingot" +:+ ", variants: [ " +:+ dq),
      (dq +:+ ", " +:+ quoted "game:ingot-iron" +:+ " ] }").
    split; [vm_compute; left; reflexivity|]. split; reflexivity.
  - exists "/vs/assets/survival/itemtypes/ingot.json",
      ("{ code: " +:+ quoted "ingot" +:+ ", variants: [ "
       +:+ quoted "game:ingot-copper" +:+ ", " +:+ dq),
      (dq +:+ " ] }").
    split; [vm_compute; left; reflexivity|]. split; reflexivity.
Defined.

(** C8 fails as written: the one definition file holds both literals and
    the rules match nothing else for base [ingot], but [game:ingot-copper]
    is followed by a letter outside [[a-z0-9_]], so neither rule matches it
    and the corpus has iron alone. *)
Lemma corpus_literal_without_boundary :
  Str.contains "game:ingot-copper" Sample.accent_text = true
  /\ Str.contains "game:ingot-iron" Sample.accent_text = true
  /\ _collect_corpus_variants (Sample.host_with Sample.accent_text)
       "/vs/assets/survival" !! "game:ingot-"
     = Some {[ "iron" ]}
  /\ ({[ "iron" ]} : gset string) <> {[ "copper"; "iron" ]}.
Proof.
  split; [reflexivity|]. split; [reflexivity|]. split; [vm_compute; reflexivity|].
  intros H. assert ("copper" ∈ ({[ "iron" ]} : gset string)) as Hin
    by (rewrite H; set_solver).
  apply elem_of_singleton in Hin. discriminate Hin.
Qed.

(** ** C9: no asset root *)



(** ** C10: the keys and sets of the corpus *)

(** C10: in every corpus the builder returns, a key is a domain of lower
    case letters, digits and underscores, a colon, a base that is not
    empty, and one dash: it ends in a dash and not in two; and the set at
    a key is not empty and holds no empty token. *)
Theorem corpus_entries_well_formed (h : Host) (survival key : string)
    (tokens : gset string) :
  _collect_corpus_variants h survival !! key = Some tokens ->
  (exists d b,
     key = d +:+ ":" +:+ b +:+ "-"
     /\ Str.all Chars.is_ident d = true /\ Str.lower d = d /\ Str.truthy d = true
     /\ Str.all (Chars.icase Chars.is_ident) b = true /\ Str.truthy b = true)
  /\ Str.ends_with "-" key = true /\ Str.ends_with "--" key = false
  /\ tokens <> ∅
  /\ (forall t, t ∈ tokens -> Str.truthy t = true).
Proof.
  intros Hl.
  destruct (CorpusFacts.corpus_good h survival key tokens Hl)
    as ((d & b & Hk & Hd & Hdt & [Hb Hbt] & He1 & He2) & Hne & Ht).
  split; [|auto].
  exists d, b. repeat split; auto using ClaimFacts.all_ident_lower.
Qed.

Lemma corpus_entries_well_formed_witness :
  Str.ends_with "-" "game:ingot-" = true /\ Str.ends_with "--" "game:ingot-" = false
  /\ ({[ "copper"; "iron" ]} : gset string) <> ∅.
Proof.
  assert (_collect_corpus_variants Sample.host "/vs/assets/survival" !! "game:ingot-"
          = Some {[ "copper"; "iron" ]}) as H by (vm_compute; reflexivity).
  destruct (corpus_entries_well_formed _ _ _ _ H) as (_ & H1 & H2 & H3 & _).
  auto.
Defined.


(* ================================================================== *)
(** * Further properties of the program *)

(** ** Scanning and discovery *)

(** X1: every code the extractor returns carries a domain: it holds a
    colon, whatever the text; [_with_domain] gives a code a domain once
    and leaves a code that has one as it is. *)
Theorem discovered_codes_carry_a_domain (text x : string) :
  x ∈ _discover_codes_in_text text ->
  Str.contains ":" x = true /\ _with_domain x = x.
Proof.
  intros H. pose proof (DiscoveryFacts.discovered_colon text x H) as Hc.
  split; [exact Hc|]. unfold _with_domain. simpl in Hc. rewrite Hc. reflexivity.
Qed.

Lemma discovered_codes_carry_a_domain_witness :
  "game:plank-*" ∈ _discover_codes_in_text ("groupBy: ['plank-{wood}']")
  /\ Str.contains ":" "game:plank-*" = true /\ _with_domain "game:plank-*" = "game:plank-*".
Proof.
  assert ("game:plank-*" ∈ _discover_codes_in_text ("groupBy: ['plank-{wood}']")) as H
    by (vm_compute; reflexivity).
  split; [exact H|].
  exact (discovered_codes_carry_a_domain _ _ H).
Defined.

(** X2: a text with no quotation mark, double or single, yields no code:
    every rule of the extractor reads its values from quoted strings. *)
Theorem text_without_quotes_yields_no_code (text : string) :
  Str.all (fun c => Chars.not_char dquote c && Chars.not_char squote c) text = true ->
  _discover_codes_in_text text = ∅.
Proof. apply DiscoveryFacts.discover_no_quote. Qed.

Lemma text_without_quotes_yields_no_code_witness :
  _discover_codes_in_text "code: ingot, groupBy: [plank-*], allowedVariants: [a, b]" = ∅.
Proof. apply text_without_quotes_yields_no_code. vm_compute. reflexivity. Defined.


(** X4: the directory the resolver returns is one that validates, and it
    is a candidate of the direct root or of the value of the environment
    variable; the resolver returns none only when no candidate of either
    validates; the log starts with the opening line and ends with the
    line of the directory found, or with the line of failure. *)
Theorem resolved_dir_is_valid (h : Host) (env_key direct_root : option string) :
  let r := resolve_survival_dir h env_key direct_root in
  head r.2 = Some "---- Starting discovery ----"
  /\ match r.1 with
     | Some p =>
         _validate_survival_dir h p = true
         /\ last r.2 = Some (found_line p)
         /\ ((exists d, direct_root = Some d
                        /\ In p (_candidate_list_from_root h (expand h d)))
             \/ (exists k v, env_key = Some k /\ os_environ_get h k = Some v
                             /\ In p (_candidate_list_from_root h v)))
     | None =>
         last r.2 = Some (failed_line)
         /\ (forall d, direct_root = Some d -> Str.truthy d = true ->
               forall c, In c (_candidate_list_from_root h (expand h d)) ->
                         _validate_survival_dir h c = false)
         /\ (forall k v, env_key = Some k -> Str.truthy k = true ->
               os_environ_get h k = Some v -> Str.truthy v = true ->
               forall c, In c (_candidate_list_from_root h v) ->
                         _validate_survival_dir h c = false)
     end.
Proof.
  unfold resolve_survival_dir.
  assert (Happ : forall (l l' : list string) x, head l = Some x -> head (l ++ l') = Some x)
    by (intros [|y l] l' x; [discriminate | exact id]).
  (* the part of the resolver after the direct root *)
  assert (Hrest : forall logs (P : string -> Prop),
    (forall d, direct_root = Some d -> Str.truthy d = true -> P d) ->
    head logs = Some "---- Starting discovery ----" ->
    let r :=
      (let '(found, logs0) :=
         match env_key with
         | Some (String c k) =>
             match os_environ_get h (String c k) with
             | Some (String c' v) =>
                 try_candidates h (_candidate_list_from_root h (String c' v))
                   (logs ++ ["Env " +:+ String c k +:+ ": " +:+ repr h (String c' v)])
             | _ => (None, logs ++ ["Env " +:+ String c k +:+ ": not set"])
             end
         | _ => (None, logs)
         end in
       match found with
       | Some cand => (Some cand, logs0)
       | None => (None, logs0 ++ [failed_line])
       end) in
    head r.2 = Some "---- Starting discovery ----"
    /\ match r.1 with
       | Some p =>
           _validate_survival_dir h p = true
           /\ last r.2 = Some (found_line p)
           /\ ((exists d, direct_root = Some d
                          /\ In p (_candidate_list_from_root h (expand h d)))
               \/ (exists k v, env_key = Some k /\ os_environ_get h k = Some v
                               /\ In p (_candidate_list_from_root h v)))
       | None =>
           last r.2 = Some failed_line
           /\ (forall d, direct_root = Some d -> Str.truthy d = true -> P d)
           /\ (forall k v, env_key = Some k -> Str.truthy k = true ->
                 os_environ_get h k = Some v -> Str.truthy v = true ->
                 forall c, In c (_candidate_list_from_root h v) ->
                           _validate_survival_dir h c = false)
       end).
  { intros logs P HP Hl. destruct env_key as [[|c k]|].
    - simpl. split; [apply Happ, Hl|]. split; [apply last_snoc|]. split; [exact HP|].
      intros k v [= <-]. discriminate.
    - destruct (os_environ_get h (String c k)) as [[|c' v]|] eqn:Ev.
      + simpl. split; [apply Happ, Happ, Hl|]. split; [apply last_snoc|].
        split; [exact HP|].
        intros k' v' [= <-] _. rewrite Ev. intros [= <-]. discriminate.
      + destruct (try_candidates h _ _) as [found logs'] eqn:E.
        apply DiscoveryFacts.try_candidates_sound in E. destruct found as [p|]; simpl.
        * destruct E as (Hv & Hin & before & ->).
          split; [apply Happ, Happ, Hl|]. split; [exact Hv|]. split.
          -- rewrite List.app_assoc. apply last_snoc.
          -- right. exists (String c k), (String c' v). auto.
        * destruct E as [Hall ->].
          split; [apply Happ, Happ, Happ, Hl|]. split; [apply last_snoc|].
          split; [exact HP|].
          intros k' v' [= <-] _. rewrite Ev. intros [= <-] _. exact Hall.
      + simpl. split; [apply Happ, Happ, Hl|]. split; [apply last_snoc|].
        split; [exact HP|].
        intros k' v' [= <-] _. rewrite Ev. discriminate.
    - simpl. split; [apply Happ, Hl|]. split; [apply last_snoc|]. split; [exact HP|].
      intros; discriminate. }
  cbv zeta. destruct direct_root as [[|c d]|].
  - apply (Hrest ["---- Starting discovery ----"]
             (fun d => forall c, In c (_candidate_list_from_root h (expand h d)) ->
                                 _validate_survival_dir h c = false));
      [intros d [= <-]; discriminate | reflexivity].
  - destruct (try_candidates h _ _) as [found logs'] eqn:E.
    apply DiscoveryFacts.try_candidates_sound in E. destruct found as [p|].
    + destruct E as (Hv & Hin & before & ->). simpl. split.
      * destruct (negb _); reflexivity.
      * split; [exact Hv|]. split.
        -- rewrite List.app_assoc. apply last_snoc.
        -- left. exists (String c d). auto.
    + destruct E as [Hall ->].
      apply (Hrest _
             (fun d => forall c, In c (_candidate_list_from_root h (expand h d)) ->
                                 _validate_survival_dir h c = false)).
      * intros d0 [= <-] _. exact Hall.
      * destruct (negb _); reflexivity.
  - apply (Hrest ["---- Starting discovery ----"]
             (fun d => forall c, In c (_candidate_list_from_root h (expand h d)) ->
                                 _validate_survival_dir h c = false));
      [intros; discriminate | reflexivity].
Qed.

(** X5: the bare rule of the corpus files codes of every domain under
    [game]: where a definition file holds a base, a dash and a token,
    each of letters, digits and underscores, after a character that is
    neither of a word nor a dash (the colon of [mymod:base-token], a quote,
    a space) and before the end of the text or a character that is not of
    a word, the corpus has the token at the key [game:base-]. *)
Theorem corpus_files_every_domain_under_game (h : Host)
    (survival full pre b t post : string) (x : ascii) :
  In full (definition_files h survival) ->
  read_text h full = Some (pre +:+ String x (b +:+ String dash (t +:+ post))) ->
  Chars.is_word x = false -> x <> dash ->
  ident_word b -> ident_word t -> Re.word_at (Str.head post) = false ->
  exists tokens,
    _collect_corpus_variants h survival !! ("game:" +:+ b +:+ "-") = Some tokens
    /\ t ∈ tokens.
Proof.
  intros Hin Hread Hw Hx Hb Ht Hpost.
  apply (IngotFacts.occurs_inserted h survival "game" b t).
  exists full, (pre +:+ String x (b +:+ String dash (t +:+ post))).
  split; [exact Hin|]. split; [exact Hread|].
  apply ScanFacts.bare_occurrence; try assumption.
  unfold ident_or_dash. apply orb_false_iff. split.
  - destruct (ident_ic x) eqn:E; [|reflexivity].
    apply ScanFacts.ident_is_word in E. congruence.
  - apply Ascii.eqb_neq. congruence.
Qed.

Lemma corpus_files_every_domain_under_game_witness :
  exists tokens,
    _collect_corpus_variants (Sample.host_with "mymod:gear-rusty") "/vs/assets/survival"
      !! "game:gear-" = Some tokens
    /\ "rusty" ∈ tokens.
Proof.
  apply (corpus_files_every_domain_under_game (Sample.host_with "mymod:gear-rusty")
           "/vs/assets/survival" "/vs/assets/survival/itemtypes/ingot.json"
           "mymod" "gear" "rusty" EmptyString ":"%char).
  - vm_compute. left. reflexivity.
  - reflexivity.
  - reflexivity.
  - discriminate.
  - split; reflexivity.
  - split; reflexivity.
  - reflexivity.
Defined.


(** ** The side panel *)

(** X6: whatever the two entries hold, after [_side_apply] the selected
    ingredient has a quantity of at least 1, a tool cost of at least 0 and
    the tool flag of the check box, and keeps its symbol and its name; no
    other cell changes; with no ingredient selected nothing changes. *)
Theorem side_apply_keeps_bounds (h : Host) (a : App) :
  let a' := _side_apply h a in
  (forall ing, grid_get (grid_items a) (selected a) = Some ing ->
     exists ing', grid_get (grid_items a') (selected a) = Some ing'
       /\ (1 <= quantity ing')%Z /\ (0 <= tool_cost ing')%Z
       /\ is_tool ing' = is_tool_var a
       /\ symbol ing' = symbol ing /\ name ing' = name ing)
  /\ (forall q, q <> selected a ->
        grid_get (grid_items a') q = grid_get (grid_items a) q)
  /\ (grid_get (grid_items a) (selected a) = None -> a' = a).
Proof.
  cbv zeta. unfold _side_apply.
  destruct (grid_get (grid_items a) (selected a)) as [ing|] eqn:Hg.
  2:{ split; [intros; discriminate|]. split; reflexivity. }
  set (ing1 := apply_wildcard _ _).
  set (a1 := with_slot_code_val _ _).
  assert (Hsel : selected a1 = selected a) by reflexivity.
  assert (Hg1 : grid_get (grid_items a1) (selected a1) = Some ing1).
  { apply GridFacts.grid_get_set_eq. eapply GridFacts.grid_get_in_grid, Hg. }
  assert (H1 : (1 <= quantity ing1)%Z /\ (0 <= tool_cost ing1)%Z
               /\ is_tool ing1 = is_tool_var a
               /\ symbol ing1 = symbol ing /\ name ing1 = name ing).
  { assert (Hq : (1 <= int_at_least h 1 1 (qty_var a))%Z)
      by (unfold int_at_least; destruct (int_of h _); lia).
    assert (Hc : (0 <= int_at_least h 0 0 (tool_cost_var a))%Z)
      by (unfold int_at_least; destruct (int_of h _); lia).
    subst ing1. unfold apply_wildcard.
    destruct (Str.truthy _); [|simpl; auto].
    destruct (wildcard_var a).
    - match goal with |- context [_normalize_wildcard_code ?x] =>
        destruct (GridFacts.normalize_fields x) as (-> & -> & -> & -> & ->) end.
      destruct (negb _); simpl; auto.
    - destruct (Str.ends_with _ _); simpl; auto. }
  split; [|split; [|intros; discriminate]].
  - intros ? [= <-]. rewrite <- Hsel.
    destruct (GridFacts.uvui_selected_cell a1 ing1 Hg1) as [->| ->].
    + exists ing1. split; [reflexivity | exact H1].
    + eexists. split; [reflexivity|].
      match goal with |- context [_normalize_wildcard_code ?x] =>
        destruct (GridFacts.normalize_fields x) as (-> & -> & -> & -> & ->) end.
      exact H1.
  - intros q Hq. rewrite GridFacts.uvui_other by (rewrite Hsel; exact Hq).
    apply GridFacts.grid_get_set_ne. congruence.
Qed.

(** X7: checking and then unchecking [Allow variants] on an ingredient
    whose code is not empty, ends neither in a star nor in a dash, and
    that has no variants, first gives the code a star and then gives the
    code back: the ingredient ends with its old code, no variants, and
    the fields of the entries. *)
Theorem wildcard_on_then_off_restores_code (h : Host) (a : App) (ing : Ingredient) :
  grid_get (grid_items a) (selected a) = Some ing ->
  Str.truthy (code ing) = true ->
  Str.ends_with "*" (code ing) = false ->
  Str.ends_with "-" (code ing) = false ->
  allowed_variants ing = [] ->
  let a1 := _side_apply h (with_wildcard_var true a) in
  let a2 := _side_apply h (with_wildcard_var false a1) in
  code <$> grid_get (grid_items a1) (selected a) = Some (code ing +:+ "*")
  /\ grid_get (grid_items a2) (selected a)
     = Some (mkIngredient (code ing) (int_at_least h 1 1 (qty_var a)) (is_tool_var a)
               (int_at_least h 0 0 (tool_cost_var a)) (symbol ing) (name ing) []).
Proof.
  intros Hg Ht Hstar Hdash Hv. cbv zeta.
  assert (Hin : in_grid (grid_items a) (selected a))
    by (eapply GridFacts.grid_get_in_grid, Hg).
  (* the first click *)
  set (ing1 := mkIngredient (code ing +:+ "*") (int_at_least h 1 1 (qty_var a))
                 (is_tool_var a) (int_at_least h 0 0 (tool_cost_var a))
                 (symbol ing) (name ing) []).
  assert (Eg : grid_items (_side_apply h (with_wildcard_var true a))
               = grid_set (grid_items a) (selected a) (Some ing1)).
  { unfold _side_apply. simpl. rewrite Hg.
    assert (Hw : apply_wildcard true
                   (set_tool_fields (is_tool_var a)
                      (int_at_least h 0 0 (tool_cost_var a))
                      (int_at_least h 1 1 (qty_var a)) ing) = ing1).
    { unfold apply_wildcard. simpl. rewrite Ht, Hstar. simpl.
      unfold _normalize_wildcard_code. simpl.
      rewrite StrFacts.ends_with_app.
      rewrite (StrFacts.ends_with_nonempty _ _ _ (StrFacts.ends_with_app "*" (code ing))).
      simpl. rewrite Hv. unfold set_code. simpl.
      rewrite (StrFacts.drop_last_app1 (code ing) "*"), Wildcard.rstrip_dash_id by exact Hdash.
      rewrite Hv. reflexivity. }
    rewrite Hw.
    rewrite (GridFacts.uvui_grid_no_variants _ ing1); [reflexivity| |reflexivity].
    simpl. apply GridFacts.grid_get_set_eq, Hin. }
  pose proof (Wildcard.side_apply_selected h (with_wildcard_var true a)) as Es.
  destruct (GridFacts.side_apply_vars h (with_wildcard_var true a)) as (Et & Ec & Eq & _).
  simpl in Es, Et, Ec, Eq.
  split.
  - rewrite Eg, GridFacts.grid_get_set_eq by exact Hin. reflexivity.
  - (* the second click *)
    unfold _side_apply at 1. simpl. rewrite Es, Eg, Et, Ec, Eq.
    rewrite GridFacts.grid_get_set_eq by exact Hin.
    rewrite GridFacts.uvui_grid_not_wild by reflexivity. simpl.
    rewrite GridFacts.grid_get_set_eq by (apply GridFacts.in_grid_set, Hin).
    f_equal. unfold apply_wildcard. simpl.
    rewrite (StrFacts.ends_with_nonempty _ _ _ (StrFacts.ends_with_app "*" (code ing))).
    rewrite StrFacts.ends_with_app. simpl.
    unfold set_allowed_variants, set_code. simpl.
    rewrite (StrFacts.drop_last_app1 (code ing) "*"). reflexivity.
Qed.

Lemma wildcard_on_then_off_restores_code_witness :
  let a1 := _side_apply Sample.host (with_wildcard_var true (Sample.one_slot "game:plank")) in
  let a2 := _side_apply Sample.host (with_wildcard_var false a1) in
  code <$> grid_get (grid_items a1) (0, 0) = Some "game:plank*"
  /\ grid_get (grid_items a2) (0, 0)
     = Some (mkIngredient "game:plank" 1 false 0 (Some "A") EmptyString []).
Proof.
  exact (wildcard_on_then_off_restores_code Sample.host (Sample.one_slot "game:plank")
           (Sample.ingredient "game:plank" (Some "A"))
           eq_refl eq_refl eq_refl eq_refl eq_refl).
Defined.

(** X8: both wildcard forms of a base that does not end in a dash, the
    open one [base*] and the scoped one [base-*], look up the same key of
    the variant corpus: the base with its domain, [game] when it has none,
    and one dash. *)
Theorem wildcard_forms_share_the_corpus_key (b : string) :
  Str.ends_with "-" b = false ->
  variant_key (b +:+ "*") = _with_domain b +:+ "-"
  /\ variant_key (b +:+ "-*") = _with_domain b +:+ "-".
Proof.
  intros Hb. unfold variant_key, _with_domain. split.
  - rewrite (StrFacts.drop_last_app1 b "*"), Hb. simpl.
    destruct (Str.contains ":" b); simpl; [reflexivity|].
    rewrite StrFacts.app_assoc. reflexivity.
  - rewrite (StrFacts.app2 b "-" "*"), (StrFacts.drop_last_app1 _ "*").
    rewrite (MoreStr.contains1_app1 ":" "-" b), orb_false_r.
    rewrite (StrFacts.ends_with_app "-" b).
    destruct (Str.contains ":" b); simpl; [reflexivity|].
    rewrite StrFacts.app_assoc. reflexivity.
Qed.

Lemma wildcard_forms_share_the_corpus_key_witness :
  variant_key "ingot*" = "game:ingot-" /\ variant_key "ingot-*" = "game:ingot-".
Proof. exact (wildcard_forms_share_the_corpus_key "ingot" eq_refl). Defined.

(** X9: confirming the variants dialog while [Allow variants] is checked
    leaves the ingredient with the variants checked, in the order of the
    options, and with the code in the matching form: its base without
    trailing star and dashes, then [-*] when a variant is checked and [*]
    when none is; the summary names the variants, up to five, or counts
    them; no other cell changes. *)
Theorem variants_dialog_sets_variants_and_form (pos : nat * nat)
    (options : list string) (checked : string -> bool) (a : App) (ing : Ingredient) :
  grid_get (grid_items a) pos = Some ing ->
  wildcard_var a = true ->
  let chosen := List.filter checked options in
  let a' := variants_dialog_ok pos options checked a in
  grid_get (grid_items a') pos
  = Some (mkIngredient
            (stripped_base (code ing)
             +:+ match chosen with [] => "*" | _ :: _ => "-*" end)
            (quantity ing) (is_tool ing) (tool_cost ing) (symbol ing) (name ing) chosen)
  /\ variants_summary a'
     = match chosen with
       | [] => "(none selected)"
       | _ :: _ => if Nat.leb (length chosen) 5 then Str.join ", " chosen
                   else pretty (length chosen) +:+ " selected"
       end
  /\ (forall q, q <> pos -> grid_get (grid_items a') q = grid_get (grid_items a) q).
Proof.
  intros Hg Hw. cbv zeta. unfold variants_dialog_ok. rewrite Hg, Hw.
  assert (Hin : in_grid (grid_items a) pos) by (eapply GridFacts.grid_get_in_grid, Hg).
  set (chosen := List.filter checked options).
  set (ing1 := _normalize_wildcard_code _).
  assert (E : ing1 = mkIngredient
            (stripped_base (code ing)
             +:+ match chosen with [] => "*" | _ :: _ => "-*" end)
            (quantity ing) (is_tool ing) (tool_cost ing) (symbol ing) (name ing) chosen).
  { subst ing1. unfold _normalize_wildcard_code, stripped_base, strip_star. simpl.
    fold chosen. destruct (Str.ends_with "*" (code ing)) eqn:Es; simpl.
    - rewrite Es, (StrFacts.ends_with_nonempty _ _ _ Es). simpl.
      destruct chosen; reflexivity.
    - rewrite StrFacts.ends_with_app.
      rewrite (StrFacts.ends_with_nonempty _ _ _ (StrFacts.ends_with_app "*" (code ing))).
      simpl. rewrite (StrFacts.drop_last_app1 (code ing) "*").
      destruct chosen; reflexivity. }
  clearbody ing1. subst ing1.
  unfold _update_variants_summary. simpl grid_items.
  rewrite GridFacts.grid_get_set_eq by exact Hin. simpl allowed_variants.
  destruct chosen as [|v l] eqn:Ec.
  - simpl. rewrite GridFacts.grid_get_set_eq by exact Hin.
    split; [reflexivity|]. split; [reflexivity|].
    intros q Hq. apply GridFacts.grid_get_set_ne. congruence.
  - rewrite <- Ec. unfold chosen in *. rewrite MoreStr.filter_in_options. rewrite Ec.
    destruct (Nat.leb _ _); simpl;
      (rewrite GridFacts.grid_get_set_eq by exact Hin;
       split; [reflexivity|]; split; [reflexivity|];
       intros q Hq; apply GridFacts.grid_get_set_ne; congruence).
Qed.

Lemma variants_dialog_sets_variants_and_form_witness :
  let a' := variants_dialog_ok (0, 0) ["copper"; "iron"; "tin"]
              (fun v => bool_decide (v ∈ ["tin"; "copper"]))
              (with_wildcard_var true (Sample.one_slot "game:ingot*")) in
  grid_get (grid_items a') (0, 0)
  = Some (mkIngredient "game:ingot-*" 1 false 0 (Some "A") EmptyString ["copper"; "tin"])
  /\ variants_summary a' = "copper, tin".
Proof.
  pose proof (variants_dialog_sets_variants_and_form (0, 0) ["copper"; "iron"; "tin"]
                (fun v => bool_decide (v ∈ ["tin"; "copper"]))
                (with_wildcard_var true (Sample.one_slot "game:ingot*"))
                (Sample.ingredient "game:ingot*" (Some "A")) eq_refl eq_refl) as H.
  cbv zeta in H. destruct H as (H1 & H2 & _). split; [exact H1 | exact H2].
Defined.


(** ** Symbols *)

(** X10: for a grid of fewer than 26 cells, [_symbol_for_code] never
    falls back to the letter X for want of a free one.  It returns the
    letter the table has for the code, leaving the table as it is, and
    then that letter, if it is on the grid at all, is on an ingredient
    with this code; or it returns a letter from A to Z that no ingredient
    of the grid has, and records it for the code.  Either way the table
    has the letter returned for the code, and the grid is not touched. *)
Theorem symbol_for_code_is_remembered_or_free (c : string) (a : App) :
  length (concat (grid_items a)) < 26 ->
  let r := _symbol_for_code c a in
  code_to_symbol r.2 !! c = Some r.1
  /\ grid_items r.2 = grid_items a
  /\ ((code_to_symbol a !! c = Some r.1 /\ r.2 = a
       /\ ((exists p x, grid_get (grid_items a) p = Some x /\ symbol x = Some r.1
                        /\ Str.truthy r.1 = true) ->
           exists q y, grid_get (grid_items a) q = Some y /\ code y = c
                       /\ symbol y = Some r.1))
      \/ (In r.1 letters
          /\ r.2 = with_code_to_symbol (<[ c := r.1 ]> (code_to_symbol a)) a
          /\ forall p x, grid_get (grid_items a) p = Some x -> symbol x <> Some r.1)).
Proof.
  intros Hlen. destruct (SymbolFacts.symbol_for_code_spec c a Hlen) as [H1 H2].
  cbv zeta. split; [exact H1|]. split; [|exact H2].
  destruct H2 as [(_ & -> & _)|(_ & -> & _)]; reflexivity.
Qed.

Lemma symbol_for_code_is_remembered_or_free_witness :
  (_symbol_for_code "game:stick" Sample.plank_and_log).1 = "C"
  /\ code_to_symbol (_symbol_for_code "game:stick" Sample.plank_and_log).2 !! "game:stick"
     = Some "C".
Proof.
  assert (Hlen : length (concat (grid_items Sample.plank_and_log)) < 26)
    by (vm_compute; lia).
  destruct (symbol_for_code_is_remembered_or_free "game:stick" Sample.plank_and_log Hlen)
    as [H _].
  split; [vm_compute; reflexivity | exact H].
Defined.

(** X11: when the entry of the symbol holds a letter and no ingredient
    with another code has that letter, [_apply_symbol_live] commits it:
    the selected ingredient gets the letter, and so does every ingredient
    of the grid with the same code when the code is not empty; the other
    cells do not change; the table records the letter for the code; the
    entry shows the letter and no error is shown.  After that, every
    ingredient of the grid that has the letter has the code of the
    selected one. *)
Theorem symbol_edit_commits_and_propagates (h : Host) (a : App) (ing : Ingredient) :
  grid_get (grid_items a) (selected a) = Some ing ->
  let first := first_letter h (symbol_var a) in
  Str.truthy first = true ->
  (forall p other, In p cells -> p <> selected a ->
     grid_get (grid_items a) p = Some other -> code other <> code ing ->
     symbol other <> Some first) ->
  let a' := _apply_symbol_live h a in
  (forall p,
     grid_get (grid_items a') p
     = (fun x =>
          if bool_decide (p = selected a)
             || (bool_decide (p ∈ cells) && Str.truthy (code ing)
                 && String.eqb (code x) (code ing))
          then set_symbol (Some first) x else x) <$> grid_get (grid_items a) p)
  /\ code_to_symbol a'
     = (if Str.truthy (code ing) then <[ code ing := first ]> (code_to_symbol a)
        else code_to_symbol a)
  /\ symbol_var a' = first /\ errors a' = errors a
  /\ (forall p y, In p cells -> grid_get (grid_items a') p = Some y ->
        symbol y = Some first -> code y = code ing).
Proof.
  intros Hg first Ht Hfree. cbv zeta.
  assert (Hin : in_grid (grid_items a) (selected a))
    by (eapply GridFacts.grid_get_in_grid, Hg).
  assert (Hno : existsb (collides (grid_items a) (selected a) ing first) cells = false).
  { apply not_true_iff_false. intros (p & Hp & Hc)%existsb_exists.
    unfold collides in Hc. destruct (grid_get (grid_items a) p) as [other|] eqn:Ho;
      [|discriminate].
    destruct (bool_decide (p = selected a)) eqn:Hsel; [discriminate|].
    apply bool_decide_eq_false in Hsel.
    apply andb_true_iff in Hc as [Hcode Hsym].
    apply negb_true_iff, String.eqb_neq in Hcode. apply bool_decide_eq_true in Hsym.
    exact (Hfree p other Hp Hsel Ho Hcode Hsym). }
  (* the grid after the edit *)
  assert (Hgrid : forall p,
     grid_get (grid_items (_apply_symbol_live h a)) p
     = (fun x =>
          if bool_decide (p = selected a)
             || (bool_decide (p ∈ cells) && Str.truthy (code ing)
                 && String.eqb (code x) (code ing))
          then set_symbol (Some first) x else x) <$> grid_get (grid_items a) p).
  { intros p. unfold _apply_symbol_live. rewrite Hg. fold first. rewrite Ht, Hno.
    cbv zeta. simpl negb. cbv iota.
    change (code (set_symbol (Some first) ing)) with (code ing).
    assert (Hset : grid_get (grid_set (grid_items a) (selected a)
                               (Some (set_symbol (Some first) ing))) p
                   = (fun x => if bool_decide (p = selected a)
                               then set_symbol (Some first) x else x)
                     <$> grid_get (grid_items a) p).
    { destruct (decide (p = selected a)) as [->|Hne].
      - rewrite GridFacts.grid_get_set_eq by exact Hin. rewrite Hg.
        rewrite bool_decide_eq_true_2 by reflexivity. reflexivity.
      - rewrite GridFacts.grid_get_set_ne by congruence.
        rewrite bool_decide_eq_false_2 by exact Hne.
        destruct (grid_get (grid_items a) p); reflexivity. }
    destruct (Str.truthy (code ing)) eqn:Hc.
    - match goal with |- grid_get (grid_items ?b) p = _ =>
        assert (grid_items b
                = _propagate_symbol_for_code (code ing) first
                    (grid_set (grid_items a) (selected a)
                       (Some (set_symbol (Some first) ing)))) as ->
          by (destruct (bool_decide (symbol_var _ = first)); reflexivity) end.
      unfold _propagate_symbol_for_code. rewrite SymbolFacts.propagate_spec, Hset.
      destruct (grid_get (grid_items a) p) as [x|]; [|reflexivity]. simpl. f_equal.
      destruct (bool_decide (p = selected a)); simpl.
      + destruct (bool_decide _ && _); reflexivity.
      + rewrite andb_true_r. reflexivity.
    - match goal with |- grid_get (grid_items ?b) p = _ =>
        assert (grid_items b
                = grid_set (grid_items a) (selected a)
                    (Some (set_symbol (Some first) ing))) as ->
          by (destruct (bool_decide (symbol_var _ = first)); reflexivity) end.
      rewrite Hset. destruct (grid_get (grid_items a) p) as [x|]; [|reflexivity].
      simpl. rewrite andb_false_r, orb_false_r. reflexivity. }
  split; [exact Hgrid|].
  split; [|split; [|split]].
  - unfold _apply_symbol_live. rewrite Hg. fold first. rewrite Ht, Hno.
    cbv zeta. simpl negb. cbv iota.
    change (code (set_symbol (Some first) ing)) with (code ing).
    destruct (Str.truthy (code ing));
      destruct (bool_decide (symbol_var _ = first)); reflexivity.
  - unfold _apply_symbol_live. rewrite Hg. fold first. rewrite Ht, Hno.
    cbv zeta. simpl negb. cbv iota.
    change (code (set_symbol (Some first) ing)) with (code ing).
    destruct (Str.truthy (code ing)); simpl;
      (destruct (bool_decide (symbol_var _ = first)) eqn:E;
       [apply bool_decide_eq_true in E; exact E | reflexivity]).
  - unfold _apply_symbol_live. rewrite Hg. fold first. rewrite Ht, Hno.
    cbv zeta. simpl negb. cbv iota.
    change (code (set_symbol (Some first) ing)) with (code ing).
    destruct (Str.truthy (code ing));
      destruct (bool_decide (symbol_var _ = first)); reflexivity.
  - intros p y Hp. rewrite Hgrid.
    destruct (grid_get (grid_items a) p) as [x|] eqn:Hx; [|discriminate].
    simpl. destruct (decide (p = selected a)) as [->|Hne].
    + rewrite bool_decide_eq_true_2 by reflexivity. simpl.
      intros [= <-] _. simpl. congruence.
    + rewrite bool_decide_eq_false_2 by exact Hne. simpl.
      destruct (decide (code x = code ing)) as [Hc|Hc].
      * intros [= <-] _. destruct (_ && _ && _); simpl; exact Hc.
      * assert (String.eqb (code x) (code ing) = false) as ->
          by (apply String.eqb_neq, Hc).
        rewrite andb_false_r. intros [= <-] Hs.
        exfalso. exact (Hfree p x Hp Hne Hx Hc Hs).
Qed.

Lemma symbol_edit_commits_and_propagates_witness :
  let a := Sample.app_with
             [[Some (Sample.ingredient "game:plank" (Some "A"));
               Some (Sample.ingredient "game:log" (Some "B")); None];
              [None; Some (Sample.ingredient "game:log" (Some "B")); None];
              [None; None; None]]
             (0, 1) "q" in
  let a' := _apply_symbol_live Sample.host a in
  symbol <$> grid_get (grid_items a') (0, 1) = Some (Some "Q")
  /\ symbol <$> grid_get (grid_items a') (1, 1) = Some (Some "Q")
  /\ symbol <$> grid_get (grid_items a') (0, 0) = Some (Some "A")
  /\ code_to_symbol a' !! "game:log" = Some "Q".
Proof.
  cbv zeta.
  set (a := Sample.app_with _ _ _).
  assert (Hfree : forall p other, In p cells -> p <> selected a ->
            grid_get (grid_items a) p = Some other ->
            code other <> code (Sample.ingredient "game:log" (Some "B")) ->
            symbol other <> Some (first_letter Sample.host (symbol_var a))).
  { intros p other Hp. vm_compute in Hp.
    repeat (destruct Hp as [<-|Hp];
            [vm_compute; intros ? [= <-] ?; congruence|]).
    destruct Hp. }
  destruct (symbol_edit_commits_and_propagates Sample.host a
              (Sample.ingredient "game:log" (Some "B")) eq_refl eq_refl Hfree)
    as (Hgrid & Htable & _).
  rewrite !Hgrid, Htable. repeat split; vm_compute; reflexivity.
Defined.


(** ** The export *)

(** X12: when every ingredient with a code has a symbol, the export only
    reads: the pattern, the table of the ingredients and the document
    leave the application as it is.  The table then holds, for a symbol,
    the ingredient of the first cell, in row order, that has a code and
    this symbol: an ingredient of a later cell with the same symbol is not
    written, whatever its code. *)
Theorem export_reads_only_and_first_cell_wins (h : Host) (a : App) :
  all_symbols (grid_items a) ->
  (_build_ingredient_pattern a).2 = a
  /\ (_collect_ingredients_dict a).2 = a
  /\ (build_json5_text h a).2 = a
  /\ forall s ing,
       (_collect_ingredients_dict a).1 !! s = Some ing
       <-> exists before p after,
             cells = before ++ p :: after /\ placed (grid_items a) p ing
             /\ symbol ing = Some s
             /\ forall q x, In q before -> placed (grid_items a) q x ->
                            symbol x <> Some s.
Proof.
  intros H.
  pose proof (ExportFacts.pattern_pure a H) as Hp.
  destruct (ExportFacts.dict_fold a cells (fun p ing Hc => H p ing Hc) ∅) as (m & Hm & Hl).
  fold (_collect_ingredients_dict a) in Hm.
  split; [exact Hp|]. split; [rewrite Hm; reflexivity|]. split.
  - unfold build_json5_text.
    destruct (_build_ingredient_pattern a) as [pat a1]. simpl in Hp. subst a1.
    rewrite Hm. reflexivity.
  - intros s ing. rewrite Hm. simpl. rewrite Hl, lookup_empty.
    apply ExportFacts.first_with_symbol_spec.
Qed.

Lemma export_reads_only_and_first_cell_wins_witness :
  (_collect_ingredients_dict Sample.plank_and_log).1 !! "B"
  = Some (Sample.ingredient "game:log" (Some "B"))
  /\ (build_json5_text Sample.host Sample.plank_and_log).2 = Sample.plank_and_log.
Proof.
  assert (H : all_symbols (grid_items Sample.plank_and_log)).
  { intros p ing Hp [Hg _]. vm_compute in Hp.
    repeat (destruct Hp as [<-|Hp];
            [vm_compute in Hg; first [discriminate | injection Hg as <-; eexists _, _; reflexivity]|]).
    destruct Hp. }
  destruct (export_reads_only_and_first_cell_wins Sample.host Sample.plank_and_log H)
    as (_ & _ & Hb & Hd).
  split; [|exact Hb].
  apply Hd. exists [(0, 0)], (0, 1), [(0, 2); (1, 0); (1, 1); (1, 2); (2, 0); (2, 1); (2, 2)].
  split; [reflexivity|]. split; [split; reflexivity|]. split; [reflexivity|].
  intros q x [<-|[]] [Hg _]. vm_compute in Hg. injection Hg as <-. discriminate.
Defined.

(** X13: when every ingredient with a code has a symbol of one
    character, the pattern of the export is eleven characters: three rows
    of three cells, in row order, with a comma between the rows; a cell
    shows the symbol of its ingredient, and an underscore when it has no
    ingredient or the ingredient has no code. *)
Theorem pattern_has_one_character_per_cell (a : App) :
  (forall p ing, In p cells -> placed (grid_items a) p ing ->
     exists ch, symbol ing = Some (String ch EmptyString)) ->
  exists k : nat * nat -> ascii,
    (forall p, In p cells -> shows (grid_items a) p (k p))
    /\ (_build_ingredient_pattern a).1
       = string_of_list_ascii
           [k (0, 0); k (0, 1); k (0, 2); ","%char;
            k (1, 0); k (1, 1); k (1, 2); ","%char;
            k (2, 0); k (2, 1); k (2, 2)].
Proof.
  intros H.
  assert (Hs : forall p, In p cells -> exists ch, shows (grid_items a) p ch)
    by (intros p Hp; apply ExportFacts.shows_exists; intros ing; apply H, Hp).
  destruct (Hs (0, 0) ltac:(vm_compute; tauto)) as [c00 H00].
  destruct (Hs (0, 1) ltac:(vm_compute; tauto)) as [c01 H01].
  destruct (Hs (0, 2) ltac:(vm_compute; tauto)) as [c02 H02].
  destruct (Hs (1, 0) ltac:(vm_compute; tauto)) as [c10 H10].
  destruct (Hs (1, 1) ltac:(vm_compute; tauto)) as [c11 H11].
  destruct (Hs (1, 2) ltac:(vm_compute; tauto)) as [c12 H12].
  destruct (Hs (2, 0) ltac:(vm_compute; tauto)) as [c20 H20].
  destruct (Hs (2, 1) ltac:(vm_compute; tauto)) as [c21 H21].
  destruct (Hs (2, 2) ltac:(vm_compute; tauto)) as [c22 H22].
  exists (fun p =>
            match p with
            | (0, 0) => c00 | (0, 1) => c01 | (0, 2) => c02
            | (1, 0) => c10 | (1, 1) => c11 | (1, 2) => c12
            | (2, 0) => c20 | (2, 1) => c21 | _ => c22
            end).
  split.
  - intros p Hp. vm_compute in Hp.
    repeat (destruct Hp as [<-|Hp]; [assumption|]). destruct Hp.
  - unfold _build_ingredient_pattern. cbn [foldl seq GRID_SIZE].
    rewrite (ExportFacts.cell_step a _ (0, 0) c00 H00).
    rewrite (ExportFacts.cell_step a _ (0, 1) c01 H01).
    rewrite (ExportFacts.cell_step a _ (0, 2) c02 H02).
    rewrite (ExportFacts.cell_step a _ (1, 0) c10 H10).
    rewrite (ExportFacts.cell_step a _ (1, 1) c11 H11).
    rewrite (ExportFacts.cell_step a _ (1, 2) c12 H12).
    rewrite (ExportFacts.cell_step a _ (2, 0) c20 H20).
    rewrite (ExportFacts.cell_step a _ (2, 1) c21 H21).
    rewrite (ExportFacts.cell_step a _ (2, 2) c22 H22).
    reflexivity.
Qed.

Lemma pattern_has_one_character_per_cell_witness :
  (_build_ingredient_pattern Sample.plank_and_log).1 = "AB_,___,___".
Proof.
  assert (H : forall p ing, In p cells -> placed (grid_items Sample.plank_and_log) p ing ->
            exists ch, symbol ing = Some (String ch EmptyString)).
  { intros p ing Hp [Hg _]. vm_compute in Hp.
    repeat (destruct Hp as [<-|Hp];
            [vm_compute in Hg; first [discriminate | injection Hg as <-; eexists; reflexivity]|]).
    destruct Hp. }
  destruct (pattern_has_one_character_per_cell Sample.plank_and_log H) as (k & Hk & ->).
  pose proof (Hk (0, 0) ltac:(vm_compute; tauto)) as H00.
  pose proof (Hk (0, 1) ltac:(vm_compute; tauto)) as H01.
  pose proof (Hk (0, 2) ltac:(vm_compute; tauto)) as H02.
  pose proof (Hk (1, 0) ltac:(vm_compute; tauto)) as H10.
  pose proof (Hk (1, 1) ltac:(vm_compute; tauto)) as H11.
  pose proof (Hk (1, 2) ltac:(vm_compute; tauto)) as H12.
  pose proof (Hk (2, 0) ltac:(vm_compute; tauto)) as H20.
  pose proof (Hk (2, 1) ltac:(vm_compute; tauto)) as H21.
  pose proof (Hk (2, 2) ltac:(vm_compute; tauto)) as H22.
  vm_compute in H00, H01, H02, H10, H11, H12, H20, H21, H22.
  injection H00 as <-. injection H01 as <-.
  rewrite H02, H10, H11, H12, H20, H21, H22. reflexivity.
Defined.


(** ** The items pool and the discovery menu *)

(** X14: the items the autocompletion offers are the codes discovered
    and the custom ones, in ascending order, each once; the list is kept
    in the cache, and asking again gives the same list and changes
    nothing. *)
Theorem items_pool_is_the_sorted_union (w : Window) :
  cache_fresh w ->
  let r := _get_items w in
  Sorted String.le r.1 /\ NoDup r.1
  /\ (forall x, x ∈ r.1 <-> x ∈ discovered_items (engine w) \/ x ∈ custom_items w)
  /\ items_cache r.2 = Some r.1
  /\ _get_items r.2 = r
  /\ engine r.2 = engine w /\ custom_items r.2 = custom_items w.
Proof.
  intros Hf. cbv zeta. unfold _get_items, cache_fresh in *.
  destruct (PoolFacts.sorted_set_spec (discovered_items (engine w) ++ custom_items w))
    as (H1 & H2 & H3).
  destruct (items_cache w) as [cache|] eqn:E; simpl.
  - subst cache. split; [exact H1|]. split; [exact H2|].
    split; [intros x; rewrite H3; apply elem_of_app|].
    rewrite E. auto.
  - split; [exact H1|]. split; [exact H2|].
    split; [intros x; rewrite H3; apply elem_of_app|]. auto.
Qed.

Lemma items_pool_is_the_sorted_union_witness :
  (_get_items (mkWindow (Sample.app_with empty_grid (0, 0) EmptyString) "VINTAGE_STORY"
                 None ["mymod:widget"; "game:ingot-*"; "mymod:widget"] None
                 EmptyString false EmptyString EmptyString EmptyString [] EmptyString)).1
  = ["game:ingot-*"; "mymod:widget"].
Proof.
  set (w := mkWindow _ _ _ _ _ _ _ _ _ _ _ _).
  destruct (items_pool_is_the_sorted_union w I) as (_ & _ & _ & _ & _).
  vm_compute. reflexivity.
Defined.

(** X15: the cache of the items pool is never stale: started empty, it
    is emptied by every handler that changes the codes discovered or the
    custom ones (adding custom items, changing the environment key, a
    direct search, a refresh), and the handlers of the grid change
    neither. *)
Theorem items_cache_is_never_stale (h : Host) (w : Window) :
  cache_fresh w ->
  cache_fresh (init_window h)
  /\ (forall txt, cache_fresh (add_custom_items txt w))
  /\ cache_fresh (_refresh_discovery h w)
  /\ (forall val, cache_fresh (_change_env_key h val w))
  /\ (forall val, cache_fresh (_direct_search h val w))
  /\ cache_fresh (_get_items w).2
  /\ (forall pos, cache_fresh (_select_cell pos w))
  /\ (forall pos c, cache_fresh (_set_cell_item pos c w))
  /\ cache_fresh (_delete_selected w)
  /\ (forall yes, cache_fresh (reset_all yes w)).
Proof.
  intros Hf.
  assert (Hside : forall w0, cache_fresh w0 -> cache_fresh (_update_side_for_selected w0)).
  { intros w0 H0. unfold cache_fresh in *.
    destruct (WindowFacts.side_frame w0) as (-> & _ & _ & _ & _ & _ & -> & -> & _).
    exact H0. }
  assert (Hrefresh : forall w0, cache_fresh (_refresh_discovery h w0)).
  { intros w0. unfold _refresh_discovery.
    destruct (discover_game_codes h _ _) as [items path]. exact I. }
  assert (Hselect : forall pos w0, cache_fresh w0 -> cache_fresh (_select_cell pos w0)).
  { intros pos w0 H0. unfold _select_cell. cbv zeta.
    match goal with |- cache_fresh (with_slot_pos_lbl _ ?x) =>
      assert (cache_fresh x) as Hx by (apply Hside; exact H0); exact Hx end. }
  split; [|split; [|split; [|split; [|split; [|split; [|split; [|split; [|split]]]]]]]].
  - unfold init_window. cbv zeta.
    match goal with |- cache_fresh (_update_discovery_menu_label (_update_discovery_status ?x)) =>
      assert (cache_fresh x) as Hx by (apply Hselect; exact I); exact Hx end.
  - intros [[|c t]|]; simpl; try exact Hf.
    destruct (custom_parts _); [exact Hf | exact I].
  - apply Hrefresh.
  - intros [v|]; simpl; [apply Hrefresh | exact Hf].
  - intros [v|]; simpl; [|exact Hf].
    destruct (negb _); [exact Hf | apply Hrefresh].
  - unfold _get_items, cache_fresh in *. destruct (items_cache w) eqn:E; simpl.
    + rewrite E. exact Hf.
    + reflexivity.
  - intros pos. apply Hselect, Hf.
  - intros pos c. unfold _set_cell_item. cbv zeta.
    destruct (grid_get _ _) as [ing|]; [cbn [symbol set_code]; destruct (symbol ing)|].
    + apply Hside. exact Hf.
    + match goal with |- context [_symbol_for_code c ?x] =>
        destruct (WindowFacts.symbol_for_code_frame c x) as [m Hm];
        destruct (_symbol_for_code c x) as [sym a0] end.
      simpl in Hm. subst a0. apply Hside. exact Hf.
    + match goal with |- context [_symbol_for_code c ?x] =>
        destruct (WindowFacts.symbol_for_code_frame c x) as [m Hm];
        destruct (_symbol_for_code c x) as [sym a0] end.
      simpl in Hm. subst a0. apply Hside. exact Hf.
  - unfold _delete_selected. apply Hside. exact Hf.
  - intros [|]; simpl; [|exact Hf]. apply Hselect. exact Hf.
Qed.

Lemma items_cache_is_never_stale_witness :
  cache_fresh (init_window Sample.host)
  /\ cache_fresh (add_custom_items (Some "mymod:widget") (init_window Sample.host)).
Proof.
  destruct (items_cache_is_never_stale Sample.host (init_window Sample.host))
    as (H1 & H2 & _).
  - vm_compute. exact I.
  - split; [exact H1 | apply H2].
Defined.

(** X16: the custom items added from the text the user types are its
    maximal runs of characters other than commas and white space, every
    one of them, in the order of the text: a run followed by separators is
    the first item and what follows is split in the same way, separators
    before a text change nothing, a text of separators only gives no item
    and a text without separator is one item; none is empty and none
    holds a comma or white space.  They are appended to the custom items
    and are then among the items the autocompletion offers; a text of
    separators only, an empty text or a cancelled dialog changes
    nothing. *)
Theorem custom_items_are_split_and_offered (txt : string) (w : Window) :
  let w' := add_custom_items (Some txt) w in
  (forall x, In x (custom_parts txt) ->
     Str.truthy x = true /\ Str.all (fun c => negb (is_separator c)) x = true)
  /\ (Str.truthy txt = true -> Str.all (fun c => negb (is_separator c)) txt = true ->
      custom_parts txt = [txt])
  /\ custom_items w' = custom_items w ++ custom_parts txt
  /\ (forall x, In x (custom_parts txt) -> x ∈ (_get_items w').1)
  /\ (custom_parts txt = [] -> w' = w)
  /\ add_custom_items None w = w
  /\ (Str.all is_separator txt = true -> custom_parts txt = [] /\ w' = w)
  /\ (forall p sep rest,
        Str.truthy p = true -> Str.all (fun c => negb (is_separator c)) p = true ->
        Str.truthy sep = true -> Str.all is_separator sep = true ->
        custom_parts (p +:+ sep +:+ rest) = p :: custom_parts rest)
  /\ (forall lead rest,
        Str.all is_separator lead = true ->
        custom_parts (lead +:+ rest) = custom_parts rest).
Proof.
  cbv zeta.
  split; [intros x; apply PoolFacts.custom_parts_clean|].
  split; [apply PoolFacts.custom_parts_whole|].
  assert (Hsame : custom_parts txt = [] -> add_custom_items (Some txt) w = w).
  { intros E. unfold add_custom_items. destruct txt; [reflexivity|].
    rewrite E. reflexivity. }
  assert (Hitems : custom_items (add_custom_items (Some txt) w)
                   = custom_items w ++ custom_parts txt).
  { unfold add_custom_items. destruct txt as [|c t]; [symmetry; apply List.app_nil_r|].
    destruct (custom_parts (String c t)); [symmetry; apply List.app_nil_r | reflexivity]. }
  split; [exact Hitems|]. split.
  { intros x Hx. unfold _get_items.
    assert (Hc : items_cache (add_custom_items (Some txt) w) = None).
    { unfold add_custom_items. destruct txt as [|c t]; [destruct Hx|].
      destruct (custom_parts (String c t)); [destruct Hx | reflexivity]. }
    rewrite Hc. cbn [fst]. apply PoolFacts.sorted_set_spec, elem_of_app. right.
    rewrite Hitems. apply elem_of_app. right. apply list_elem_of_In, Hx. }
  split; [exact Hsame|]. split; [reflexivity|].
  split; [intros H; pose proof (PoolFacts.custom_parts_none txt H) as E;
          split; [exact E | exact (Hsame E)]|].
  split; [apply PoolFacts.custom_parts_first | apply PoolFacts.custom_parts_lead].
Qed.

(** X17: the settings of discovery stay usable: an environment key that
    is not empty stays so when the user changes it, a blank answer
    keeping the old key; a direct root is only ever set to a path that is
    absolute once expanded, a path that is not being refused with one
    error and nothing else changed; a cancelled dialog changes nothing. *)
Theorem discovery_settings_stay_valid (h : Host) (w : Window) (val : option string) :
  (Str.truthy (env_key w) = true ->
   Str.truthy (env_key (_change_env_key h val w)) = true)
  /\ (forall v, val = Some v ->
        env_key (_change_env_key h val w) = str_or (Str.strip v) (env_key w))
  /\ ((forall d, direct_root w = Some d -> os_path_isabs h d = true) ->
      forall d, direct_root (_direct_search h val w) = Some d -> os_path_isabs h d = true)
  /\ (forall v, val = Some v ->
        os_path_isabs h (os_path_expanduser h (os_path_expandvars h (Str.strip v))) = false ->
        exists message,
          _direct_search h val w
          = with_engine (showerror "Path must be absolute" message (engine w)) w)
  /\ (val = None -> _change_env_key h val w = w /\ _direct_search h val w = w).
Proof.
  assert (Hr : forall w0, env_key (_refresh_discovery h w0) = env_key w0
                          /\ direct_root (_refresh_discovery h w0) = direct_root w0).
  { intros w0. unfold _refresh_discovery.
    destruct (discover_game_codes h _ _) as [items path]. cbv zeta.
    unfold _build_variant_index. simpl.
    destruct path as [[|c p]|]; simpl; split; reflexivity. }
  split; [|split; [|split; [|split]]].
  - intros Ht. destruct val as [v|]; simpl; [|exact Ht].
    rewrite (proj1 (Hr _)). simpl.
    destruct (Str.strip v); [exact Ht | reflexivity].
  - intros v ->. simpl. rewrite (proj1 (Hr _)). reflexivity.
  - intros Habs d. destruct val as [v|]; simpl; [|apply Habs].
    destruct (os_path_isabs h _) eqn:E; simpl.
    + rewrite (proj2 (Hr _)). simpl. intros [= <-]. exact E.
    + apply Habs.
  - intros v -> E. simpl. rewrite E. simpl. eauto.
  - intros ->. split; reflexivity.
Qed.

(** X18: after a refresh the window agrees with what the resolver found.
    With no asset root, the codes discovered are emptied and so is the
    variant corpus, whatever they were, the menu is marked and the status
    says not found; with a root, the codes are those of its definition
    files, the corpus is built from it and the status names it.  Either
    way the cache of the pool is emptied, one information is shown, and
    the custom items and the grid are kept. *)
Theorem refresh_agrees_with_the_resolver (h : Host) (w : Window) :
  let w' := _refresh_discovery h w in
  let found := discover_game_codes h (Some (env_key w)) (direct_root w) in
  discovered_items (engine w') = found.1
  /\ used_survival_path (engine w') = found.2
  /\ match found.2 with
     | Some p =>
         variant_index (engine w') = _collect_corpus_variants h p
         /\ discovery_menu_label w' = "Discovery"
         /\ discovery_status w' = "Discovery: " +:+ p
     | None =>
         discovered_items (engine w') = []
         /\ variant_index (engine w') = ∅
         /\ discovery_menu_label w' = "Discovery (!!!)"
         /\ discovery_status w' = "Discovery: not found"
     end
  /\ items_cache w' = None
  /\ (exists message, infos w' = infos w ++ [("Discovery updated", message)])
  /\ custom_items w' = custom_items w
  /\ grid_items (engine w') = grid_items (engine w).
Proof.
  cbv zeta. unfold _refresh_discovery.
  assert (Hp : forall p, (discover_game_codes h (Some (env_key w)) (direct_root w)).2 = Some p ->
            Str.truthy p = true).
  { unfold discover_game_codes.
    destruct (resolve_survival_dir h _ _) as [[[|c p]|] logs]; simpl; intros p0 [= <-].
    reflexivity. }
  assert (Hn : (discover_game_codes h (Some (env_key w)) (direct_root w)).2 = None ->
            (discover_game_codes h (Some (env_key w)) (direct_root w)).1 = []).
  { unfold discover_game_codes.
    destruct (resolve_survival_dir h _ _) as [[[|c p]|] logs]; simpl;
      [reflexivity | discriminate | reflexivity]. }
  destruct (discover_game_codes h (Some (env_key w)) (direct_root w)) as [items path].
  simpl in Hp, Hn. cbv zeta. unfold _build_variant_index. simpl.
  destruct path as [[|c p]|]; simpl.
  - specialize (Hp _ eq_refl). discriminate.
  - repeat split; try reflexivity. eauto.
  - rewrite (Hn eq_refl). repeat split; try reflexivity. eauto.
Qed.


(** ** The grid handlers *)

(** X19: putting a code in a cell without ingredient, on a grid where no
    two ingredients with different codes share a symbol, stores a new
    ingredient with that code, quantity 1, no tool, no name, no variants,
    and a symbol that the table then has for the code and that no
    ingredient with another code has; the cells other than this one and
    the selected one do not change. *)
Theorem item_placed_in_an_empty_cell (pos : nat * nat) (c : string) (w : Window) :
  in_grid (grid_items (engine w)) pos ->
  grid_get (grid_items (engine w)) pos = None ->
  length (concat (grid_items (engine w))) < 26 ->
  symbols_distinct (grid_items (engine w)) ->
  let w' := _set_cell_item pos c w in
  exists s,
    grid_get (grid_items (engine w')) pos
    = Some (mkIngredient c 1 false 0 (Some s) EmptyString [])
    /\ code_to_symbol (engine w') !! c = Some s
    /\ (forall q y, grid_get (grid_items (engine w)) q = Some y ->
          symbol y = Some s -> Str.truthy s = true -> code y = c)
    /\ (forall q, q <> pos -> q <> selected (engine w) ->
          grid_get (grid_items (engine w')) q = grid_get (grid_items (engine w)) q).
Proof.
  intros Hin Hg Hlen Hd. cbv zeta. rewrite (WindowFacts.set_item_empty pos c w Hg).
  destruct (SymbolFacts.symbol_for_code_spec c (engine w) Hlen) as [Htable Hcases].
  set (r := _symbol_for_code c (engine w)) in *.
  assert (Hgrid : grid_items r.2 = grid_items (engine w))
    by (destruct Hcases as [(_ & -> & _)|(_ & -> & _)]; reflexivity).
  assert (Hsel : selected r.2 = selected (engine w))
    by (destruct Hcases as [(_ & -> & _)|(_ & -> & _)]; reflexivity).
  rewrite Hgrid. exists r.1.
  set (ing0 := mkIngredient c 1 false 0 (Some r.1) EmptyString []).
  set (w1 := with_engine _ w).
  assert (Hg1 : grid_get (grid_items (engine w1)) pos = Some ing0)
    by (apply GridFacts.grid_get_set_eq, Hin).
  split; [|split; [|split]].
  - rewrite WindowFacts.side_no_variants; [exact Hg1|].
    intros ing. rewrite Hg1. intros [= <-]. reflexivity.
  - destruct (WindowFacts.side_frame w1) as (_ & _ & _ & -> & _). exact Htable.
  - intros q y Hq Hs Ht. destruct Hcases as [(_ & _ & Hused)|(_ & _ & Hfree)].
    + destruct Hused as (q' & y' & Hq' & Hc' & Hs'); [exists q, y; auto|].
      destruct r.1 as [|ch s'] eqn:E; [discriminate|].
      rewrite <- Hc'. exact (Hd q q' y y' ch s' Hq Hq' Hs Hs').
    + exfalso. exact (Hfree q y Hq Hs).
  - intros q Hq Hqs. rewrite WindowFacts.side_other by (simpl; congruence).
    simpl. apply GridFacts.grid_get_set_ne. congruence.
Qed.

Lemma item_placed_in_an_empty_cell_witness :
  grid_get
    (grid_items (engine (_set_cell_item (1, 1) "game:stick"
       (mkWindow Sample.plank_and_log "VINTAGE_STORY" None [] None EmptyString false
          EmptyString EmptyString EmptyString [] EmptyString)))) (1, 1)
  = Some (mkIngredient "game:stick" 1 false 0 (Some "C") EmptyString []).
Proof.
  set (w := mkWindow _ _ _ _ _ _ _ _ _ _ _ _).
  assert (Hin : in_grid (grid_items (engine w)) (1, 1))
    by (exists [None; None; None]; split; [reflexivity | simpl; lia]).
  assert (Hlen : length (concat (grid_items (engine w))) < 26) by (vm_compute; lia).
  assert (Hd : symbols_distinct (grid_items (engine w))).
  { intros p q x y ch s Hp Hq Hx Hy.
    assert (forall p0 x0, grid_get (grid_items (engine w)) p0 = Some x0 ->
              x0 = Sample.ingredient "game:plank" (Some "A")
              \/ x0 = Sample.ingredient "game:log" (Some "B")) as Hcell.
    { intros [[|[|[|r]]] [|[|[|k]]]] x0 H0; vm_compute in H0;
        first [discriminate | injection H0 as <-; auto]. }
    destruct (Hcell p x Hp) as [-> | ->], (Hcell q y Hq) as [-> | ->];
      first [reflexivity | simpl in Hx, Hy; congruence]. }
  destruct (item_placed_in_an_empty_cell (1, 1) "game:stick" w Hin eq_refl Hlen Hd)
    as (s & Hcell & Htable & _).
  rewrite Hcell. assert (s = "C") as ->; [|reflexivity].
  assert (code_to_symbol (engine (_set_cell_item (1, 1) "game:stick" w)) !! "game:stick"
          = Some "C") as E by (vm_compute; reflexivity).
  congruence.
Defined.

(** X20: putting a code in a cell whose ingredient has a symbol changes
    the code and nothing else of it: the ingredient keeps its symbol,
    quantity, tool fields and name, and the table of the symbols is
    neither read nor written, so it does not learn the new code.  (The
    side panel, shown again, may then clear the variants of the selected
    ingredient and normalize its code.) *)
Theorem code_replaced_keeps_the_symbol (pos : nat * nat) (c : string) (w : Window)
    (ing : Ingredient) (s : string) :
  grid_get (grid_items (engine w)) pos = Some ing ->
  symbol ing = Some s ->
  let w' := _set_cell_item pos c w in
  code_to_symbol (engine w') = code_to_symbol (engine w)
  /\ exists ing',
       grid_get (grid_items (engine w')) pos = Some ing'
       /\ symbol ing' = Some s /\ quantity ing' = quantity ing
       /\ is_tool ing' = is_tool ing /\ tool_cost ing' = tool_cost ing
       /\ name ing' = name ing
       /\ (ing' = set_code c ing
           \/ (pos = selected (engine w) /\ allowed_variants ing <> []
               /\ ing' = _normalize_wildcard_code
                           (set_allowed_variants [] (set_code c ing)))).
Proof.
  intros Hg Hs. cbv zeta. rewrite (WindowFacts.set_item_occupied pos c w ing s Hg Hs).
  assert (Hin : in_grid (grid_items (engine w)) pos)
    by (eapply GridFacts.grid_get_in_grid, Hg).
  set (w1 := with_engine _ w).
  assert (Hg1 : grid_get (grid_items (engine w1)) pos = Some (set_code c ing))
    by (apply GridFacts.grid_get_set_eq, Hin).
  split.
  - destruct (WindowFacts.side_frame w1) as (_ & _ & _ & -> & _). reflexivity.
  - destruct (WindowFacts.side_grid w1) as [->|(x & Hx & Hv & ->)].
    + exists (set_code c ing). split; [exact Hg1|]. simpl. auto 10.
    + destruct (decide (pos = selected (engine w))) as [->|Hne].
      * change (selected (engine w1)) with (selected (engine w)) in *.
        assert (x = set_code c ing) as -> by congruence.
        eexists. split;
          [apply GridFacts.grid_get_set_eq; eapply GridFacts.grid_get_in_grid, Hg1|].
        destruct (GridFacts.normalize_fields (set_allowed_variants [] (set_code c ing)))
          as (-> & -> & -> & -> & ->).
        simpl. repeat split; auto.
      * exists (set_code c ing). split.
        -- rewrite GridFacts.grid_get_set_ne by (simpl; congruence). exact Hg1.
        -- simpl. auto 10.
Qed.

Lemma code_replaced_keeps_the_symbol_witness :
  let w := mkWindow Sample.plank_and_log "VINTAGE_STORY" None [] None EmptyString false
             EmptyString EmptyString EmptyString [] EmptyString in
  let w' := _set_cell_item (0, 0) "game:log" w in
  code_to_symbol (engine w') = ∅
  /\ grid_get (grid_items (engine w')) (0, 0)
     = Some (Sample.ingredient "game:log" (Some "A"))
  /\ grid_get (grid_items (engine w')) (0, 1)
     = Some (Sample.ingredient "game:log" (Some "B")).
Proof.
  cbv zeta. set (w := mkWindow _ _ _ _ _ _ _ _ _ _ _ _).
  destruct (code_replaced_keeps_the_symbol (0, 0) "game:log" w
              (Sample.ingredient "game:plank" (Some "A")) "A" eq_refl eq_refl)
    as (Htable & _).
  split; [exact Htable|]. split; vm_compute; reflexivity.
Defined.

(** X21: deleting the selected ingredient empties its cell and no other,
    resets the side panel, and keeps the table of the symbols; so when the
    table has the symbol of the ingredient for its code and no other
    ingredient has that symbol, putting the code in the cell again gives
    a new ingredient with the same symbol. *)
Theorem deleted_item_gets_its_symbol_back (w : Window) (ing : Ingredient) (s : string) :
  grid_get (grid_items (engine w)) (selected (engine w)) = Some ing ->
  symbol ing = Some s ->
  code_to_symbol (engine w) !! code ing = Some s ->
  (forall q y, q <> selected (engine w) ->
     grid_get (grid_items (engine w)) q = Some y -> symbol y <> Some s) ->
  let w1 := _delete_selected w in
  let w2 := _set_cell_item (selected (engine w)) (code ing) w1 in
  grid_get (grid_items (engine w1)) (selected (engine w)) = None
  /\ (forall q, q <> selected (engine w) ->
        grid_get (grid_items (engine w1)) q = grid_get (grid_items (engine w)) q)
  /\ code_to_symbol (engine w1) = code_to_symbol (engine w)
  /\ slot_code_val (engine w1) = "-" /\ symbol_var (engine w1) = EmptyString
  /\ qty_var (engine w1) = "1" /\ wildcard_var (engine w1) = false
  /\ slot_name_var w1 = EmptyString
  /\ grid_get (grid_items (engine w2)) (selected (engine w))
     = Some (mkIngredient (code ing) 1 false 0 (Some s) EmptyString []).
Proof.
  intros Hg Hs Htable Hfree. cbv zeta.
  assert (Hin : in_grid (grid_items (engine w)) (selected (engine w)))
    by (eapply GridFacts.grid_get_in_grid, Hg).
  (* after the deletion *)
  assert (E1 : _delete_selected w
               = with_tool_row false
                   (with_engine
                      (with_variants_row false
                         (with_symbol_var EmptyString
                            (with_wildcard_var false
                               (with_tool_vars false "0" "1"
                                  (with_slot_code_val "-"
                                     (with_grid
                                        (grid_set (grid_items (engine w))
                                           (selected (engine w)) None)
                                        (engine w)))))))
                      (with_slot_name_var EmptyString w))).
  { unfold _delete_selected, _update_side_for_selected. cbv zeta.
    cbn [engine with_engine grid_items with_grid selected].
    rewrite GridFacts.grid_get_set_eq by exact Hin. reflexivity. }
  rewrite E1. clear E1.
  set (g1 := grid_set (grid_items (engine w)) (selected (engine w)) None).
  set (w1 := with_tool_row false _).
  assert (Hg1 : grid_get (grid_items (engine w1)) (selected (engine w)) = None)
    by (apply GridFacts.grid_get_set_eq, Hin).
  assert (Ho : forall q, q <> selected (engine w) ->
            grid_get (grid_items (engine w1)) q = grid_get (grid_items (engine w)) q)
    by (intros q Hq; apply GridFacts.grid_get_set_ne; congruence).
  split; [exact Hg1|]. split; [exact Ho|].
  do 6 (split; [reflexivity|]).
  rewrite (WindowFacts.set_item_empty _ _ w1 Hg1).
  rewrite (SymbolFacts.symbol_for_code_known (code ing) s (engine w1)).
  - cbn [fst snd].
    rewrite WindowFacts.side_no_variants.
    + apply GridFacts.grid_get_set_eq. apply GridFacts.in_grid_set, Hin.
    + intros x. cbn [engine with_engine grid_items with_grid].
      rewrite GridFacts.grid_get_set_eq by (apply GridFacts.in_grid_set, Hin).
      intros [= <-]. reflexivity.
  - exact Htable.
  - intros p x Hp Hx. destruct (decide (p = selected (engine w))) as [->|Hne].
    + congruence.
    + rewrite Ho in Hp by exact Hne. exact (Hfree p x Hne Hp Hx).
Qed.

Lemma deleted_item_gets_its_symbol_back_witness :
  let w := mkWindow (with_code_to_symbol {[ "game:log" := "B" ]} Sample.plank_and_log)
             "VINTAGE_STORY" None [] None EmptyString false
             EmptyString EmptyString EmptyString [] EmptyString in
  let w1 := _delete_selected w in
  grid_get (grid_items (engine w1)) (0, 1) = None
  /\ grid_get (grid_items (engine (_set_cell_item (0, 1) "game:log" w1))) (0, 1)
     = Some (Sample.ingredient "game:log" (Some "B")).
Proof.
  cbv zeta. set (w := mkWindow _ _ _ _ _ _ _ _ _ _ _ _).
  assert (Hfree : forall q y, q <> selected (engine w) ->
            grid_get (grid_items (engine w)) q = Some y -> symbol y <> Some "B").
  { intros [[|[|[|r]]] [|[|[|k]]]] y Hq Hy; vm_compute in Hy; try discriminate;
      first [exfalso; apply Hq; reflexivity
            | injection Hy as <-; vm_compute; discriminate]. }
  destruct (deleted_item_gets_its_symbol_back w
              (Sample.ingredient "game:log" (Some "B")) "B" eq_refl eq_refl eq_refl Hfree)
    as (H1 & _ & _ & _ & _ & _ & _ & _ & H2).
  split; [exact H1 | exact H2].
Defined.

(** X22: a reset that the user confirms empties the grid and the table
    of the symbols, clears the output and the shapeless box, selects the
    first cell and resets the side panel, and keeps the discovery and the
    custom items; the export is then the empty recipe, on a host whose
    [int] reads the text 1 as 1.  A reset that the user declines changes
    nothing. *)
Theorem reset_gives_the_empty_recipe (h : Host) (w : Window) :
  int_of h "1" = Some 1%Z ->
  let w' := reset_all true w in
  grid_items (engine w') = empty_grid
  /\ code_to_symbol (engine w') = ∅
  /\ selected (engine w') = (0, 0)
  /\ slot_code_val (engine w') = "-" /\ symbol_var (engine w') = EmptyString
  /\ discovered_items (engine w') = discovered_items (engine w)
  /\ variant_index (engine w') = variant_index (engine w)
  /\ custom_items w' = custom_items w
  /\ (build_json5_text h (engine w')).1
     = Str.join newline
         [ "[";
           tab +:+ "{";
           tab +:+ tab +:+ "ingredientPattern: " +:+ quoted "___,___,___" +:+ ",";
           tab +:+ tab +:+ "shapeless: false,";
           tab +:+ tab +:+ "ingredients: {";
           tab +:+ tab +:+ "},";
           tab +:+ tab +:+ "width: 3,";
           tab +:+ tab +:+ "height: 3,";
           tab +:+ tab +:+ "output: { type: " +:+ quoted "item"
             +:+ ", code: " +:+ quoted "game:__set_output__" +:+ " }";
           tab +:+ "},";
           "]" ]
  /\ reset_all false w = w.
Proof.
  intros Hint. cbv zeta.
  assert (E : reset_all true w
              = with_slot_pos_lbl ("Selected slot: 1" +:+ times_sign +:+ "1")
                  (with_tool_row false
                     (with_engine
                        (with_variants_row false
                           (with_symbol_var EmptyString
                              (with_wildcard_var false
                                 (with_tool_vars false "0" "1"
                                    (with_slot_code_val "-"
                                       (with_selected (0, 0)
                                          (with_output false EmptyString "1"
                                             (with_code_to_symbol ∅
                                                (with_grid empty_grid (engine w))))))))))
                        (with_slot_name_var EmptyString w)))).
  { reflexivity. }
  rewrite E. clear E.
  do 8 (split; [reflexivity|]). split; [|reflexivity].
  match goal with |- context [build_json5_text h ?a] => set (a1 := a) end.
  unfold build_json5_text.
  rewrite (ClaimFacts.pattern_of_empty_grid a1 eq_refl),
    (ClaimFacts.dict_of_empty_grid a1 eq_refl).
  cbv zeta. unfold int_at_least. subst a1. cbn [output_qty_var with_output].
  simpl output_qty_var. rewrite Hint. reflexivity.
Qed.

Lemma reset_gives_the_empty_recipe_witness :
  grid_items (engine (reset_all true
     (mkWindow Sample.plank_and_log "VINTAGE_STORY" None [] None EmptyString false
        EmptyString EmptyString EmptyString [] EmptyString))) = empty_grid.
Proof.
  exact (proj1 (reset_gives_the_empty_recipe Sample.host
                  (mkWindow Sample.plank_and_log "VINTAGE_STORY" None [] None EmptyString
                     false EmptyString EmptyString EmptyString [] EmptyString) eq_refl)).
Defined.


(** X23: showing an ingredient in the side panel and applying the panel
    as it is changes no cell of the grid, for an ingredient in the state
    the handlers leave it: a quantity of at least 1 and a tool cost of at
    least 0, that [int] reads back from their decimal text, a code in
    normal wildcard form, and no variants unless the code ends in a
    star. *)
Theorem panel_shown_then_applied_changes_nothing (h : Host) (w : Window)
    (ing : Ingredient) :
  grid_get (grid_items (engine w)) (selected (engine w)) = Some ing ->
  (1 <= quantity ing)%Z -> (0 <= tool_cost ing)%Z ->
  int_of h (pretty (quantity ing)) = Some (quantity ing) ->
  int_of h (pretty (tool_cost ing)) = Some (tool_cost ing) ->
  _normalize_wildcard_code ing = ing ->
  (Str.ends_with "*" (code ing) = false -> allowed_variants ing = []) ->
  let w1 := _update_side_for_selected w in
  grid_items (_side_apply h (engine w1)) = grid_items (engine w1)
  /\ is_tool_var (engine w1) = is_tool ing
  /\ qty_var (engine w1) = pretty (quantity ing)
  /\ tool_cost_var (engine w1) = pretty (tool_cost ing)
  /\ wildcard_var (engine w1) = Str.ends_with "*" (code ing)
  /\ symbol_var (engine w1) = symbol_or ing EmptyString
  /\ slot_name_var w1 = name ing.
Proof.
  intros Hg Hq Hc Hiq Hic Hnorm Hvar. cbv zeta.
  unfold _update_side_for_selected. rewrite Hg. cbv zeta.
  assert (Hq0 : Z.eqb (quantity ing) 0 = false) by (apply Z.eqb_neq; lia).
  rewrite Hq0.
  assert (Hwild : (if Str.truthy (code ing) then Str.ends_with "*" (code ing) else false)
                  = Str.ends_with "*" (code ing)).
  { destruct (Str.truthy (code ing)) eqn:E; [reflexivity|].
    destruct (code ing); [reflexivity | discriminate]. }
  rewrite Hwild.
  unfold with_engine, with_tool_row, with_slot_name_var.
  cbn [engine slot_name_var].
  set (aV := with_symbol_var _ _).
  assert (HgV : grid_get (grid_items aV) (selected aV) = Some ing) by exact Hg.
  destruct (GridFacts.uvui_vars aV) as (Ht & Hcost & Hqty & Hw).
  destruct (WindowFacts.uvui_frame aV) as (_ & _ & Hidx & _ & Hsel & Hsym & _).
  split; [|split; [exact Ht|split; [exact Hqty|split; [exact Hcost|split;
          [exact Hw|split; [exact Hsym|reflexivity]]]]]].
  remember (_update_variant_ui aV) as a1 eqn:Ea1.
  (* the ingredient shown *)
  assert (Hcell : exists ing1,
            grid_get (grid_items a1) (selected a1) = Some ing1
            /\ (ing1 = ing \/ ing1 = _normalize_wildcard_code (set_allowed_variants [] ing))).
  { rewrite Hsel, Ea1.
    destruct (GridFacts.uvui_selected_cell aV ing HgV) as [H|H]; eauto. }
  destruct Hcell as (ing1 & Hg1 & Hing1).
  assert (Hfields : quantity ing1 = quantity ing /\ tool_cost ing1 = tool_cost ing
                    /\ is_tool ing1 = is_tool ing).
  { destruct Hing1 as [->| ->]; [auto|].
    destruct (GridFacts.normalize_fields (set_allowed_variants [] ing))
      as (-> & -> & -> & _). auto. }
  destruct Hfields as (Fq & Fc & Ft).
  (* applying the panel gives the same ingredient *)
  assert (Hsame : apply_wildcard (wildcard_var a1)
                    (set_tool_fields (is_tool_var a1)
                       (int_at_least h 0 0 (tool_cost_var a1))
                       (int_at_least h 1 1 (qty_var a1)) ing1) = ing1).
  { rewrite Ht, Hcost, Hqty, Hw.
    change (is_tool_var aV) with (is_tool ing).
    change (tool_cost_var aV) with (pretty (tool_cost ing)).
    change (qty_var aV) with (pretty (quantity ing)).
    change (wildcard_var aV) with (Str.ends_with "*" (code ing)).
    unfold int_at_least. rewrite Hiq, Hic.
    rewrite Z.max_r by lia. rewrite Z.max_r by lia.
    assert (set_tool_fields (is_tool ing) (tool_cost ing) (quantity ing) ing1 = ing1) as ->
      by (rewrite <- Fq, <- Fc, <- Ft; destruct ing1; reflexivity).
    unfold apply_wildcard.
    destruct (Str.ends_with "*" (code ing)) eqn:Estar.
    - (* a wildcard code *)
      assert (Hn1 : _normalize_wildcard_code ing1 = ing1).
      { destruct Hing1 as [->| ->]; [exact Hnorm | apply ClaimFacts.normalize_idem]. }
      assert (Hs1 : Str.ends_with "*" (code ing1) = true).
      { destruct Hing1 as [->| ->]; [exact Estar|].
        rewrite Wildcard.normalize_code by exact Estar.
        unfold suffix_for, scoped. simpl. apply StrFacts.ends_with_app. }
      rewrite (StrFacts.ends_with_nonempty _ _ _ Hs1), Hs1. simpl. exact Hn1.
    - (* not a wildcard code *)
      assert (ing1 = ing) as ->.
      { destruct Hing1 as [->| ->]; [reflexivity|].
        rewrite Wildcard.normalize_not_wild by exact Estar.
        specialize (Hvar eq_refl). clear -Hvar.
        destruct ing. simpl in *. rewrite Hvar. reflexivity. }
      rewrite Estar. specialize (Hvar eq_refl).
      destruct (Str.truthy (code ing)); [|reflexivity].
      clear -Hvar. destruct ing. simpl in *. rewrite Hvar. reflexivity. }
  unfold _side_apply. rewrite Hg1, Hsame.
  rewrite (GridFacts.grid_set_id _ _ _ Hg1).
  match goal with |- grid_items (_update_variant_ui ?b) = _ =>
    rewrite (GridFacts.uvui_stable aV b) end; try reflexivity.
  - simpl. rewrite Ea1. reflexivity.
  - exact Hsel.
  - exact Hw.
  - exact Hidx.
Qed.

Lemma panel_shown_then_applied_changes_nothing_witness :
  let w1 := _update_side_for_selected
              (mkWindow Sample.plank_and_log "VINTAGE_STORY" None [] None EmptyString
                 false EmptyString EmptyString EmptyString [] EmptyString) in
  grid_items (_side_apply Sample.host (engine w1)) = grid_items (engine w1).
Proof.
  exact (proj1 (panel_shown_then_applied_changes_nothing Sample.host
                  (mkWindow Sample.plank_and_log "VINTAGE_STORY" None [] None EmptyString
                     false EmptyString EmptyString EmptyString [] EmptyString)
                  (Sample.ingredient "game:log" (Some "B"))
                  eq_refl ltac:(simpl; lia) ltac:(simpl; lia) eq_refl eq_refl eq_refl
                  (fun _ => eq_refl))).
Defined.


(** ** The autocomplete widgets *)

(** X24: the lines of the autocomplete list are the items that hold the
    text typed, letter case apart; so a text that holds another, letter
    case apart, shows no line the other does not show: typing more never
    adds a line.  The empty text shows every item, and two texts that
    differ by letter case only show the same lines. *)
Theorem typing_more_never_adds_a_line (typed1 typed2 : string) (l : AutocompleteList) :
  Str.contains (Str.lower typed1) (Str.lower typed2) = true ->
  (forall x, In x (listbox (update_list typed2 l)) ->
             In x (listbox (update_list typed1 l)))
  /\ (forall x, In x (listbox (update_list typed2 l))
                <-> In x (items_all l)
                    /\ Str.contains (Str.lower typed2) (Str.lower x) = true)
  /\ listbox (update_list EmptyString l) = items_all l
  /\ (Str.lower typed1 = Str.lower typed2 -> update_list typed1 l = update_list typed2 l)
  /\ items_all (update_list typed2 l) = items_all l.
Proof.
  intros H. split; [|split; [|split; [|split]]].
  - intros x [Hx Hc]%ListFacts.update_list_spec. apply ListFacts.update_list_spec.
    split; [exact Hx|]. eapply ListFacts.contains_trans; eassumption.
  - intros x. apply ListFacts.update_list_spec.
  - unfold update_list. simpl. apply MoreStr.filter_id.
    intros x _. destruct (Str.lower x); reflexivity.
  - intros E. unfold update_list. rewrite E. reflexivity.
  - reflexivity.
Qed.

Lemma typing_more_never_adds_a_line_witness :
  In "game:ingot-copper"
     (listbox (update_list "ingot" (new_list ["game:ingot-copper"; "game:ingot-iron"]))).
Proof.
  apply (proj1 (typing_more_never_adds_a_line "ingot" "INGOT-c"
                  (new_list ["game:ingot-copper"; "game:ingot-iron"]) eq_refl)).
  vm_compute. left. reflexivity.
Defined.

(** X25: [move_selection] keeps the selection on a line of the list: on
    a list with lines the line selected afterwards is the line selected
    before, or the first when none was, moved by [delta] and brought back
    between the first line and the last; the lines do not change; a list
    without lines is left as it is. *)
Theorem selection_stays_on_a_line (delta : Z) (l : AutocompleteList) :
  (listbox l = [] -> move_selection delta l = l)
  /\ (listbox l <> [] ->
      exists i,
        curselection (move_selection delta l) = Some i
        /\ i < length (listbox l)
        /\ Z.of_nat i
           = Z.max 0 (Z.min (Z.of_nat (length (listbox l)) - 1)
                        (Z.of_nat (default 0 (curselection l)) + delta))
        /\ listbox (move_selection delta l) = listbox l
        /\ items_all (move_selection delta l) = items_all l).
Proof.
  split.
  - intros H. unfold move_selection. rewrite H. reflexivity.
  - intros H. rewrite (ListFacts.move_selection_spec delta l H). simpl.
    assert (0 < length (listbox l)) by (destruct (listbox l); [congruence | simpl; lia]).
    eexists. split; [reflexivity|].
    split; [lia|]. split; [lia|]. split; reflexivity.
Qed.

(** X26: in an entry without popup, a key that is not a navigation key
    opens the list on the items that hold the text of the entry, letter
    case apart, in ascending order; pressing Down [n] times and then
    Return puts in the entry the line [n] of that list, or the last when
    there are fewer, and closes the popup; when no item holds the text
    the popup stays open and empty and Return changes nothing. *)
Theorem return_commits_the_selected_line (items : list string) (key : string)
    (e : AutocompleteEntry) (n : nat) :
  popup e = None -> items <> [] ->
  bool_decide (key ∈ ["Up"; "Down"; "Return"; "Escape"]) = false ->
  let shown :=
    List.filter (fun it => Str.contains (Str.lower (entry_text e)) (Str.lower it))
      (merge_sort String.le (elements (list_to_set items : gset string))) in
  let e' := _on_return (Nat.iter n (_on_down items) (_on_key_release key items e)) in
  match shown !! Nat.min n (length shown - 1) with
  | Some v => entry_text e' = v /\ popup e' = None
  | None => shown = [] /\ entry_text e' = entry_text e
            /\ exists p, popup e' = Some p /\ listbox p = []
  end.
Proof.
  intros Hp Hi Hk. cbv zeta.
  set (shown := List.filter _ _).
  (* the entry after the key and the Downs *)
  assert (Hstate : exists p,
            Nat.iter n (_on_down items) (_on_key_release key items e)
            = mkAutocompleteEntry (entry_text e) (Some p)
            /\ listbox p = shown
            /\ curselection p
               = match shown with
                 | [] => None
                 | _ :: _ => Some (Nat.min n (length shown - 1))
                 end).
  { induction n as [|n (p & Hn & Hl & Hc)].
    - simpl. unfold _on_key_release. rewrite Hk. unfold _open_or_update.
      destruct items as [|it items']; [congruence|]. rewrite Hp.
      eexists. split; [reflexivity|]. subst shown.
      unfold update_list, new_list. cbn [curselection listbox items_all].
      split; [reflexivity|]. destruct (List.filter _ _); reflexivity.
    - rewrite Nat.iter_succ, Hn. unfold _on_down. cbn [popup entry_text].
      eexists. split; [reflexivity|].
      destruct shown as [|x xs] eqn:Es.
      + unfold move_selection. rewrite Hl. auto.
      + rewrite ListFacts.move_selection_spec by (rewrite Hl; discriminate).
        cbn [listbox curselection]. rewrite Hl, Hc. split; [reflexivity|].
        f_equal. cbn [default length]. unfold id. lia. }
  destruct Hstate as (p & -> & Hl & Hc).
  unfold _on_return. cbn [popup]. rewrite Hl.
  destruct shown as [|x xs] eqn:Es.
  - simpl. split; [reflexivity|]. split; [reflexivity|]. eauto.
  - unfold _commit. rewrite Hc, Hl.
    assert (Hlt : Nat.min n (length (x :: xs) - 1) < length (x :: xs)) by (simpl; lia).
    apply lookup_lt_is_Some_2 in Hlt as [v Hv]. rewrite Hv. simpl. auto.
Qed.

Lemma return_commits_the_selected_line_witness :
  entry_text (_on_return (Nat.iter 1 (_on_down ["game:ingot-iron"; "game:plank"; "game:ingot-copper"])
     (_on_key_release "t" ["game:ingot-iron"; "game:plank"; "game:ingot-copper"]
        (mkAutocompleteEntry "Ingot" None))))
  = "game:ingot-iron".
Proof.
  pose proof (return_commits_the_selected_line
                ["game:ingot-iron"; "game:plank"; "game:ingot-copper"] "t"
                (mkAutocompleteEntry "Ingot" None) 1 eq_refl ltac:(discriminate) eq_refl) as H.
  cbv zeta in H.
  assert (E : List.filter (fun it => Str.contains (Str.lower "Ingot") (Str.lower it))
                (merge_sort String.le
                   (elements (list_to_set ["game:ingot-iron"; "game:plank"; "game:ingot-copper"]
                              : gset string)))
              = ["game:ingot-copper"; "game:ingot-iron"]) by (vm_compute; reflexivity).
  cbn [entry_text] in H. rewrite E in H. exact (proj1 H).
Defined.


(** ** Patterns and corpus, once more *)

(** X27: a normalized pattern holds no placeholder any more, the
    placeholder pattern matching nowhere in it, and it neither starts nor
    ends with white space. *)
Theorem norm_pattern_leaves_no_placeholder (s : string) :
  Re.finditer re_placeholder (_norm_pattern s) = []
  /\ (forall c, Str.head (_norm_pattern s) = Some c -> Chars.is_space c = false)
  /\ (forall c, Str.last (_norm_pattern s) = Some c -> Chars.is_space c = false).
Proof.
  rewrite NormFacts.norm_pattern_eq. split.
  - apply PlaceFacts.finditer_from_quiet.
    apply NormFacts.strip_quiet, NormFacts.collapse_quiet, NormFacts.fill_quiet.
  - apply PlaceFacts.strip_ends.
Qed.

(** X28: the corpus holds only what the definition files hold: a token
    at a key is there because a definition file that can be read holds
    the base of the key, a dash and the token, in a row; and the domain of
    the key is [game], or the lowered form of a domain that the file holds
    before the base, with a colon. *)
Theorem corpus_holds_only_what_files_hold (h : Host) (survival key t : string)
    (tokens : gset string) :
  _collect_corpus_variants h survival !! key = Some tokens ->
  t ∈ tokens ->
  exists d b full txt,
    key = d +:+ ":" +:+ b +:+ "-"
    /\ In full (definition_files h survival)
    /\ read_text h full = Some txt
    /\ Str.contains (b +:+ "-" +:+ t) txt = true
    /\ (d = "game"
        \/ exists g, d = Str.lower g
                     /\ Str.contains (g +:+ ":" +:+ b +:+ "-" +:+ t) txt = true).
Proof.
  intros Hk Ht.
  assert (Hin : t ∈ tokens_at (_collect_corpus_variants h survival) key)
    by (unfold tokens_at; rewrite Hk; exact Ht).
  apply CorpusFacts.corpus_tokens in Hin as (d & b & -> & full & txt & Hf & Hr & Ho).
  apply PlaceFacts.occurs_in_text_place in Ho as [H1 H2].
  exists d, b, full, txt. auto.
Qed.

Lemma corpus_holds_only_what_files_hold_witness :
  exists d b full txt,
    "game:ingot-" = d +:+ ":" +:+ b +:+ "-"
    /\ In full (definition_files Sample.host "/vs/assets/survival")
    /\ read_text Sample.host full = Some txt
    /\ Str.contains (b +:+ "-" +:+ "iron") txt = true
    /\ (d = "game"
        \/ exists g, d = Str.lower g
                     /\ Str.contains (g +:+ ":" +:+ b +:+ "-" +:+ "iron") txt = true).
Proof.
  apply (corpus_holds_only_what_files_hold Sample.host "/vs/assets/survival"
           "game:ingot-" "iron" {[ "copper"; "iron" ]}).
  - vm_compute. reflexivity.
  - vm_compute. reflexivity.
Defined.
